(** * LayerSnapshotBuilder: the front end's scene-graph flattening pass

    A shallow embedding of
    [services/surfaceflinger/FrontEnd/LayerSnapshotBuilder.cpp].

    Conventions of the embedding
    - [int32_t] values are [Z] with the wrap-around written out ([wrap32]);
      [size_t] array indices are [nat].
    - [ftl::Flags<E>] is a finite set of enumerators ([gset E]):
      [a | b] is union, [a & b] is intersection, [test] is membership,
      [any] is a non-empty intersection, [clear] gives the empty set.
    - [float], [half] and [double] arithmetic, [ui::Transform], [Region] and
      the accessors of [RequestedLayerState], [LayerSnapshot] and
      [LayerHierarchy::TraversalPath] are declared in headers outside this
      translation unit; they are taken as parameters, bundled in the classes
      below, so every theorem holds for any implementation of them.
    - [mSnapshots] holds owning pointers and [mIdToSnapshot] holds raw pointers
      to the same objects: the model keeps an explicit heap of snapshots,
      addressed by [ptr].
    - Undefined behaviour of the source (a null dereference, an index past the
      end of [mSnapshots]) is the [None] of an error monad.
    - The conversion of a floating value outside [int32_t] to [int32_t],
      undefined as well, is the one exception: the compiled conversion does
      not stop the program, it leaves some value of [int32_t], which is a
      parameter of the embedding ([static_cast_int32]).
    - Logging and tracing ([ALOGV], [ALOGE], [ATRACE_NAME]) are not modelled. *)

From Stdlib Require Import ZArith Bool List Lia QArith Qround.
From stdpp Require Import base option list gmap sets.

Open Scope Z_scope.

(* ------------------------------------------------------------------ *)
(** ** Machine integers *)

Definition int32_min : Z := - 2 ^ 31.
Definition int32_max : Z := 2 ^ 31 - 1.

Definition in_int32 (z : Z) : bool := (int32_min <=? z) && (z <=? int32_max).

(** Two's complement wrap-around of a mathematical integer to [int32_t]. *)
Definition wrap32 (z : Z) : Z := (z + 2 ^ 31) mod 2 ^ 32 - 2 ^ 31.

(** [__builtin_add_overflow(a, b, &res)] on [int32_t]: the flag tells whether
    the exact sum is out of range, [res] receives the wrapped sum. *)
Definition builtin_add_overflow (a b : Z) : bool * Z :=
  (negb (in_int32 (a + b)), wrap32 (a + b)).

(* ------------------------------------------------------------------ *)
(** ** Enumerations *)

(** Modelled from the spec: [RequestedLayerState::Changes] is declared in
    RequestedLayerState.h; the enumerators are the change flags of the data
    model (it lists Geometry, Visibility, Content, Hierarchy, Metadata, Input,
    AffectsChildren, Created, Buffer). *)
Inductive Changes :=
  | Hierarchy | Geometry | Visibility | Metadata | AffectsChildren
  | Content | Created | Input | Buffer.

Global Instance Changes_eq_dec : EqDecision Changes.
Proof. solve_decision. Defined.

Global Instance Changes_countable : Countable Changes.
Proof.
  refine (inj_countable'
    (fun c => match c with
              | Hierarchy => 0 | Geometry => 1 | Visibility => 2 | Metadata => 3
              | AffectsChildren => 4 | Content => 5 | Created => 6 | Input => 7
              | Buffer => 8 end%nat)
    (fun n => match n with
              | 0 => Hierarchy | 1 => Geometry | 2 => Visibility | 3 => Metadata
              | 4 => AffectsChildren | 5 => Content | 6 => Created | 7 => Input
              | _ => Buffer end%nat) _).
  by intros [].
Defined.

(** The members of [gui::WindowInfo::InputConfig] that the builder names. *)
Inductive InputConfig :=
  | NO_INPUT_CHANNEL | DROP_INPUT | DROP_INPUT_IF_OBSCURED | NOT_TOUCHABLE
  | NOT_VISIBLE | TRUSTED_OVERLAY | CLONE.

Global Instance InputConfig_eq_dec : EqDecision InputConfig.
Proof. solve_decision. Defined.

Global Instance InputConfig_countable : Countable InputConfig.
Proof.
  refine (inj_countable'
    (fun c => match c with
              | NO_INPUT_CHANNEL => 0 | DROP_INPUT => 1
              | DROP_INPUT_IF_OBSCURED => 2 | NOT_TOUCHABLE => 3
              | NOT_VISIBLE => 4 | TRUSTED_OVERLAY => 5 | CLONE => 6 end%nat)
    (fun n => match n with
              | 0 => NO_INPUT_CHANNEL | 1 => DROP_INPUT
              | 2 => DROP_INPUT_IF_OBSCURED | 3 => NOT_TOUCHABLE
              | 4 => NOT_VISIBLE | 5 => TRUSTED_OVERLAY | _ => CLONE end%nat) _).
  by intros [].
Defined.

(** [gui::DropInputMode]. *)
Inductive DropInputMode := DropNONE | DropALL | DropOBSCURED.

Global Instance DropInputMode_eq_dec : EqDecision DropInputMode.
Proof. solve_decision. Defined.

(** [Hwc2::IComposerClient::BlendMode], the values the builder assigns. *)
Inductive BlendMode := BlendNONE | BlendPREMULTIPLIED | BlendCOVERAGE.

(** [LayerHierarchy::Variant]: how a child edge hangs off its parent. *)
Inductive Variant := Attached | Relative | Mirror.

Global Instance Variant_eq_dec : EqDecision Variant.
Proof. solve_decision. Defined.

(** *** Flag sets *)

Section flags.
Context {E : Type} `{Countable E}.

(** [flags.test(f)] *)
Definition test (fl : gset E) (f : E) : bool := bool_decide (f ∈ fl).

(** [flags.any(mask)] *)
Definition any (fl mask : gset E) : bool := bool_decide (fl ∩ mask ≠ ∅).

(** [flags.get() == 0] *)
Definition none_set (fl : gset E) : bool := bool_decide (fl = ∅).

(** [info.setInputConfig(f, value)] *)
Definition setInputConfig (fl : gset E) (f : E) (value : bool) : gset E :=
    if value then fl ∪ {[f]} else fl ∖ {[f]}.
End flags.

(* ------------------------------------------------------------------ *)
(** ** Geometry values *)

(** [ui::Rect]: four [int32_t] edges. *)
Record Rect := mkRect {
  r_left : Z; r_top : Z; r_right : Z; r_bottom : Z
}.

Global Instance Rect_eq_dec : EqDecision Rect.
Proof. solve_decision. Defined.

(** [ui::Size]. *)
Record Size := mkSize { getWidth : Z; getHeight : Z }.

(** Scalar arithmetic of the C++ floating types. *)
Class FloatOps := {
  float : Type;
  f0 : float;                      (* 0.f *)
  f1 : float;                      (* 1.f, 1.0_hf *)
  f2 : float;                      (* 2.f *)
  f10 : float;                     (* 10.f *)
  fadd : float -> float -> float;
  fsub : float -> float -> float;
  fmul : float -> float -> float;
  fdiv : float -> float -> float;
  fneg : float -> float;
  fmin : float -> float -> float;  (* std::min *)
  fmax : float -> float -> float;  (* std::max *)
  fltb : float -> float -> bool;   (* a < b *)
  feqb : float -> float -> bool;   (* a == b *)
  float_of_int : Z -> float;       (* static_cast<float>(int32_t) *)
  int_of_float : float -> Z;       (* static_cast<int32_t>(float) *)
  (* the integral part of x + 0.5, toward zero, as a mathematical integer *)
  rounded_offset : float -> Z;
  (* the bits static_cast<int32_t> leaves in its result for a floating value
     whose integral part is outside [int32_t], where C++ does not define the
     conversion *)
  cast_out_of_range : Z -> Z
}.

Section conversions.
Context {FO : FloatOps}.

(** [static_cast<int32_t>(x)] for a floating [x] with integral part [z]:
    [z] itself when it fits [int32_t]. Outside the range the conversion is
    undefined; the result is a value of [int32_t] all the same, whichever
    the hardware leaves. *)
Definition static_cast_int32 (z : Z) : Z :=
  if in_int32 z then z else wrap32 (cast_out_of_range z).

(** [static_cast<int32_t>(x + 0.5)], lines 61 and 62. *)
Definition round_offset (x : float) : Z :=
  static_cast_int32 (rounded_offset x).

End conversions.

Section geometry.
Context {FO : FloatOps}.

(** [FloatRect]. *)
Record FloatRect := mkFloatRect {
    fr_left : float; fr_top : float; fr_right : float; fr_bottom : float
  }.

(** [vec2], used for corner radii. *)
Record vec2 := mkVec2 { v_x : float; v_y : float }.

(** [RoundedCornerState]. *)
Record RoundedCornerState := mkRoundedCornerState {
    cropRect : FloatRect;
    radius : vec2
  }.
End geometry.

Arguments FloatRect {FO}.
Arguments vec2 {FO}.
Arguments RoundedCornerState {FO}.

(** [ui::Transform], [Region] and the members of [Rect] and [FloatRect] the
    builder calls. *)
Class GeometryOps {FO : FloatOps} := {
  Transform : Type;
  t_identity : Transform;                             (* Transform(), reset() *)
  t_mul : Transform -> Transform -> Transform;        (* operator* *)
  t_inverse : Transform -> Transform;                 (* inverse() *)
  t_set : Transform -> float -> float -> Transform;   (* set(tx, ty) *)
  t_tx : Transform -> float;
  t_ty : Transform -> float;
  t_isIdentityType : Transform -> bool;               (* getType() == IDENTITY *)
  t_getScaleX : Transform -> float;
  t_getScaleY : Transform -> float;
  transformF : Transform -> FloatRect -> FloatRect;   (* transform(FloatRect) *)
  transformR : Transform -> Rect -> Rect;             (* transform(Rect) *)
  isTransformValid : Transform -> bool;   (* LayerSnapshot::isTransformValid *)

  Region : Type;
  region_empty : Region;                              (* Region(), clear() *)
  region_of_rect : Rect -> Region;                    (* Region(Rect) *)
  region_rects : Region -> list Rect;                 (* begin() .. end() *)
  region_orSelf : Region -> Rect -> Region;           (* orSelf(Rect) *)
  region_intersect : Region -> Rect -> Region;        (* intersect(Rect) *)
  transformRegion : Transform -> Region -> Region;    (* transform(Region) *)

  EMPTY_RECT : Rect;                                  (* Rect::EMPTY_RECT *)
  rect_isValid : Rect -> bool;
  rect_isEmpty : Rect -> bool;
  toFloatRect : Rect -> FloatRect;
  Rect_of_FloatRect : FloatRect -> Rect;              (* Rect{FloatRect} *)
  frect_default : FloatRect;                          (* FloatRect() *)
  frect_intersect : FloatRect -> FloatRect -> FloatRect;
  frect_getWidth : FloatRect -> float;
  frect_getHeight : FloatRect -> float;
  frect_isEmpty : FloatRect -> bool;
  vec2_zero : vec2;                                   (* vec2() *)
  hasRoundedCorners : RoundedCornerState -> bool;
  kEmptySize : Size                                   (* ui::kEmptySize *)
}.

(** [LayerHierarchy::TraversalPath] and its scoped extension. The map
    [mIdToSnapshot] is keyed by paths, with the equality and hash of
    LayerHierarchy.h: here the [EqDecision] and [Countable] instances. *)
Class HierarchyOps := {
  TraversalPath : Type;
  TraversalPath_eq_dec :: EqDecision TraversalPath;
  TraversalPath_countable :: Countable TraversalPath;
  ROOT : TraversalPath;                          (* TraversalPath::ROOT *)
  path_id : TraversalPath -> Z;                  (* path.id *)
  path_variant : TraversalPath -> Variant;       (* path.variant *)
  isRelative : TraversalPath -> bool;
  isAttached : TraversalPath -> bool;
  isClone : TraversalPath -> bool;
  mirrorRootIds_back : TraversalPath -> Z;       (* path.mirrorRootIds.back() *)
  path_of_id : Z -> TraversalPath;               (* TraversalPath{.id = id} *)
  (* the path while a ScopedAddToTraversalPath(path, id, variant) is alive *)
  addToTraversalPath : TraversalPath -> Z -> Variant -> TraversalPath;
  UNASSIGNED_LAYER_ID : Z
}.

(** Values the builder only copies, compares or hands to a library call. *)
Class PayloadOps {FO : FloatOps} := {
  Fence : Type;
  NO_FENCE : Fence;                              (* Fence::NO_FENCE *)
  GraphicBuffer : Type;
  ExternalTexture : Type;
  tex_getBuffer : ExternalTexture -> GraphicBuffer;
  (* getUsage() & GRALLOC_USAGE_PROTECTED *)
  tex_usageProtected : ExternalTexture -> bool;
  BufferData : Type;
  bd_acquireFence : BufferData -> Fence;
  bd_frameNumber : BufferData -> Z;
  (* getPixelFormat() == HAL_PIXEL_FORMAT_RGBA_1010102 *)
  bd_isRGBA_1010102 : BufferData -> bool;
  NativeHandle : Type;
  Dataspace : Type;
  is_BT2020_ITU_PQ : Dataspace -> bool;          (* == BT2020_ITU_PQ *)
  Api : Type;
  is_NATIVE_WINDOW_API_MEDIA : Api -> bool;
  StretchEffect : Type;
  stretch_default : StretchEffect;               (* {} *)
  stretch_hasEffect : StretchEffect -> bool;
  mat4 : Type;
  mat4_mul : mat4 -> mat4 -> mat4;
  vec3 : Type;
  vec4 : Type;
  vec4_scale : vec4 -> float -> vec4;            (* v *= a *)
  BlurRegions : Type;
  blur_nonempty : BlurRegions -> bool;           (* size() > 0 *)
  HdrMetadata : Type;
  CompositionType : Type;
  BufferTransform : Type;
  LayerMetadata : Type;
  metadata_empty : LayerMetadata;                (* mMap.clear() *)
  metadata_merge : LayerMetadata -> LayerMetadata -> LayerMetadata;
  TouchOcclusionMode : Type;
  BLOCK_UNTRUSTED : TouchOcclusionMode;
  LightSource : Type;                            (* lightPos, lightRadius *)
  SnapshotRest : Type;
  RequestedRest : Type;                          (* position, matrix, ... *)
  (* layer_state_t bit masks *)
  eLayerSecure : Z;
  eLayerSkipScreenshot : Z;
  eLayerOpaque : Z;
  CONTENT_DIRTY : Z;
  BUFFER_CHANGES : Z;
  DEFAULT_LAYER_STACK : Z                        (* ui::DEFAULT_LAYER_STACK *)
}.

(** [a & mask] converted to [bool]. *)
Definition has_bits (a mask : Z) : bool := negb (Z.land a mask =? 0).

Section records.
Context {FO : FloatOps} {GO : GeometryOps} {HO : HierarchyOps}
          {PO : PayloadOps}.

(** [renderengine::ShadowSettings]. *)
Record ShadowSettings := mkShadowSettings {
    boundaries : FloatRect;
    ambientColor : vec4;
    spotColor : vec4;
    light : LightSource;
    ss_length : float;                  (* length *)
    casterIsTranslucent : bool
  }.

(** [ui::LayerFilter], the member [outputFilter]. *)
Record LayerFilter := mkLayerFilter {
    layerStack : Z;
    toInternalDisplay : bool
  }.

(** The members of [gui::WindowInfo] the builder reads or writes. *)
Record WindowInfo := mkWindowInfo {
    displayId : Z;
    inputConfig : gset InputConfig;
    touchableRegion : Region;
    surfaceInset : Z;
    frameLeft : Z;
    frameTop : Z;
    frameRight : Z;
    frameBottom : Z;
    wi_transform : Transform;
    wi_alpha : float;
    touchOcclusionMode : TouchOcclusionMode;
    replaceTouchableRegionWithCrop : bool
  }.

(** The members of [RequestedLayerState] (and of its base [layer_state_t])
      the builder reads. *)
Record RequestedLayerState := mkRequestedLayerState {
    rq_id : Z;
    rq_changes : gset Changes;
    rq_what : Z;
    rq_flags : Z;
    rq_color_a : float;
    rq_parentId : Z;
    rq_layerStack : Z;
    rq_isTrustedOverlay : bool;
    rq_stretchEffect : StretchEffect;
    rq_colorTransform : mat4;
    rq_hasColorTransform : bool;
    rq_dimmingEnabled : bool;
    rq_bufferData : option BufferData;
    rq_externalTexture : option ExternalTexture;
    rq_dataspace : Dataspace;
    rq_bufferTransform : BufferTransform;
    rq_transformToDisplayInverse : bool;
    rq_api : Api;
    rq_sidebandStream : option NativeHandle;
    rq_surfaceDamageRegion : Region;
    rq_transparentRegion : Region;
    rq_colorSpaceAgnostic : bool;
    rq_backgroundBlurRadius : Z;
    rq_blurRegions : BlurRegions;
    rq_hdrMetadata : HdrMetadata;
    rq_crop : Rect;
    rq_cornerRadius : float;
    rq_shadowRadius : float;
    rq_metadata : LayerMetadata;
    rq_dropInputMode : DropInputMode;
    rq_touchCropId : Z;
    rq_premultipliedAlpha : bool;
    (* the members only the accessors of SnapshotOps read *)
    rq_rest : RequestedRest
  }.

(** [frontend::DisplayInfo]. *)
Record DisplayInfo := mkDisplayInfo {
    logicalWidth : Z;            (* info.logicalWidth *)
    logicalHeight : Z;           (* info.logicalHeight *)
    di_isSecure : bool;
    di_isPrimary : bool;
    rotationFlags : Z;
    di_transform : Transform
  }.
End records.

(* ------------------------------------------------------------------ *)
(** ** The snapshot *)

Section snapshot.
Context {FO : FloatOps} {GO : GeometryOps} {HO : HierarchyOps}
          {PO : PayloadOps}.

(** The members of [LayerSnapshot] the builder reads or writes. [sn_rest]
      stands for the members that only the constructor sets (name, sequence,
      owner and the like). *)
Record LayerSnapshot := mkLayerSnapshot {
    (* identity *)
    path : TraversalPath;
    globalZ : nat;
    (* flags and visibility *)
    changes : gset Changes;
    isHiddenByPolicyFromParent : bool;
    isHiddenByPolicyFromRelativeParent : bool;
    contentDirty : bool;
    isVisible : bool;
    (* inherited state *)
    color_a : float;                     (* color.a *)
    color_rgb : vec3;                    (* color.rgb *)
    alpha : float;
    isSecure : bool;
    isTrustedOverlay : bool;
    outputFilter : LayerFilter;
    stretchEffect : StretchEffect;
    colorTransform : mat4;
    colorTransformIsIdentity : bool;
    (* composition bookkeeping *)
    compositionType : CompositionType;
    dimmingEnabled : bool;
    layerOpaqueFlagSet : bool;
    (* buffer state *)
    acquireFence : Fence;
    buffer : option GraphicBuffer;
    bufferSize : Rect;
    geomBufferSize : Rect;
    croppedBufferSize : Rect;
    dataspace : Dataspace;
    externalTexture : option ExternalTexture;
    frameNumber : Z;
    geomBufferTransform : BufferTransform;
    geomBufferUsesDisplayInverseTransform : bool;
    geomContentCrop : Rect;
    geomUsesSourceCrop : bool;
    hasProtectedContent : bool;
    isHdrY410 : bool;
    sidebandStream : option NativeHandle;
    surfaceDamage : Region;
    transparentRegionHint : Region;
    (* content *)
    isColorspaceAgnostic : bool;
    backgroundBlurRadius : Z;
    blurRegions : BlurRegions;
    hdrMetadata : HdrMetadata;
    (* geometry *)
    geomCrop : Rect;
    localTransform : Transform;
    localTransformInverse : Transform;
    geomLayerTransform : Transform;
    invalidTransform : bool;
    geomInverseLayerTransform : Transform;
    geomLayerBounds : FloatRect;
    transformedBounds : FloatRect;
    parentTransform : Transform;
    cursorFrame : Rect;
    bufferNeedsFiltering : bool;
    roundedCorner : RoundedCornerState;
    (* input *)
    inputInfo : WindowInfo;
    dropInputMode : DropInputMode;
    (* shadows, metadata, derived flags *)
    shadowRadius : float;
    shadowSettings : ShadowSettings;
    layerMetadata : LayerMetadata;
    relativeLayerMetadata : LayerMetadata;
    forceClientComposition : bool;
    isOpaque : bool;
    blendMode : BlendMode;
    sn_rest : SnapshotRest
  }.

Definition WindowInfo_eta (s : WindowInfo) : WindowInfo :=
    mkWindowInfo (displayId s) (inputConfig s) (touchableRegion s)
      (surfaceInset s) (frameLeft s) (frameTop s) (frameRight s)
      (frameBottom s) (wi_transform s) (wi_alpha s) (touchOcclusionMode s)
      (replaceTouchableRegionWithCrop s).

Definition LayerSnapshot_eta (s : LayerSnapshot) : LayerSnapshot :=
    mkLayerSnapshot (path s) (globalZ s) (changes s)
      (isHiddenByPolicyFromParent s) (isHiddenByPolicyFromRelativeParent s)
      (contentDirty s) (isVisible s) (color_a s) (color_rgb s) (alpha s)
      (isSecure s) (isTrustedOverlay s) (outputFilter s) (stretchEffect s)
      (colorTransform s) (colorTransformIsIdentity s) (compositionType s)
      (dimmingEnabled s) (layerOpaqueFlagSet s) (acquireFence s) (buffer s)
      (bufferSize s) (geomBufferSize s) (croppedBufferSize s) (dataspace s)
      (externalTexture s) (frameNumber s) (geomBufferTransform s)
      (geomBufferUsesDisplayInverseTransform s) (geomContentCrop s)
      (geomUsesSourceCrop s) (hasProtectedContent s) (isHdrY410 s)
      (sidebandStream s) (surfaceDamage s) (transparentRegionHint s)
      (isColorspaceAgnostic s) (backgroundBlurRadius s) (blurRegions s)
      (hdrMetadata s) (geomCrop s) (localTransform s)
      (localTransformInverse s) (geomLayerTransform s) (invalidTransform s)
      (geomInverseLayerTransform s) (geomLayerBounds s) (transformedBounds s)
      (parentTransform s) (cursorFrame s) (bufferNeedsFiltering s)
      (roundedCorner s) (inputInfo s) (dropInputMode s) (shadowRadius s)
      (shadowSettings s) (layerMetadata s) (relativeLayerMetadata s)
      (forceClientComposition s) (isOpaque s) (blendMode s) (sn_rest s).
End snapshot.

(** *** Field assignment

    [set_f v s] is the snapshot after [s.f = v]: the record rebuilt from the
    projections of [s] with [v] in the place of [f s]. *)

Ltac subst_field e proj s v :=
  match eval pattern (proj s) in e with
  | ?f _ => let r := eval cbv beta in (f v) in exact r
  end.

Ltac wi_setter proj :=
  let v := fresh "v" in
  let s := fresh "s" in
  intros v s;
  let e := eval cbv [WindowInfo_eta] in (WindowInfo_eta s) in
  subst_field e proj s v.

Ltac ls_setter proj :=
  let v := fresh "v" in
  let s := fresh "s" in
  intros v s;
  let e := eval cbv [LayerSnapshot_eta] in (LayerSnapshot_eta s) in
  subst_field e proj s v.

Section setters.
Context {FO : FloatOps} {GO : GeometryOps} {HO : HierarchyOps}
          {PO : PayloadOps}.

Definition set_displayId : _ -> WindowInfo -> WindowInfo
  := ltac:(wi_setter displayId).
Definition set_inputConfig : _ -> WindowInfo -> WindowInfo
  := ltac:(wi_setter inputConfig).
Definition set_touchableRegion : _ -> WindowInfo -> WindowInfo
  := ltac:(wi_setter touchableRegion).
Definition set_surfaceInset : _ -> WindowInfo -> WindowInfo
  := ltac:(wi_setter surfaceInset).
Definition set_frameLeft : _ -> WindowInfo -> WindowInfo
  := ltac:(wi_setter frameLeft).
Definition set_frameTop : _ -> WindowInfo -> WindowInfo
  := ltac:(wi_setter frameTop).
Definition set_frameRight : _ -> WindowInfo -> WindowInfo
  := ltac:(wi_setter frameRight).
Definition set_frameBottom : _ -> WindowInfo -> WindowInfo
  := ltac:(wi_setter frameBottom).
Definition set_wi_transform : _ -> WindowInfo -> WindowInfo
  := ltac:(wi_setter wi_transform).
Definition set_wi_alpha : _ -> WindowInfo -> WindowInfo
  := ltac:(wi_setter wi_alpha).
Definition set_touchOcclusionMode : _ -> WindowInfo -> WindowInfo
  := ltac:(wi_setter touchOcclusionMode).
Definition set_replaceTouchableRegionWithCrop : _ -> WindowInfo -> WindowInfo
  := ltac:(wi_setter replaceTouchableRegionWithCrop).

Definition set_globalZ : _ -> LayerSnapshot -> LayerSnapshot
  := ltac:(ls_setter globalZ).
Definition set_changes : _ -> LayerSnapshot -> LayerSnapshot
  := ltac:(ls_setter changes).
Definition set_isHiddenByPolicyFromParent : _ -> LayerSnapshot -> LayerSnapshot
  := ltac:(ls_setter isHiddenByPolicyFromParent).
Definition set_isHiddenByPolicyFromRelativeParent : _ -> LayerSnapshot -> LayerSnapshot
  := ltac:(ls_setter isHiddenByPolicyFromRelativeParent).
Definition set_contentDirty : _ -> LayerSnapshot -> LayerSnapshot
  := ltac:(ls_setter contentDirty).
Definition set_isVisible : _ -> LayerSnapshot -> LayerSnapshot
  := ltac:(ls_setter isVisible).
Definition set_color_a : _ -> LayerSnapshot -> LayerSnapshot
  := ltac:(ls_setter color_a).
Definition set_color_rgb : _ -> LayerSnapshot -> LayerSnapshot
  := ltac:(ls_setter color_rgb).
Definition set_alpha : _ -> LayerSnapshot -> LayerSnapshot
  := ltac:(ls_setter alpha).
Definition set_isSecure : _ -> LayerSnapshot -> LayerSnapshot
  := ltac:(ls_setter isSecure).
Definition set_isTrustedOverlay : _ -> LayerSnapshot -> LayerSnapshot
  := ltac:(ls_setter isTrustedOverlay).
Definition set_outputFilter : _ -> LayerSnapshot -> LayerSnapshot
  := ltac:(ls_setter outputFilter).
Definition set_stretchEffect : _ -> LayerSnapshot -> LayerSnapshot
  := ltac:(ls_setter stretchEffect).
Definition set_colorTransform : _ -> LayerSnapshot -> LayerSnapshot
  := ltac:(ls_setter colorTransform).
Definition set_colorTransformIsIdentity : _ -> LayerSnapshot -> LayerSnapshot
  := ltac:(ls_setter colorTransformIsIdentity).
Definition set_compositionType : _ -> LayerSnapshot -> LayerSnapshot
  := ltac:(ls_setter compositionType).
Definition set_dimmingEnabled : _ -> LayerSnapshot -> LayerSnapshot
  := ltac:(ls_setter dimmingEnabled).
Definition set_layerOpaqueFlagSet : _ -> LayerSnapshot -> LayerSnapshot
  := ltac:(ls_setter layerOpaqueFlagSet).
Definition set_acquireFence : _ -> LayerSnapshot -> LayerSnapshot
  := ltac:(ls_setter acquireFence).
Definition set_buffer : _ -> LayerSnapshot -> LayerSnapshot
  := ltac:(ls_setter buffer).
Definition set_bufferSize : _ -> LayerSnapshot -> LayerSnapshot
  := ltac:(ls_setter bufferSize).
Definition set_geomBufferSize : _ -> LayerSnapshot -> LayerSnapshot
  := ltac:(ls_setter geomBufferSize).
Definition set_croppedBufferSize : _ -> LayerSnapshot -> LayerSnapshot
  := ltac:(ls_setter croppedBufferSize).
Definition set_dataspace : _ -> LayerSnapshot -> LayerSnapshot
  := ltac:(ls_setter dataspace).
Definition set_externalTexture : _ -> LayerSnapshot -> LayerSnapshot
  := ltac:(ls_setter externalTexture).
Definition set_frameNumber : _ -> LayerSnapshot -> LayerSnapshot
  := ltac:(ls_setter frameNumber).
Definition set_geomBufferTransform : _ -> LayerSnapshot -> LayerSnapshot
  := ltac:(ls_setter geomBufferTransform).
Definition set_geomBufferUsesDisplayInverseTransform : _ -> LayerSnapshot -> LayerSnapshot
  := ltac:(ls_setter geomBufferUsesDisplayInverseTransform).
Definition set_geomContentCrop : _ -> LayerSnapshot -> LayerSnapshot
  := ltac:(ls_setter geomContentCrop).
Definition set_geomUsesSourceCrop : _ -> LayerSnapshot -> LayerSnapshot
  := ltac:(ls_setter geomUsesSourceCrop).
Definition set_hasProtectedContent : _ -> LayerSnapshot -> LayerSnapshot
  := ltac:(ls_setter hasProtectedContent).
Definition set_isHdrY410 : _ -> LayerSnapshot -> LayerSnapshot
  := ltac:(ls_setter isHdrY410).
Definition set_sidebandStream : _ -> LayerSnapshot -> LayerSnapshot
  := ltac:(ls_setter sidebandStream).
Definition set_surfaceDamage : _ -> LayerSnapshot -> LayerSnapshot
  := ltac:(ls_setter surfaceDamage).
Definition set_transparentRegionHint : _ -> LayerSnapshot -> LayerSnapshot
  := ltac:(ls_setter transparentRegionHint).
Definition set_isColorspaceAgnostic : _ -> LayerSnapshot -> LayerSnapshot
  := ltac:(ls_setter isColorspaceAgnostic).
Definition set_backgroundBlurRadius : _ -> LayerSnapshot -> LayerSnapshot
  := ltac:(ls_setter backgroundBlurRadius).
Definition set_blurRegions : _ -> LayerSnapshot -> LayerSnapshot
  := ltac:(ls_setter blurRegions).
Definition set_hdrMetadata : _ -> LayerSnapshot -> LayerSnapshot
  := ltac:(ls_setter hdrMetadata).
Definition set_geomCrop : _ -> LayerSnapshot -> LayerSnapshot
  := ltac:(ls_setter geomCrop).
Definition set_localTransform : _ -> LayerSnapshot -> LayerSnapshot
  := ltac:(ls_setter localTransform).
Definition set_localTransformInverse : _ -> LayerSnapshot -> LayerSnapshot
  := ltac:(ls_setter localTransformInverse).
Definition set_geomLayerTransform : _ -> LayerSnapshot -> LayerSnapshot
  := ltac:(ls_setter geomLayerTransform).
Definition set_invalidTransform : _ -> LayerSnapshot -> LayerSnapshot
  := ltac:(ls_setter invalidTransform).
Definition set_geomInverseLayerTransform : _ -> LayerSnapshot -> LayerSnapshot
  := ltac:(ls_setter geomInverseLayerTransform).
Definition set_geomLayerBounds : _ -> LayerSnapshot -> LayerSnapshot
  := ltac:(ls_setter geomLayerBounds).
Definition set_transformedBounds : _ -> LayerSnapshot -> LayerSnapshot
  := ltac:(ls_setter transformedBounds).
Definition set_parentTransform : _ -> LayerSnapshot -> LayerSnapshot
  := ltac:(ls_setter parentTransform).
Definition set_cursorFrame : _ -> LayerSnapshot -> LayerSnapshot
  := ltac:(ls_setter cursorFrame).
Definition set_bufferNeedsFiltering : _ -> LayerSnapshot -> LayerSnapshot
  := ltac:(ls_setter bufferNeedsFiltering).
Definition set_roundedCorner : _ -> LayerSnapshot -> LayerSnapshot
  := ltac:(ls_setter roundedCorner).
Definition set_inputInfo : _ -> LayerSnapshot -> LayerSnapshot
  := ltac:(ls_setter inputInfo).
Definition set_dropInputMode : _ -> LayerSnapshot -> LayerSnapshot
  := ltac:(ls_setter dropInputMode).
Definition set_shadowRadius : _ -> LayerSnapshot -> LayerSnapshot
  := ltac:(ls_setter shadowRadius).
Definition set_shadowSettings : _ -> LayerSnapshot -> LayerSnapshot
  := ltac:(ls_setter shadowSettings).
Definition set_layerMetadata : _ -> LayerSnapshot -> LayerSnapshot
  := ltac:(ls_setter layerMetadata).
Definition set_relativeLayerMetadata : _ -> LayerSnapshot -> LayerSnapshot
  := ltac:(ls_setter relativeLayerMetadata).
Definition set_forceClientComposition : _ -> LayerSnapshot -> LayerSnapshot
  := ltac:(ls_setter forceClientComposition).
Definition set_isOpaque : _ -> LayerSnapshot -> LayerSnapshot
  := ltac:(ls_setter isOpaque).
Definition set_blendMode : _ -> LayerSnapshot -> LayerSnapshot
  := ltac:(ls_setter blendMode).
End setters.

(** Member functions of [LayerSnapshot] and [RequestedLayerState] that live
    in LayerSnapshot.cpp and RequestedLayerState.cpp. *)
Class SnapshotOps {FO : FloatOps} {GO : GeometryOps} {HO : HierarchyOps}
    {PO : PayloadOps} := {
  (* LayerSnapshot snapshot; *)
  LayerSnapshot_default : LayerSnapshot;
  (* LayerSnapshot(layer, path) *)
  LayerSnapshot_new : RequestedLayerState -> TraversalPath -> LayerSnapshot;
  hasBufferOrSidebandStream : LayerSnapshot -> bool;
  isHiddenByPolicy : LayerSnapshot -> bool;
  getIsVisible : LayerSnapshot -> bool;
  canReceiveInput : LayerSnapshot -> bool;
  isContentOpaque : LayerSnapshot -> bool;
  rq_isHiddenByPolicy : RequestedLayerState -> bool;
  rq_getCompositionType : RequestedLayerState -> CompositionType;
  rq_getBufferSize : RequestedLayerState -> Z -> Rect;
  rq_getCroppedBufferSize : RequestedLayerState -> Rect -> Rect;
  rq_getBufferCrop : RequestedLayerState -> Rect;
  rq_getColor_rgb : RequestedLayerState -> vec3;        (* getColor().rgb *)
  rq_getTransform : RequestedLayerState -> Z -> Transform;
  rq_getUnrotatedBufferSize : RequestedLayerState -> Z -> Size;
  rq_hasInputInfo : RequestedLayerState -> bool;
  reduce : Rect -> Region -> Rect          (* RequestedLayerState::reduce *)
}.

(* ------------------------------------------------------------------ *)
(** ** The helpers of the anonymous namespace *)

Section helpers.
Context {FO : FloatOps} {GO : GeometryOps} {HO : HierarchyOps}
        {PO : PayloadOps} {SO : SnapshotOps}.

(** [display::DisplayMap<ui::LayerStack, frontend::DisplayInfo>]: the entries
    in iteration order, keyed by layer stack id. *)
Definition DisplayMap : Type := list (Z * DisplayInfo).

(** [displays.get(layerStack)] *)
Definition displays_get (displays : DisplayMap) (layerStack : Z)
    : option DisplayInfo :=
  snd <$> List.find (fun kv => bool_decide (fst kv = layerStack)) displays.

(** The lambda computing [maxSize] in [getMaxDisplayBounds]. *)
Definition maxDisplaySize (displays : DisplayMap) : Size :=
  match displays with
  | [] => mkSize 5000 5000
  | _ =>
    fold_left
      (fun (size : Size) (pair : Z * DisplayInfo) =>
         let display := snd pair in
         mkSize (Z.max (getWidth size) (logicalWidth display))
                (Z.max (getHeight size) (logicalHeight display)))
      displays kEmptySize
  end.

Definition getMaxDisplayBounds (displays : DisplayMap) : FloatRect :=
  let maxSize := maxDisplaySize displays in
  let xMax := fmul (float_of_int (getWidth maxSize)) f10 in
  let yMax := fmul (float_of_int (getHeight maxSize)) f10 in
  mkFloatRect (fneg xMax) (fneg yMax) xMax yMax.

(** The body of the loop of [transformTouchableRegionSafely]: the four
    overflow-checked additions; [None] is the [continue]. *)
Definition offsetRect (tx ty : Z) (rect : Rect) : option Rect :=
  let '(ovl, l) := builtin_add_overflow (r_left rect) tx in
  let '(ovt, t) := builtin_add_overflow (r_top rect) ty in
  let '(ovr, r) := builtin_add_overflow (r_right rect) tx in
  let '(ovb, b) := builtin_add_overflow (r_bottom rect) ty in
  if ovl || ovt || ovr || ovb then None else Some (mkRect l t r b).

Definition transformTouchableRegionSafely (t : Transform) (r : Region)
    : Region :=
  let tx := round_offset (t_tx t) in
  let ty := round_offset (t_ty t) in
  let transformWithoutOffset := t_set t f0 f0 in
  let transformed := transformRegion transformWithoutOffset r in
  fold_left
    (fun (ret : Region) (rect : Rect) =>
       match offsetRect tx ty rect with
       | None => ret
       | Some newRect => region_orSelf ret newRect
       end)
    (region_rects transformed) region_empty.

Definition getInputTransform (snapshot : LayerSnapshot) : Transform :=
  if negb (hasBufferOrSidebandStream snapshot)
  then geomLayerTransform snapshot
  else parentTransform snapshot.

Definition getInputBounds (snapshot : LayerSnapshot) : Rect :=
  if negb (hasBufferOrSidebandStream snapshot)
  then croppedBufferSize snapshot
  else if t_isIdentityType (localTransform snapshot)
          || negb (rect_isValid (croppedBufferSize snapshot))
  then croppedBufferSize snapshot
  else transformR (localTransform snapshot) (croppedBufferSize snapshot).

(** [layerToDisplay] of [fillInputFrameInfo]. *)
Definition layerToDisplay (screenToDisplay : Transform)
    (snapshot : LayerSnapshot) : Transform :=
  let layerToScreen := getInputTransform snapshot in
  t_mul screenToDisplay layerToScreen.

(** [inputBoundsInLayer] of [fillInputFrameInfo]: the input bounds, or the
    empty rectangle when they are not valid. *)
Definition inputBoundsInLayer (snapshot : LayerSnapshot) : FloatRect :=
  let tmpBounds := getInputBounds snapshot in
  toFloatRect (if rect_isValid tmpBounds then tmpBounds else EMPTY_RECT).

(** [insetBoundsInLayer] of [fillInputFrameInfo]: the input bounds shrunk by
    the surface inset, which is clamped to half of each dimension. *)
Definition insetBoundsInLayer (info : WindowInfo) (snapshot : LayerSnapshot)
    : FloatRect :=
  let inputBoundsInLayer := inputBoundsInLayer snapshot in
  let surfaceInset := float_of_int (surfaceInset info) in
  let xSurfaceInset :=
    fmax f0 (fmin surfaceInset (fdiv (frect_getWidth inputBoundsInLayer) f2)) in
  let ySurfaceInset :=
    fmax f0 (fmin surfaceInset (fdiv (frect_getHeight inputBoundsInLayer) f2)) in
  mkFloatRect (fadd (fr_left inputBoundsInLayer) xSurfaceInset)
              (fadd (fr_top inputBoundsInLayer) ySurfaceInset)
              (fsub (fr_right inputBoundsInLayer) xSurfaceInset)
              (fsub (fr_bottom inputBoundsInLayer) ySurfaceInset).

Definition fillInputFrameInfo (info : WindowInfo)
    (screenToDisplay : Transform) (snapshot : LayerSnapshot) : WindowInfo :=
  let tmpBounds := getInputBounds snapshot in
  let info :=
    if rect_isValid tmpBounds then info
    else set_touchableRegion region_empty info in
  let insetBoundsInLayer := insetBoundsInLayer info snapshot in
  let croppedInsetBoundsInLayer :=
    frect_intersect (geomLayerBounds snapshot) insetBoundsInLayer in
  let layerToDisplay := layerToDisplay screenToDisplay snapshot in
  let roundedFrameInDisplay :=
    Rect_of_FloatRect (transformF layerToDisplay croppedInsetBoundsInLayer) in
  let info := set_frameLeft (r_left roundedFrameInDisplay) info in
  let info := set_frameTop (r_top roundedFrameInDisplay) info in
  let info := set_frameRight (r_right roundedFrameInDisplay) info in
  let info := set_frameBottom (r_bottom roundedFrameInDisplay) info in
  let inputToLayer :=
    t_set t_identity (fr_left insetBoundsInLayer) (fr_top insetBoundsInLayer) in
  let inputToDisplay := t_mul layerToDisplay inputToLayer in
  let info := set_wi_transform (t_inverse inputToDisplay) info in
  set_touchableRegion
    (transformTouchableRegionSafely inputToDisplay (touchableRegion info)) info.

(** [snapshot.inputInfo.inputConfig |= flag] *)
Definition add_inputConfig (flag : InputConfig) (snapshot : LayerSnapshot)
    : LayerSnapshot :=
  set_inputInfo
    (set_inputConfig (inputConfig (inputInfo snapshot) ∪ {[flag]})
       (inputInfo snapshot))
    snapshot.

Definition handleDropInputMode (snapshot parentSnapshot : LayerSnapshot)
    : LayerSnapshot :=
  if test (inputConfig (inputInfo snapshot)) NO_INPUT_CHANNEL then snapshot
  else
    let dropInputMode := dropInputMode snapshot in
    if bool_decide (dropInputMode = DropALL)
    then add_inputConfig DROP_INPUT snapshot
    else if bool_decide (dropInputMode ≠ DropOBSCURED) then snapshot
    else
      let snapshot :=
        if negb (feqb (color_a parentSnapshot) f1)
        then add_inputConfig DROP_INPUT snapshot
        else snapshot in
      let bufferSize := croppedBufferSize snapshot in
      if negb (rect_isValid bufferSize)
      then add_inputConfig DROP_INPUT_IF_OBSCURED snapshot
      else
        let bufferInScreenSpace :=
          transformR (geomLayerTransform snapshot) bufferSize in
        let croppedByParent :=
          bool_decide (bufferInScreenSpace
                       ≠ Rect_of_FloatRect (transformedBounds snapshot)) in
        if croppedByParent
        then add_inputConfig DROP_INPUT snapshot
        else add_inputConfig DROP_INPUT_IF_OBSCURED snapshot.

Definition getBufferNeedsFiltering (snapshot : LayerSnapshot)
    (unrotatedBufferSize : Size) : bool :=
  let layerWidth := int_of_float (frect_getWidth (geomLayerBounds snapshot)) in
  let layerHeight := int_of_float (frect_getHeight (geomLayerBounds snapshot)) in
  negb (layerWidth =? getWidth unrotatedBufferSize)
  || negb (layerHeight =? getHeight unrotatedBufferSize).

Definition getBlendMode (snapshot : LayerSnapshot)
    (requested : RequestedLayerState) : BlendMode :=
  if negb (feqb (alpha snapshot) f1) || negb (isContentOpaque snapshot)
  then if rq_premultipliedAlpha requested
       then BlendPREMULTIPLIED else BlendCOVERAGE
  else BlendNONE.

End helpers.

(* ------------------------------------------------------------------ *)
(** ** Inputs of an update *)

Section inputs.
Context {FO : FloatOps} {GO : GeometryOps} {HO : HierarchyOps}
        {PO : PayloadOps}.

(** A node of [LayerHierarchy] below the root: its layer and [mChildren]. *)
#[warnings="-register-all"]
Inductive LayerHierarchy :=
  | mkLayerHierarchy (getLayer : RequestedLayerState)
                     (mChildren : list (LayerHierarchy * Variant)).

(** Modelled from the spec: [LayerHierarchy::traverseInZOrder] is defined in
    LayerHierarchy.cpp. The spec has it as an external z-ordered traversal
    supplied by the tree owner that calls the visitor on occurrences and
    skips a subtree when the visitor declines. A traversal is the calls it
    makes: [ZVisit p t f] calls the visitor on path [p] and goes on as [t]
    when the visitor returns [true], as [f] when it returns [false]. *)
Inductive ZTraversal :=
  | ZDone
  | ZVisit (p : TraversalPath) (ifTrue ifFalse : ZTraversal).

(** What the builder asks of [LayerLifecycleManager]. *)
Record LayerLifecycleManager := mkLayerLifecycleManager {
  getGlobalChanges : gset Changes;
  getLayers : list RequestedLayerState;
  getDestroyedLayers : list RequestedLayerState
}.

(** [LayerSnapshotBuilder::Args]; [root] is given by the children of the
    root hierarchy and its z-order traversal. *)
Record Args := mkArgs {
  root_mChildren : list (LayerHierarchy * Variant);
  root_traverseInZOrder : ZTraversal;
  layerLifecycleManager : LayerLifecycleManager;
  forceUpdate : bool;
  includeMetadata : bool;
  displays : list (Z * DisplayInfo);
  displayChanges : bool;
  globalShadowSettings : ShadowSettings
}.
End inputs.

(* ------------------------------------------------------------------ *)
(** ** The per-node update *)

Section node.
Context {FO : FloatOps} {GO : GeometryOps} {HO : HierarchyOps}
        {PO : PayloadOps} {SO : SnapshotOps}.

(** [RoundedCornerState()] *)
Definition RoundedCornerState_default : RoundedCornerState :=
  mkRoundedCornerState frect_default vec2_zero.

Definition getRootSnapshot : LayerSnapshot :=
  let snapshot := LayerSnapshot_default in
  let snapshot := set_changes ∅ snapshot in
  let snapshot := set_isHiddenByPolicyFromParent false snapshot in
  let snapshot := set_isHiddenByPolicyFromRelativeParent false snapshot in
  let snapshot := set_parentTransform t_identity snapshot in
  let snapshot := set_geomLayerTransform t_identity snapshot in
  let snapshot := set_geomInverseLayerTransform t_identity snapshot in
  let snapshot := set_geomLayerBounds (getMaxDisplayBounds []) snapshot in
  let snapshot := set_roundedCorner RoundedCornerState_default snapshot in
  let snapshot := set_stretchEffect stretch_default snapshot in
  let snapshot :=
    set_outputFilter (mkLayerFilter DEFAULT_LAYER_STACK false) snapshot in
  let snapshot := set_isSecure false snapshot in
  let snapshot := set_color_a f1 snapshot in
  let snapshot := set_colorTransformIsIdentity true snapshot in
  let snapshot := set_shadowRadius f0 snapshot in
  let snapshot := set_layerMetadata metadata_empty snapshot in
  let snapshot := set_relativeLayerMetadata metadata_empty snapshot in
  let snapshot :=
    set_inputInfo (set_touchOcclusionMode BLOCK_UNTRUSTED (inputInfo snapshot))
      snapshot in
  let snapshot := set_dropInputMode DropNONE snapshot in
  let snapshot := set_isTrustedOverlay false snapshot in
  snapshot.

Definition updateRelativeState (snapshot parentSnapshot : LayerSnapshot)
    (parentIsRelative : bool) (args : Args) : LayerSnapshot :=
  let snapshot :=
    if parentIsRelative then
      let snapshot :=
        set_isHiddenByPolicyFromRelativeParent
          (isHiddenByPolicyFromParent parentSnapshot) snapshot in
      if includeMetadata args
      then set_relativeLayerMetadata (layerMetadata parentSnapshot) snapshot
      else snapshot
    else
      let snapshot :=
        set_isHiddenByPolicyFromRelativeParent
          (isHiddenByPolicyFromRelativeParent parentSnapshot) snapshot in
      if includeMetadata args
      then set_relativeLayerMetadata (relativeLayerMetadata parentSnapshot)
             snapshot
      else snapshot in
  set_isVisible (getIsVisible snapshot) snapshot.

Definition resetRelativeState (snapshot : LayerSnapshot) : LayerSnapshot :=
  let snapshot := set_isHiddenByPolicyFromRelativeParent false snapshot in
  set_relativeLayerMetadata metadata_empty snapshot.

Definition getDisplayRotationFlags (displays : list (Z * DisplayInfo))
    (layerStack : Z) : Z :=
  match displays_get displays layerStack with
  | Some display => if di_isPrimary display then rotationFlags display else 0
  | None => 0       (* sDefaultDisplayInfo = {.isPrimary = false} *)
  end.

Definition updateRoundedCorner (snapshot : LayerSnapshot)
    (requested : RequestedLayerState) (parentSnapshot : LayerSnapshot)
    : LayerSnapshot :=
  let snapshot := set_roundedCorner RoundedCornerState_default snapshot in
  let parentRoundedCorner :=
    if hasRoundedCorners (roundedCorner parentSnapshot) then
      let parentRoundedCorner := roundedCorner parentSnapshot in
      let t := t_inverse (localTransform snapshot) in
      mkRoundedCornerState
        (transformF t (cropRect parentRoundedCorner))
        (mkVec2 (fmul (v_x (radius parentRoundedCorner)) (t_getScaleX t))
                (fmul (v_y (radius parentRoundedCorner)) (t_getScaleY t)))
    else RoundedCornerState_default in
  let layerCropRect := toFloatRect (croppedBufferSize snapshot) in
  let radius := mkVec2 (rq_cornerRadius requested) (rq_cornerRadius requested) in
  let layerSettings := mkRoundedCornerState layerCropRect radius in
  let layerSettingsValid :=
    hasRoundedCorners layerSettings && negb (frect_isEmpty layerCropRect) in
  let parentRoundedCornerValid := hasRoundedCorners parentRoundedCorner in
  if layerSettingsValid && parentRoundedCornerValid then
    if fltb (fr_left layerCropRect) (fr_left (cropRect parentRoundedCorner))
       && fltb (fr_top layerCropRect) (fr_top (cropRect parentRoundedCorner))
       && fltb (fr_right (cropRect parentRoundedCorner)) (fr_right layerCropRect)
       && fltb (fr_bottom (cropRect parentRoundedCorner))
               (fr_bottom layerCropRect)
    then set_roundedCorner parentRoundedCorner snapshot
    else set_roundedCorner layerSettings snapshot
  else if layerSettingsValid then set_roundedCorner layerSettings snapshot
  else if parentRoundedCornerValid
  then set_roundedCorner parentRoundedCorner snapshot
  else snapshot.

Definition updateLayerBounds (snapshot : LayerSnapshot)
    (requested : RequestedLayerState) (parentSnapshot : LayerSnapshot)
    (displayRotationFlags : Z) : LayerSnapshot :=
  let snapshot :=
    set_croppedBufferSize
      (rq_getCroppedBufferSize requested (bufferSize snapshot)) snapshot in
  let snapshot := set_geomCrop (rq_crop requested) snapshot in
  let snapshot :=
    set_localTransform (rq_getTransform requested displayRotationFlags)
      snapshot in
  let snapshot :=
    set_localTransformInverse (t_inverse (localTransform snapshot)) snapshot in
  let snapshot :=
    set_geomLayerTransform
      (t_mul (geomLayerTransform parentSnapshot) (localTransform snapshot))
      snapshot in
  let snapshot :=
    set_invalidTransform
      (negb (isTransformValid (geomLayerTransform snapshot))) snapshot in
  let snapshot :=
    if invalidTransform snapshot
    then set_geomLayerTransform t_identity snapshot
    else snapshot in
  let snapshot :=
    set_geomInverseLayerTransform (t_inverse (geomLayerTransform snapshot))
      snapshot in
  let parentBounds := geomLayerBounds parentSnapshot in
  let parentBounds :=
    transformF (t_inverse (localTransform snapshot)) parentBounds in
  let snapshot :=
    set_geomLayerBounds
      (match rq_externalTexture requested with
       | Some _ => toFloatRect (bufferSize snapshot)
       | None => parentBounds
       end) snapshot in
  let snapshot :=
    if negb (rect_isEmpty (rq_crop requested))
    then set_geomLayerBounds
           (frect_intersect (geomLayerBounds snapshot)
              (toFloatRect (rq_crop requested))) snapshot
    else snapshot in
  let snapshot :=
    set_geomLayerBounds
      (frect_intersect (geomLayerBounds snapshot) parentBounds) snapshot in
  let snapshot :=
    set_transformedBounds
      (transformF (geomLayerTransform snapshot) (geomLayerBounds snapshot))
      snapshot in
  let snapshot :=
    set_parentTransform (geomLayerTransform parentSnapshot) snapshot in
  let bounds :=
    reduce (croppedBufferSize snapshot) (rq_transparentRegion requested) in
  let snapshot :=
    set_cursorFrame (transformR (geomLayerTransform snapshot) bounds)
      snapshot in
  set_bufferNeedsFiltering
    (bool_decide (is_Some (externalTexture snapshot))
     && getBufferNeedsFiltering snapshot
          (rq_getUnrotatedBufferSize requested displayRotationFlags))
    snapshot.

(** [snapshot.shadowSettings.f = v] for the members of [ShadowSettings]. *)
Definition on_shadowSettings (f : ShadowSettings -> ShadowSettings)
    (snapshot : LayerSnapshot) : LayerSnapshot :=
  set_shadowSettings (f (shadowSettings snapshot)) snapshot.

Definition ss_set_length (v : float) (ss : ShadowSettings) : ShadowSettings :=
  mkShadowSettings (boundaries ss) (ambientColor ss) (spotColor ss) (light ss)
    v (casterIsTranslucent ss).

Definition ss_set_boundaries (v : FloatRect) (ss : ShadowSettings)
    : ShadowSettings :=
  mkShadowSettings v (ambientColor ss) (spotColor ss) (light ss)
    (ss_length ss) (casterIsTranslucent ss).

Definition ss_set_casterIsTranslucent (v : bool) (ss : ShadowSettings)
    : ShadowSettings :=
  mkShadowSettings (boundaries ss) (ambientColor ss) (spotColor ss) (light ss)
    (ss_length ss) v.

Definition ss_scale_colors (a : float) (ss : ShadowSettings) : ShadowSettings :=
  mkShadowSettings (boundaries ss) (vec4_scale (ambientColor ss) a)
    (vec4_scale (spotColor ss) a) (light ss) (ss_length ss)
    (casterIsTranslucent ss).

Definition updateShadows (snapshot : LayerSnapshot)
    (requested : RequestedLayerState) (globalShadowSettings : ShadowSettings)
    : LayerSnapshot :=
  let snapshot := set_shadowRadius (rq_shadowRadius requested) snapshot in
  let snapshot :=
    on_shadowSettings (ss_set_length (rq_shadowRadius requested)) snapshot in
  if fltb f0 (shadowRadius snapshot) then
    let snapshot := set_shadowSettings globalShadowSettings snapshot in
    let snapshot :=
      on_shadowSettings (ss_set_boundaries (geomLayerBounds snapshot))
        snapshot in
    let snapshot :=
      on_shadowSettings
        (ss_set_casterIsTranslucent
           (negb (isContentOpaque snapshot) || fltb (alpha snapshot) f1))
        snapshot in
    on_shadowSettings (ss_scale_colors (alpha snapshot)) snapshot
  else snapshot.

(** [snapshot.inputInfo.f = v] *)
Definition on_inputInfo (f : WindowInfo -> WindowInfo)
    (snapshot : LayerSnapshot) : LayerSnapshot :=
  set_inputInfo (f (inputInfo snapshot)) snapshot.

(** The most restrictive of the requested and the inherited drop mode, as
    [updateInput] computes it. *)
Definition inheritedDropInputMode (requested : RequestedLayerState)
    (parentSnapshot : LayerSnapshot) : DropInputMode :=
  if bool_decide (rq_dropInputMode requested = DropALL)
     || bool_decide (dropInputMode parentSnapshot = DropALL)
  then DropALL
  else if bool_decide (rq_dropInputMode requested = DropOBSCURED)
          || bool_decide (dropInputMode parentSnapshot = DropOBSCURED)
  then DropOBSCURED
  else DropNONE.

(** The statements of [updateInput] that settle the drop mode: the
    inherited mode is stored, then [handleDropInputMode] runs. *)
Definition resolveDropInput (snapshot : LayerSnapshot)
    (requested : RequestedLayerState) (parentSnapshot : LayerSnapshot)
    : LayerSnapshot :=
  let snapshot :=
    set_dropInputMode (inheritedDropInputMode requested parentSnapshot)
      snapshot in
  handleDropInputMode snapshot parentSnapshot.

(** The touch-crop block of [updateInput]; [cropLayerSnapshot] is the result
    of [getSnapshot(requested.touchCropId)]. *)
Definition applyTouchCrop (cropLayerSnapshot : option LayerSnapshot)
    (displayInfo : DisplayInfo) (snapshot : LayerSnapshot) : LayerSnapshot :=
  if replaceTouchableRegionWithCrop (inputInfo snapshot) then
    let bounds :=
      Rect_of_FloatRect
        (match cropLayerSnapshot with
         | Some crop => transformedBounds crop
         | None => transformedBounds snapshot
         end) in
    on_inputInfo
      (set_touchableRegion
         (region_of_rect (transformR (di_transform displayInfo) bounds)))
      snapshot
  else
    match cropLayerSnapshot with
    | Some crop =>
      on_inputInfo
        (fun info =>
           set_touchableRegion
             (region_intersect (touchableRegion info)
                (transformR (di_transform displayInfo)
                   (Rect_of_FloatRect (transformedBounds crop)))) info)
        snapshot
    | None => snapshot
    end.

(** The clone block of [updateInput]; [getSnapshot] resolves a layer id to
    the snapshot it names, if any. *)
Definition applyCloneCrop (getSnapshot : Z -> option LayerSnapshot)
    (displayInfo : DisplayInfo) (path : TraversalPath)
    (snapshot : LayerSnapshot) : LayerSnapshot :=
  if isClone path then
    let snapshot := add_inputConfig CLONE snapshot in
    match getSnapshot (mirrorRootIds_back path) with
    | Some clonedRootSnapshot =>
      let rect :=
        transformR (di_transform displayInfo)
          (Rect_of_FloatRect (transformedBounds clonedRootSnapshot)) in
      on_inputInfo
        (fun info =>
           set_touchableRegion (region_intersect (touchableRegion info) rect)
             info)
        snapshot
    | None => snapshot
    end
  else snapshot.

(** The statements of [updateInput], one definition each.

    [snapshot.inputInfo.displayId = static_cast<int32_t>(layerStack.id)] *)

Definition inDisplayId (s : LayerSnapshot) : LayerSnapshot :=
  on_inputInfo (set_displayId (wrap32 (layerStack (outputFilter s)))) s.

(** [fillInputFrameInfo(snapshot.inputInfo, displayInfo.transform, snapshot)] *)
Definition inFrame (d : DisplayInfo) (s : LayerSnapshot) : LayerSnapshot :=
  set_inputInfo (fillInputFrameInfo (inputInfo s) (di_transform d) s) s.

(** [if (noValidDisplay) inputConfig |= NOT_TOUCHABLE] *)
Definition inNotTouchable (noValidDisplay : bool) (s : LayerSnapshot)
    : LayerSnapshot :=
  if noValidDisplay then add_inputConfig NOT_TOUCHABLE s else s.

(** [setInputConfig(NOT_VISIBLE, !visible)], with [visible] as computed from
    [canReceiveInput] or [isVisible]. *)
Definition inVisible (rq : RequestedLayerState) (s : LayerSnapshot)
    : LayerSnapshot :=
  on_inputInfo
    (fun info =>
       set_inputConfig
         (setInputConfig (inputConfig info) NOT_VISIBLE
            (negb (if rq_hasInputInfo rq then canReceiveInput s
                   else isVisible s)))
         info) s.

(** [snapshot.inputInfo.alpha = snapshot.color.a] *)
Definition inAlpha (s : LayerSnapshot) : LayerSnapshot :=
  on_inputInfo (set_wi_alpha (color_a s)) s.

(** [touchOcclusionMode = parentSnapshot.inputInfo.touchOcclusionMode] *)
Definition inOcclusion (parent s : LayerSnapshot) : LayerSnapshot :=
  on_inputInfo (set_touchOcclusionMode (touchOcclusionMode (inputInfo parent)))
    s.

(** [if (!displayInfo.isSecure && snapshot.isSecure) inputConfig |= DROP_INPUT] *)
Definition inSecure (d : DisplayInfo) (s : LayerSnapshot) : LayerSnapshot :=
  if negb (di_isSecure d) && isSecure s then add_inputConfig DROP_INPUT s
  else s.

(** [if (snapshot.isTrustedOverlay) inputConfig |= TRUSTED_OVERLAY] *)
Definition inTrusted (s : LayerSnapshot) : LayerSnapshot :=
  if isTrustedOverlay s then add_inputConfig TRUSTED_OVERLAY s else s.

(** [getSnapshot cur id] is the builder's [getSnapshot(id)] followed by the
    read through the pointer, while the snapshot being updated holds [cur]. *)
Definition updateInput
    (getSnapshot : LayerSnapshot -> Z -> option LayerSnapshot)
    (snapshot : LayerSnapshot) (requested : RequestedLayerState)
    (parentSnapshot : LayerSnapshot) (displayInfo : DisplayInfo)
    (noValidDisplay : bool) (path : TraversalPath) : LayerSnapshot :=
  let snapshot := inDisplayId snapshot in
  if negb (rq_hasInputInfo requested) then
    on_inputInfo (set_inputConfig {[NO_INPUT_CHANNEL]}) snapshot
  else
    let snapshot := inFrame displayInfo snapshot in
    let snapshot := inNotTouchable noValidDisplay snapshot in
    let snapshot := inVisible requested snapshot in
    let snapshot := inAlpha snapshot in
    let snapshot := inOcclusion parentSnapshot snapshot in
    let snapshot := resolveDropInput snapshot requested parentSnapshot in
    let snapshot := inSecure displayInfo snapshot in
    let cropLayerSnapshot := getSnapshot snapshot (rq_touchCropId requested) in
    let snapshot := applyTouchCrop cropLayerSnapshot displayInfo snapshot in
    let snapshot := inTrusted snapshot in
    applyCloneCrop (getSnapshot snapshot) displayInfo path snapshot.

(** [sDefaultInfo = {.isSecure = false}] of [updateSnapshot]: the other
    members keep their default initialisers, of which only the identity
    transform is read. *)
Definition sDefaultInfo : DisplayInfo :=
  mkDisplayInfo 0 0 false false 0 t_identity.

(** The block of [updateSnapshot] guarded by [AffectsChildren]. *)
Definition updateInherited (snapshot : LayerSnapshot)
    (requested : RequestedLayerState) (parentSnapshot : LayerSnapshot)
    : LayerSnapshot :=
  let snapshot :=
    set_color_a (fmul (color_a parentSnapshot) (rq_color_a requested))
      snapshot in
  let snapshot := set_alpha (color_a snapshot) snapshot in
  let snapshot :=
    set_isSecure
      (isSecure parentSnapshot || has_bits (rq_flags requested) eLayerSecure)
      snapshot in
  let snapshot :=
    set_isTrustedOverlay
      (isTrustedOverlay parentSnapshot || rq_isTrustedOverlay requested)
      snapshot in
  let snapshot :=
    set_outputFilter
      (mkLayerFilter
         (if bool_decide (rq_parentId requested ≠ UNASSIGNED_LAYER_ID)
          then layerStack (outputFilter parentSnapshot)
          else rq_layerStack requested)
         (toInternalDisplay (outputFilter snapshot)))
      snapshot in
  let snapshot :=
    set_outputFilter
      (mkLayerFilter
         (layerStack (outputFilter snapshot))
         (toInternalDisplay (outputFilter parentSnapshot)
          || has_bits (rq_flags requested) eLayerSkipScreenshot))
      snapshot in
  let snapshot :=
    set_stretchEffect
      (if stretch_hasEffect (rq_stretchEffect requested)
       then rq_stretchEffect requested
       else stretchEffect parentSnapshot)
      snapshot in
  if negb (colorTransformIsIdentity parentSnapshot) then
    let snapshot :=
      set_colorTransform
        (mat4_mul (colorTransform parentSnapshot) (rq_colorTransform requested))
        snapshot in
    set_colorTransformIsIdentity false snapshot
  else
    let snapshot :=
      set_colorTransform (rq_colorTransform requested) snapshot in
    set_colorTransformIsIdentity (negb (rq_hasColorTransform requested))
      snapshot.

(** The block guarded by any change of the layer itself. *)
Definition updateComposition (snapshot : LayerSnapshot)
    (requested : RequestedLayerState) : LayerSnapshot :=
  let snapshot :=
    set_compositionType (rq_getCompositionType requested) snapshot in
  let snapshot := set_dimmingEnabled (rq_dimmingEnabled requested) snapshot in
  set_layerOpaqueFlagSet
    (Z.land (rq_flags requested) eLayerOpaque =? eLayerOpaque) snapshot.

(** The block guarded by [BUFFER_CHANGES]. [requested.bufferData] is
    dereferenced without a null check when the dataspace and the API match:
    that read of a null pointer is the [None] here. *)
Definition updateBuffer (snapshot : LayerSnapshot)
    (requested : RequestedLayerState) (displayRotationFlags : Z)
    : option LayerSnapshot :=
  let snapshot :=
    set_acquireFence
      (match rq_bufferData requested with
       | Some bufferData => bd_acquireFence bufferData
       | None => NO_FENCE
       end) snapshot in
  let snapshot :=
    set_buffer (tex_getBuffer <$> rq_externalTexture requested) snapshot in
  let snapshot :=
    set_bufferSize (rq_getBufferSize requested displayRotationFlags)
      snapshot in
  let snapshot := set_geomBufferSize (bufferSize snapshot) snapshot in
  let snapshot :=
    set_croppedBufferSize
      (rq_getCroppedBufferSize requested (bufferSize snapshot)) snapshot in
  let snapshot := set_dataspace (rq_dataspace requested) snapshot in
  let snapshot :=
    set_externalTexture (rq_externalTexture requested) snapshot in
  let snapshot :=
    set_frameNumber
      (match rq_bufferData requested with
       | Some bufferData => bd_frameNumber bufferData
       | None => 0
       end) snapshot in
  let snapshot :=
    set_geomBufferTransform (rq_bufferTransform requested) snapshot in
  let snapshot :=
    set_geomBufferUsesDisplayInverseTransform
      (rq_transformToDisplayInverse requested) snapshot in
  let snapshot := set_geomContentCrop (rq_getBufferCrop requested) snapshot in
  let snapshot :=
    set_geomUsesSourceCrop (hasBufferOrSidebandStream snapshot) snapshot in
  let snapshot :=
    set_hasProtectedContent
      (match rq_externalTexture requested with
       | Some texture => tex_usageProtected texture
       | None => false
       end) snapshot in
  hdr ←
    (if is_BT2020_ITU_PQ (rq_dataspace requested)
        && is_NATIVE_WINDOW_API_MEDIA (rq_api requested)
     then bd_isRGBA_1010102 <$> rq_bufferData requested
     else Some false);
  let snapshot := set_isHdrY410 hdr snapshot in
  let snapshot := set_sidebandStream (rq_sidebandStream requested) snapshot in
  let snapshot :=
    set_surfaceDamage (rq_surfaceDamageRegion requested) snapshot in
  Some (set_transparentRegionHint (rq_transparentRegion requested) snapshot).

(** The block guarded by [Content]. *)
Definition updateContent (snapshot : LayerSnapshot)
    (requested : RequestedLayerState) : LayerSnapshot :=
  let snapshot := set_color_rgb (rq_getColor_rgb requested) snapshot in
  let snapshot :=
    set_isColorspaceAgnostic (rq_colorSpaceAgnostic requested) snapshot in
  let snapshot :=
    set_backgroundBlurRadius (wrap32 (rq_backgroundBlurRadius requested))
      snapshot in
  let snapshot := set_blurRegions (rq_blurRegions requested) snapshot in
  set_hdrMetadata (rq_hdrMetadata requested) snapshot.

(** The tail of [updateSnapshot], under "computed snapshot properties". *)
Definition updateDerived (snapshot : LayerSnapshot) (args : Args)
    (requested : RequestedLayerState) (parentSnapshot : LayerSnapshot)
    : LayerSnapshot :=
  let snapshot := updateShadows snapshot requested (globalShadowSettings args) in
  let snapshot :=
    if includeMetadata args then
      let snapshot :=
        set_layerMetadata (layerMetadata parentSnapshot) snapshot in
      set_layerMetadata
        (metadata_merge (layerMetadata snapshot) (rq_metadata requested))
        snapshot
    else snapshot in
  let snapshot :=
    set_forceClientComposition
      (isHdrY410 snapshot
       || fltb f0 (ss_length (shadowSettings snapshot))
       || blur_nonempty (rq_blurRegions requested)
       || stretch_hasEffect (stretchEffect snapshot))
      snapshot in
  let snapshot := set_isVisible (getIsVisible snapshot) snapshot in
  let snapshot :=
    set_isOpaque
      (isContentOpaque snapshot
       && negb (hasRoundedCorners (roundedCorner snapshot))
       && feqb (color_a snapshot) f1)
      snapshot in
  set_blendMode (getBlendMode snapshot requested) snapshot.

Definition updateSnapshot
    (getSnapshot : LayerSnapshot -> Z -> option LayerSnapshot)
    (snapshot : LayerSnapshot) (args : Args) (requested : RequestedLayerState)
    (parentSnapshot : LayerSnapshot) (path : TraversalPath)
    : option LayerSnapshot :=
  let parentChanges :=
    changes parentSnapshot
    ∩ {[Hierarchy; Geometry; Visibility; Metadata; AffectsChildren]} in
  let snapshot :=
    set_changes (parentChanges ∪ rq_changes requested) snapshot in
  let snapshot :=
    set_isHiddenByPolicyFromParent
      (isHiddenByPolicyFromParent parentSnapshot
       || rq_isHiddenByPolicy requested) snapshot in
  let snapshot :=
    set_contentDirty (has_bits (rq_what requested) CONTENT_DIRTY) snapshot in
  if isHiddenByPolicyFromParent snapshot then
    Some (set_isVisible false snapshot)
  else
    let displayRotationFlags :=
      getDisplayRotationFlags (displays args)
        (layerStack (outputFilter snapshot)) in
    let forceUpdate :=
      forceUpdate args || any (changes snapshot) {[Visibility; Created]} in
    let snapshot :=
      if forceUpdate || any (changes snapshot) {[AffectsChildren]}
      then updateInherited snapshot requested parentSnapshot
      else snapshot in
    let snapshot :=
      if forceUpdate || negb (none_set (rq_changes requested))
      then updateComposition snapshot requested
      else snapshot in
    snapshot ←
      (if forceUpdate || has_bits (rq_what requested) BUFFER_CHANGES
       then updateBuffer snapshot requested displayRotationFlags
       else Some snapshot);
    let snapshot :=
      if forceUpdate || any (changes snapshot) {[Content]}
      then updateContent snapshot requested
      else snapshot in
    let snapshot :=
      if forceUpdate || any (changes snapshot) {[Hierarchy; Geometry]} then
        let snapshot :=
          updateLayerBounds snapshot requested parentSnapshot
            displayRotationFlags in
        updateRoundedCorner snapshot requested parentSnapshot
      else snapshot in
    let snapshot :=
      if forceUpdate || any (changes snapshot) {[Hierarchy; Geometry; Input]}
      then
        let displayInfo :=
          displays_get (displays args) (layerStack (outputFilter snapshot)) in
        let noValidDisplay := bool_decide (displayInfo = None) in
        updateInput getSnapshot snapshot requested parentSnapshot
          (default sDefaultInfo displayInfo) noValidDisplay path
      else snapshot in
    Some (updateDerived snapshot args requested parentSnapshot).

End node.

(* ------------------------------------------------------------------ *)
(** ** The builder *)

(** Addresses of the snapshots owned by [mSnapshots]. *)
Definition ptr := nat.

Section builder.
Context {FO : FloatOps} {GO : GeometryOps} {HO : HierarchyOps}
        {PO : PayloadOps} {SO : SnapshotOps}.

(** The members of [LayerSnapshotBuilder]. [heap] holds the objects behind
    the [unique_ptr]s of [mSnapshots]; [mIdToSnapshot] points into it. *)
Record LayerSnapshotBuilder := mkLayerSnapshotBuilder {
  mRootSnapshot : LayerSnapshot;
  mSnapshots : list ptr;
  mIdToSnapshot : gmap TraversalPath ptr;
  heap : gmap ptr LayerSnapshot
}.

Definition set_mRootSnapshot (v : LayerSnapshot) (b : LayerSnapshotBuilder)
    : LayerSnapshotBuilder :=
  mkLayerSnapshotBuilder v (mSnapshots b) (mIdToSnapshot b) (heap b).

Definition set_mSnapshots (v : list ptr) (b : LayerSnapshotBuilder)
    : LayerSnapshotBuilder :=
  mkLayerSnapshotBuilder (mRootSnapshot b) v (mIdToSnapshot b) (heap b).

(** [*p = v] *)
Definition store (p : ptr) (v : LayerSnapshot) (b : LayerSnapshotBuilder)
    : LayerSnapshotBuilder :=
  mkLayerSnapshotBuilder (mRootSnapshot b) (mSnapshots b) (mIdToSnapshot b)
    (<[p := v]> (heap b)).

(** A [const LayerSnapshot&] handed down the walk: the root snapshot or an
    object of the heap. *)
Inductive SnapshotRef := RootRef | HeapRef (p : ptr).

Definition deref (b : LayerSnapshotBuilder) (r : SnapshotRef)
    : option LayerSnapshot :=
  match r with
  | RootRef => Some (mRootSnapshot b)
  | HeapRef p => heap b !! p
  end.

(** [LayerSnapshotBuilder()] *)
Definition LayerSnapshotBuilder_new : LayerSnapshotBuilder :=
  mkLayerSnapshotBuilder getRootSnapshot [] ∅ ∅.

(** [getSnapshot(const TraversalPath&)] *)
Definition getSnapshot (b : LayerSnapshotBuilder) (id : TraversalPath)
    : option ptr :=
  mIdToSnapshot b !! id.

(** [getSnapshot(uint32_t layerId)] *)
Definition getSnapshotById (b : LayerSnapshotBuilder) (layerId : Z)
    : option ptr :=
  if bool_decide (layerId = UNASSIGNED_LAYER_ID) then None
  else getSnapshot b (path_of_id layerId).

(** [getSnapshot(layerId)] and the read through the result while the object
    at [self] is being updated and currently holds [cur]. The pointers of
    [mIdToSnapshot] are entered and erased together with the objects they
    point to, so the read finds the object. *)
Definition resolve (b : LayerSnapshotBuilder) (self : ptr)
    (cur : LayerSnapshot) (layerId : Z) : option LayerSnapshot :=
  p ← getSnapshotById b layerId;
  if bool_decide (p = self) then Some cur else heap b !! p.

Definition getOrCreateSnapshot (b : LayerSnapshotBuilder)
    (id : TraversalPath) (layer : RequestedLayerState)
    : ptr * LayerSnapshotBuilder :=
  match getSnapshot b id with
  | Some snapshot => (snapshot, b)
  | None =>
    let p : ptr := fresh (dom (heap b)) in
    let snapshot :=
      set_globalZ (length (mSnapshots b)) (LayerSnapshot_new layer id) in
    (p, mkLayerSnapshotBuilder (mRootSnapshot b) (mSnapshots b ++ [p])
          (<[id := p]> (mIdToSnapshot b)) (<[p := snapshot]> (heap b)))
  end.

(** [snapshot->changes.clear(); snapshot->contentDirty = false;] *)
Definition clearDirty (snapshot : LayerSnapshot) : LayerSnapshot :=
  set_contentDirty false (set_changes ∅ snapshot).

(** A range-based [for] over [mSnapshots] whose body works on the builder. *)
Definition forSnapshots
    (body : LayerSnapshotBuilder -> ptr -> option LayerSnapshotBuilder)
    (b : LayerSnapshotBuilder) : option LayerSnapshotBuilder :=
  foldl (fun ob p => b' ← ob; body b' p) (Some b) (mSnapshots b).

(** [layersWithChanges] of [tryFastUpdate]. *)
Definition layersWithChanges (args : Args) : gmap Z RequestedLayerState :=
  foldl
    (fun m layer =>
       if test (rq_changes layer) Content then <[rq_id layer := layer]> m
       else m)
    ∅ (getLayers (layerLifecycleManager args)).

Definition tryFastUpdate (args : Args) (b : LayerSnapshotBuilder)
    : option (bool * LayerSnapshotBuilder) :=
  if forceUpdate args then Some (false, b)
  else if none_set (getGlobalChanges (layerLifecycleManager args)) then
    b' ← forSnapshots
           (fun b p => snapshot ← heap b !! p;
                       Some (store p (clearDirty snapshot) b)) b;
    Some (true, b')
  else if bool_decide
            (getGlobalChanges (layerLifecycleManager args) ≠ {[Content]})
  then Some (false, b)
  else
    let layersWithChanges := layersWithChanges args in
    b' ← forSnapshots
           (fun b p =>
              snapshot ← heap b !! p;
              let snapshot := clearDirty snapshot in
              match layersWithChanges !! path_id (path snapshot) with
              | Some layer =>
                let root := ROOT in
                snapshot' ← updateSnapshot (resolve b p) snapshot args layer
                               (mRootSnapshot b) root;
                Some (store p snapshot' b)
              | None => Some (store p snapshot b)
              end) b;
    Some (true, b').

(** The parent is handed down as a reference and read when the child is
    updated; the child's own snapshot is a different object, its path being
    the parent's path extended by one edge. *)
Fixpoint updateSnapshotsInHierarchy (args : Args) (hierarchy : LayerHierarchy)
    (traversalPath : TraversalPath) (parentSnapshot : SnapshotRef)
    (b : LayerSnapshotBuilder) {struct hierarchy}
    : option LayerSnapshotBuilder :=
  match hierarchy with
  | mkLayerHierarchy layer mChildren =>
    let '(sp, b) := getOrCreateSnapshot b traversalPath layer in
    parent ← deref b parentSnapshot;
    snapshot ← heap b !! sp;
    snapshot ←
      (if isRelative traversalPath then
         let parentIsRelative :=
           bool_decide (path_variant traversalPath = Relative) in
         Some (updateRelativeState snapshot parent parentIsRelative args)
       else
         let snapshot :=
           if isAttached traversalPath then resetRelativeState snapshot
           else snapshot in
         updateSnapshot (resolve b sp) snapshot args layer parent
           traversalPath);
    let b := store sp snapshot b in
    if isHiddenByPolicy snapshot
       && negb (any (changes snapshot) {[Visibility; Hierarchy]})
    then Some b
    else
      (fix children (cs : list (LayerHierarchy * Variant))
           (b : LayerSnapshotBuilder) : option LayerSnapshotBuilder :=
         match cs with
         | [] => Some b
         | (childHierarchy, variant) :: cs =>
           let 'mkLayerHierarchy childLayer _ := childHierarchy in
           b ← updateSnapshotsInHierarchy args childHierarchy
                 (addToTraversalPath traversalPath (rq_id childLayer) variant)
                 (HeapRef sp) b;
           children cs b
         end) mChildren b
  end.

(** The visitor that [sortSnapshotsByZ] hands to [traverseInZOrder]; the
    captured counter [globalZ] travels with the builder. *)
Definition sortVisitor (traversalPath : TraversalPath)
    (st : nat * LayerSnapshotBuilder)
    : option (bool * (nat * LayerSnapshotBuilder)) :=
  let '(globalZ_, b) := st in
  match getSnapshot b traversalPath with
  | None => Some (false, st)
  | Some p =>
    snapshot ← heap b !! p;
    if isHiddenByPolicy snapshot && negb (test (changes snapshot) Visibility)
    then Some (false, st)
    else if isVisible snapshot then
      let oldZ := globalZ snapshot in
      let newZ := globalZ_ in
      let globalZ_ := S globalZ_ in
      let b := store p (set_globalZ newZ snapshot) b in
      if bool_decide (oldZ = newZ) then Some (true, (globalZ_, b))
      else
        q ← mSnapshots b !! newZ;
        other ← heap b !! q;
        let b := store q (set_globalZ oldZ other) b in
        atOld ← mSnapshots b !! oldZ;
        atNew ← mSnapshots b !! newZ;
        let b :=
          set_mSnapshots (<[newZ := atOld]> (<[oldZ := atNew]> (mSnapshots b)))
            b in
        Some (true, (globalZ_, b))
    else Some (true, st)
  end.

(** Running a traversal against the visitor. *)
Fixpoint traverseInZOrder (t : ZTraversal) (st : nat * LayerSnapshotBuilder)
    : option (nat * LayerSnapshotBuilder) :=
  match t with
  | ZDone => Some st
  | ZVisit p ifTrue ifFalse =>
    '(descend, st) ← sortVisitor p st;
    if descend : bool then traverseInZOrder ifTrue st
    else traverseInZOrder ifFalse st
  end.

(** The closing [while (globalZ < mSnapshots.size())] of [sortSnapshotsByZ]:
    one step for each of the positions [globalZ ..< size]. *)
Definition markInvisibleFrom (globalZ_ : nat) (b : LayerSnapshotBuilder)
    : option LayerSnapshotBuilder :=
  foldl
    (fun ob i =>
       b ← ob;
       p ← mSnapshots b !! i;
       snapshot ← heap b !! p;
       let b := store p (set_globalZ i snapshot) b in
       snapshot ← heap b !! p;
       Some (store p (set_isVisible false snapshot) b))
    (Some b)
    (seq globalZ_ (length (mSnapshots b) - globalZ_)).

Definition sortSnapshotsByZ (args : Args) (b : LayerSnapshotBuilder)
    : option LayerSnapshotBuilder :=
  if negb (forceUpdate args)
     && negb (any (getGlobalChanges (layerLifecycleManager args))
                {[Hierarchy; Visibility]})
  then Some b
  else
    '(globalZ_, b) ← traverseInZOrder (root_traverseInZOrder args) (0%nat, b);
    markInvisibleFrom globalZ_ b.

(** The eviction loop of [updateSnapshots]: [it] is the position of the
    iterator. Each turn either advances [it] or shortens [mSnapshots], so
    [length (mSnapshots b) - it] turns reach the end; [turns] counts them. *)
Fixpoint destroySnapshots (destroyedLayerIds : gset Z) (turns : nat)
    (it : nat) (b : LayerSnapshotBuilder) : option LayerSnapshotBuilder :=
  match turns with
  | O => Some b
  | S turns =>
    if bool_decide (it < length (mSnapshots b))%nat then
      p ← mSnapshots b !! it;
      snapshot ← heap b !! p;
      let traversalPath := path snapshot in
      if bool_decide (path_id traversalPath ∉ destroyedLayerIds)
      then destroySnapshots destroyedLayerIds turns (S it) b
      else
        lastp ← last (mSnapshots b);
        let swapped := <[it := lastp]> (mSnapshots b) in
        let b :=
          mkLayerSnapshotBuilder (mRootSnapshot b)
            (take (length swapped - 1) swapped)
            (delete traversalPath (mIdToSnapshot b))
            (delete p (heap b)) in
        destroySnapshots destroyedLayerIds turns it b
    else Some b
  end.

Definition updateSnapshots (args : Args) (b : LayerSnapshotBuilder)
    : option LayerSnapshotBuilder :=
  let b :=
    if forceUpdate args || displayChanges args
    then set_mRootSnapshot
           (set_geomLayerBounds (getMaxDisplayBounds (displays args))
              (mRootSnapshot b)) b
    else b in
  let b :=
    if displayChanges args
    then set_mRootSnapshot
           (set_changes {[AffectsChildren; Geometry]} (mRootSnapshot b)) b
    else b in
  let root := ROOT in
  b ← foldl
        (fun ob child =>
           b ← ob;
           let '(childHierarchy, variant) := child in
           let 'mkLayerHierarchy childLayer _ := childHierarchy in
           updateSnapshotsInHierarchy args childHierarchy
             (addToTraversalPath root (rq_id childLayer) variant) RootRef b)
        (Some b) (root_mChildren args);
  b ← sortSnapshotsByZ args b;
  let b := set_mRootSnapshot (set_changes ∅ (mRootSnapshot b)) b in
  match getDestroyedLayers (layerLifecycleManager args) with
  | [] => Some b
  | destroyedLayers =>
    let destroyedLayerIds : gset Z :=
      list_to_set (rq_id <$> destroyedLayers) in
    destroySnapshots destroyedLayerIds (length (mSnapshots b)) 0 b
  end.

Definition update (args : Args) (b : LayerSnapshotBuilder)
    : option LayerSnapshotBuilder :=
  '(done, b) ← tryFastUpdate args b;
  if done : bool then Some b else updateSnapshots args b.

(** [LayerSnapshotBuilder(Args args)] *)
Definition LayerSnapshotBuilder_of_args (args : Args)
    : option LayerSnapshotBuilder :=
  let args :=
    mkArgs (root_mChildren args) (root_traverseInZOrder args)
      (layerLifecycleManager args) true (includeMetadata args) (displays args)
      (displayChanges args) (globalShadowSettings args) in
  updateSnapshots args LayerSnapshotBuilder_new.

(** [getSnapshots()] read through the pointers. *)
Definition getSnapshots (b : LayerSnapshotBuilder)
    : list (option LayerSnapshot) :=
  (fun p => heap b !! p) <$> mSnapshots b.

End builder.

(* ------------------------------------------------------------------ *)
(** * Vocabulary of the properties

    The notions the statements below are written with: the wording of the
    specification turned into definitions, and names for intermediate
    results of the code. *)

Section vocabulary.
Context {FO : FloatOps} {GO : GeometryOps} {HO : HierarchyOps}
        {PO : PayloadOps} {SO : SnapshotOps}.

(** An exact coordinate sum that does not fit [int32_t]. *)
Definition overflows (a b : Z) : bool := negb (in_int32 (a + b)).

(** Some coordinate of [rect] overflows when offset by [(tx, ty)]. *)
Definition rect_overflows (tx ty : Z) (rect : Rect) : bool :=
  overflows (r_left rect) tx || overflows (r_top rect) ty
  || overflows (r_right rect) tx || overflows (r_bottom rect) ty.

(** [rect] moved by [(tx, ty)], in exact arithmetic. *)
Definition translated (tx ty : Z) (rect : Rect) : Rect :=
  mkRect (r_left rect + tx) (r_top rect + ty)
         (r_right rect + tx) (r_bottom rect + ty).

(** The safe transform as the specification words it: transform without the
    translation, take the rounded translation, drop the rectangles a
    coordinate of which overflows when it is added, move the others by it
    and collect them in a region. *)
Definition safe_transform_spec (t : Transform) (r : Region) : Region :=
  let tx := rounded_offset (t_tx t) in
  let ty := rounded_offset (t_ty t) in
  let rects := region_rects (transformRegion (t_set t f0 f0) r) in
  foldl region_orSelf region_empty
    (translated tx ty
       <$> List.filter (fun rect => negb (rect_overflows tx ty rect)) rects).

(** The rectangle [[-10 W, -10 H, 10 W, 10 H]] in the floating type. *)
Definition bounds_of_size (W H : Z) : FloatRect :=
  mkFloatRect (fneg (fmul (float_of_int W) f10))
              (fneg (fmul (float_of_int H) f10))
              (fmul (float_of_int W) f10)
              (fmul (float_of_int H) f10).

(** [m] is the maximum of [f] over the registered displays. *)
Definition is_max_over (f : DisplayInfo -> Z)
    (displays : list (Z * DisplayInfo)) (m : Z) : Prop :=
  (forall kv, kv ∈ displays -> f (snd kv) <= m)
  /\ (exists kv, kv ∈ displays /\ f (snd kv) = m).

(** The [std::accumulate] of [getMaxDisplayBounds], started from [init]. *)
Definition accumulate_max (displays : list (Z * DisplayInfo)) (init : Size)
    : Size :=
  fold_left
    (fun (size : Size) (pair : Z * DisplayInfo) =>
       let display := snd pair in
       mkSize (Z.max (getWidth size) (logicalWidth display))
              (Z.max (getHeight size) (logicalHeight display)))
    displays init.

(** The absolute transform [updateLayerBounds] gives a node: the product of
    the parent's absolute transform and the local one, or the identity when
    that product is not valid. *)
Definition absoluteTransform (requested : RequestedLayerState)
    (parentSnapshot : LayerSnapshot) (displayRotationFlags : Z) : Transform :=
  let composed :=
    t_mul (geomLayerTransform parentSnapshot)
          (rq_getTransform requested displayRotationFlags) in
  if isTransformValid composed then composed else t_identity.

(** How much input a drop mode suppresses. *)
Definition restrictiveness (m : DropInputMode) : nat :=
  match m with DropNONE => 0 | DropOBSCURED => 1 | DropALL => 2 end.

(** The more restrictive of two drop modes: ALL over OBSCURED over NONE. *)
Definition most_restrictive (a b : DropInputMode) : DropInputMode :=
  if (restrictiveness a <? restrictiveness b)%nat then b else a.

(** The content bounds moved to screen space differ from the transformed
    bounds of the snapshot. *)
Definition croppedByParent (s : LayerSnapshot) : bool :=
  bool_decide (transformR (geomLayerTransform s) (croppedBufferSize s)
               ≠ Rect_of_FloatRect (transformedBounds s)).

(** The parent's rounded-corner state reprojected into the local space of
    the node; the default state when the parent has no rounded corners. *)
Definition parentCornerInLocalSpace (s parent : LayerSnapshot)
    : RoundedCornerState :=
  if hasRoundedCorners (roundedCorner parent) then
    let t := t_inverse (localTransform s) in
    mkRoundedCornerState
      (transformF t (cropRect (roundedCorner parent)))
      (mkVec2 (fmul (v_x (radius (roundedCorner parent))) (t_getScaleX t))
              (fmul (v_y (radius (roundedCorner parent))) (t_getScaleY t)))
  else RoundedCornerState_default.

(** The node's own settings: its crop rectangle and requested radius. *)
Definition ownCornerSettings (s : LayerSnapshot) (rq : RequestedLayerState)
    : RoundedCornerState :=
  mkRoundedCornerState (toFloatRect (croppedBufferSize s))
    (mkVec2 (rq_cornerRadius rq) (rq_cornerRadius rq)).

(** The node's own settings are valid: a radius that makes rounded corners
    and a crop rectangle that is not empty. *)
Definition ownCornerValid (s : LayerSnapshot) (rq : RequestedLayerState)
    : bool :=
  hasRoundedCorners (ownCornerSettings s rq)
  && negb (frect_isEmpty (toFloatRect (croppedBufferSize s))).

(** [inner] lies strictly inside [outer] on all four edges. *)
Definition strictly_inside (inner outer : FloatRect) : bool :=
  fltb (fr_left outer) (fr_left inner)
  && fltb (fr_top outer) (fr_top inner)
  && fltb (fr_right inner) (fr_right outer)
  && fltb (fr_bottom inner) (fr_bottom outer).

(** The snapshot that reaches the touch-crop block. *)
Definition beforeTouchCrop (s : LayerSnapshot) (rq : RequestedLayerState)
    (parent : LayerSnapshot) (d : DisplayInfo) (noValidDisplay : bool)
    : LayerSnapshot :=
  inSecure d
    (resolveDropInput
       (inOcclusion parent
          (inAlpha
             (inVisible rq
                (inNotTouchable noValidDisplay (inFrame d (inDisplayId s))))))
       rq parent).

(** What the touch-crop block reads of a snapshot. *)
Definition touchInputs (s : LayerSnapshot)
    : Region * bool * FloatRect :=
  (touchableRegion (inputInfo s),
   replaceTouchableRegionWithCrop (inputInfo s),
   transformedBounds s).

(** What [updateSnapshot] leaves of [s] when the node is hidden by policy:
    the change flags, the hidden flag, the content-dirty flag and the visible
    flag are assigned, every other member is the one of [s]. *)
Definition hiddenUpdate (s : LayerSnapshot) (rq : RequestedLayerState)
    (parent : LayerSnapshot) : LayerSnapshot :=
  set_isVisible false
    (set_contentDirty (has_bits (rq_what rq) CONTENT_DIRTY)
       (set_isHiddenByPolicyFromParent true
          (set_changes
             (changes parent
              ∩ {[Hierarchy; Geometry; Visibility; Metadata; AffectsChildren]}
              ∪ rq_changes rq) s))).

(** The members of a snapshot other than the change flags, the
    hidden-by-policy-from-parent flag, the content-dirty flag and the visible
    flag: identity, inherited state, composition bookkeeping, buffer state,
    content, geometry, input, shadows, metadata and the derived flags. *)
Definition otherMembers (s : LayerSnapshot) :=
  (path s, globalZ s, isHiddenByPolicyFromRelativeParent s,
   (color_a s, color_rgb s, alpha s, isSecure s, isTrustedOverlay s,
    outputFilter s, stretchEffect s, colorTransform s,
    colorTransformIsIdentity s),
   (compositionType s, dimmingEnabled s, layerOpaqueFlagSet s),
   (acquireFence s, buffer s, bufferSize s, geomBufferSize s,
    croppedBufferSize s, dataspace s, externalTexture s, frameNumber s,
    geomBufferTransform s, geomBufferUsesDisplayInverseTransform s,
    geomContentCrop s, geomUsesSourceCrop s, hasProtectedContent s,
    isHdrY410 s, sidebandStream s, surfaceDamage s, transparentRegionHint s),
   (isColorspaceAgnostic s, backgroundBlurRadius s, blurRegions s,
    hdrMetadata s),
   (geomCrop s, localTransform s, localTransformInverse s,
    geomLayerTransform s, invalidTransform s, geomInverseLayerTransform s,
    geomLayerBounds s, transformedBounds s, parentTransform s, cursorFrame s,
    bufferNeedsFiltering s, roundedCorner s),
   (inputInfo s, dropInputMode s),
   (shadowRadius s, shadowSettings s, layerMetadata s,
    relativeLayerMetadata s, forceClientComposition s, isOpaque s,
    blendMode s, sn_rest s)).

(** The visitor goes on below a snapshot unless it is hidden by policy and
    its visibility did not change. *)
Definition visited (s : LayerSnapshot) : bool :=
  negb (isHiddenByPolicy s && negb (test (changes s) Visibility)).

(** The store is well formed when [mSnapshots] holds distinct pointers to
    live objects. *)
Definition store_wf (b : LayerSnapshotBuilder) : Prop :=
  NoDup (mSnapshots b)
  /\ Forall (fun p => is_Some (heap b !! p)) (mSnapshots b).

End vocabulary.

(** ** Invariants of the builder *)

Section invariants.
Context {FO : FloatOps} {GO : GeometryOps} {HO : HierarchyOps}
        {PO : PayloadOps} {SO : SnapshotOps}.

(** The array, the objects and the index agree: [mSnapshots] holds distinct
    pointers, exactly the pointers of the live objects, and [mIdToSnapshot]
    maps a path to a pointer exactly when the object behind the pointer is
    the snapshot of that path. *)
Definition builder_wf (b : LayerSnapshotBuilder) : Prop :=
  NoDup (mSnapshots b)
  /\ (forall p, p ∈ mSnapshots b <-> is_Some (heap b !! p))
  /\ (forall k p,
        mIdToSnapshot b !! k = Some p
        <-> exists s, heap b !! p = Some s /\ path s = k).

(** Every snapshot stores its own position of [mSnapshots] in [globalZ]. *)
Definition indexed (b : LayerSnapshotBuilder) : Prop :=
  forall i p s,
    mSnapshots b !! i = Some p -> heap b !! p = Some s -> globalZ s = i.

(** On every branch of the traversal no path is visited twice; [seen] are
    the paths visited so far. *)
Fixpoint visits_fresh (seen : list TraversalPath) (t : ZTraversal) : Prop :=
  match t with
  | ZDone => True
  | ZVisit p ifTrue ifFalse =>
    (p ∉ seen)
    /\ visits_fresh (p :: seen) ifTrue /\ visits_fresh (p :: seen) ifFalse
  end.

(** The layer has buffer data whenever [updateSnapshot] reads its pixel
    format: for a BT2020 PQ dataspace queued through the media API. *)
Definition buffer_ok (requested : RequestedLayerState) : Prop :=
  is_BT2020_ITU_PQ (rq_dataspace requested)
  && is_NATIVE_WINDOW_API_MEDIA (rq_api requested) = true ->
  is_Some (rq_bufferData requested).

(** The layers of a hierarchy, the node first. *)
Fixpoint hierarchy_layers (h : LayerHierarchy) : list RequestedLayerState :=
  match h with
  | mkLayerHierarchy layer children =>
    layer
    :: (fix go (cs : list (LayerHierarchy * Variant)) :=
          match cs with
          | [] => []
          | (c, _) :: cs => hierarchy_layers c ++ go cs
          end) children
  end.

(** What names a snapshot in the builder: its path and its stored index. *)
Definition identityMembers (s : LayerSnapshot) : TraversalPath * nat :=
  (path s, globalZ s).

(** What a snapshot inherits along a relative edge. *)
Definition relativeMembers (s : LayerSnapshot) :=
  (isHiddenByPolicyFromRelativeParent s, relativeLayerMetadata s).

(** The members that no block of [updateSnapshot] assigns. *)
Definition untouchedMembers (s : LayerSnapshot) :=
  (identityMembers s, relativeMembers s).

(** The change flags and the content-dirty flag, which [updateSnapshot]
    assigns first. *)
Definition flagMembers (s : LayerSnapshot) := (changes s, contentDirty s).

(** The members that are settled once [updateSnapshot] has assigned the
    flags: no block after that writes them. *)
Definition settledMembers (s : LayerSnapshot) :=
  (untouchedMembers s, flagMembers s).

(** What the walk keeps of a builder [b0] it started from. *)
Definition extends (b0 b : LayerSnapshotBuilder) : Prop :=
  mSnapshots b0 `prefix_of` mSnapshots b
  /\ mIdToSnapshot b0 ⊆ mIdToSnapshot b
  /\ mRootSnapshot b = mRootSnapshot b0
  /\ (forall p s, heap b0 !! p = Some s ->
        exists s', heap b !! p = Some s'
                   /\ identityMembers s' = identityMembers s).

(** The first [z] positions of [mSnapshots] hold visible snapshots of paths
    the traversal has visited. *)
Definition assigned (seen : list TraversalPath) (z : nat)
    (b : LayerSnapshotBuilder) : Prop :=
  (z <= length (mSnapshots b))%nat
  /\ forall i p, (i < z)%nat -> mSnapshots b !! i = Some p ->
       (exists k, k ∈ seen /\ mIdToSnapshot b !! k = Some p)
       /\ (exists s, heap b !! p = Some s /\ isVisible s = true).

(** The visible snapshots are the first [z] of [mSnapshots]. *)
Definition visible_prefix (z : nat) (b : LayerSnapshotBuilder) : Prop :=
  forall i p s,
    mSnapshots b !! i = Some p -> heap b !! p = Some s ->
    isVisible s = true <-> (i < z)%nat.

(** A pass that only rearranges: the array is a permutation of the one
    before, the index and the root snapshot are the same. *)
Definition rearranges (b0 b : LayerSnapshotBuilder) : Prop :=
  mSnapshots b ≡ₚ mSnapshots b0
  /\ mIdToSnapshot b = mIdToSnapshot b0
  /\ mRootSnapshot b = mRootSnapshot b0.

(** The geometry of a snapshot: what [updateLayerBounds] and
    [updateRoundedCorner] compute. *)
Definition geometryMembers (s : LayerSnapshot) :=
  (geomCrop s, localTransform s, localTransformInverse s,
   geomLayerTransform s, invalidTransform s, geomInverseLayerTransform s,
   geomLayerBounds s, transformedBounds s, parentTransform s, cursorFrame s,
   bufferNeedsFiltering s, roundedCorner s).

(** The input state of a snapshot: what [updateInput] computes. *)
Definition inputMembers (s : LayerSnapshot) :=
  (inputInfo s, dropInputMode s).

(** Geometry and input state together. *)
Definition placementMembers (s : LayerSnapshot) :=
  (geometryMembers s, inputMembers s).

(** The change flags a snapshot has after [updateSnapshot]: what the parent
    hands down, and the changes of the layer itself. *)
Definition changesAfter (requested : RequestedLayerState)
    (parentSnapshot : LayerSnapshot) : gset Changes :=
  changes parentSnapshot
  ∩ {[Hierarchy; Geometry; Visibility; Metadata; AffectsChildren]}
  ∪ rq_changes requested.

(** The flags [updateInput] can add to an input configuration. *)
Definition inputFlagsAdded : gset InputConfig :=
  {[NOT_TOUCHABLE; NOT_VISIBLE; DROP_INPUT; DROP_INPUT_IF_OBSCURED;
    TRUSTED_OVERLAY; CLONE]}.

(** The input configuration of a snapshot. *)
Definition inputFlags (s : LayerSnapshot) : gset InputConfig :=
  inputConfig (inputInfo s).

(** What [updateInput] reads of the snapshot to decide on flags. *)
Definition trustMembers (s : LayerSnapshot) : bool * bool :=
  (isSecure s, isTrustedOverlay s).

(** A step of [updateInput] from [s] to [s']: the secure and the trusted
    flag stay, no flag but NOT_VISIBLE is cleared, and only the flags of
    [inputFlagsAdded] are added. *)
Definition keeps_flags (s s' : LayerSnapshot) : Prop :=
  trustMembers s' = trustMembers s
  /\ inputFlags s ∖ {[NOT_VISIBLE]} ⊆ inputFlags s'
  /\ inputFlags s' ⊆ inputFlags s ∪ inputFlagsAdded.

(** What the snapshots of the top-level layers inherit from the root
    snapshot. *)
Definition inheritedMembers (s : LayerSnapshot) :=
  (isHiddenByPolicyFromParent s, isHiddenByPolicyFromRelativeParent s,
   geomLayerTransform s, color_a s, isSecure s, isTrustedOverlay s,
   dropInputMode s, outputFilter s, roundedCorner s, stretchEffect s,
   colorTransformIsIdentity s, touchOcclusionMode (inputInfo s)).

(** The root snapshot after the full pass: the change flags are cleared,
    and the bounds are recomputed when the pass is forced or the displays
    changed. *)
Definition rootAfter (args : Args) (root : LayerSnapshot) : LayerSnapshot :=
  set_changes ∅
    (if forceUpdate args || displayChanges args
     then set_geomLayerBounds (getMaxDisplayBounds (displays args)) root
     else root).

(** The state a snapshot inherits from its parent. *)
Definition inheritedState (s : LayerSnapshot) :=
  (color_a s, alpha s, isSecure s, isTrustedOverlay s, outputFilter s,
   stretchEffect s, colorTransform s, colorTransformIsIdentity s).

(** The inherited state as the specification words it: alpha is the
    product of the parent's and the layer's, secure and trusted are
    inherited or requested, the layer stack is the parent's for a layer
    with a parent and the requested one otherwise, a layer that skips
    screenshots or whose parent does is shown on internal displays only,
    the stretch effect is the layer's own if it has one, and the colour
    transform is composed with the parent's unless that is the identity. *)
Definition inheritedFrom (requested : RequestedLayerState)
    (parentSnapshot : LayerSnapshot) :=
  let a := fmul (color_a parentSnapshot) (rq_color_a requested) in
  (a, a,
   isSecure parentSnapshot || has_bits (rq_flags requested) eLayerSecure,
   isTrustedOverlay parentSnapshot || rq_isTrustedOverlay requested,
   mkLayerFilter
     (if bool_decide (rq_parentId requested ≠ UNASSIGNED_LAYER_ID)
      then layerStack (outputFilter parentSnapshot)
      else rq_layerStack requested)
     (toInternalDisplay (outputFilter parentSnapshot)
      || has_bits (rq_flags requested) eLayerSkipScreenshot),
   (if stretch_hasEffect (rq_stretchEffect requested)
    then rq_stretchEffect requested
    else stretchEffect parentSnapshot),
   (if colorTransformIsIdentity parentSnapshot
    then rq_colorTransform requested
    else mat4_mul (colorTransform parentSnapshot)
           (rq_colorTransform requested)),
   (if colorTransformIsIdentity parentSnapshot
    then negb (rq_hasColorTransform requested)
    else false)).

(** The members [updateRelativeState] does not assign: everything but the
    relative state and the visible flag. *)
Definition attachedMembers (s : LayerSnapshot) :=
  (identityMembers s, flagMembers s, isHiddenByPolicyFromParent s,
   inheritedState s, placementMembers s,
   (compositionType s, dimmingEnabled s, layerOpaqueFlagSet s),
   (externalTexture s, sidebandStream s, bufferSize s, croppedBufferSize s),
   (shadowRadius s, shadowSettings s, layerMetadata s,
    forceClientComposition s, isOpaque s, blendMode s)).

(** A pass that only rewrites snapshots in place: array, index and root
    snapshot are the same, the same objects are live, and each of them has
    its path, its stored index and its relative state. *)
Definition rewrites (b0 b : LayerSnapshotBuilder) : Prop :=
  mSnapshots b = mSnapshots b0
  /\ mIdToSnapshot b = mIdToSnapshot b0
  /\ mRootSnapshot b = mRootSnapshot b0
  /\ forall p,
       option_Forall2
         (fun s0 s => untouchedMembers s = untouchedMembers s0)
         (heap b0 !! p) (heap b !! p).

(** The layers below the root of the hierarchy of an update. *)
Definition args_layers (args : Args) : list RequestedLayerState :=
  concat ((fun c => hierarchy_layers (fst c)) <$> root_mChildren args).

End invariants.

(* ------------------------------------------------------------------ *)
(** * A reference implementation of the parameters

    Exact rational arithmetic stands for the floating types (on the small
    dyadic values of the examples below binary32 arithmetic is exact), a
    transform is a scale and a translation along each axis, and a region is
    the list of its rectangles. The examples and the concrete runs of the
    builder are stated over this implementation. *)

Module Reference.

Global Instance Variant_countable : Countable Variant.
Proof.
  refine (inj_countable'
    (fun v => match v with Attached => 0 | Relative => 1 | Mirror => 2 end%nat)
    (fun n => match n with 0 => Attached | 1 => Relative | _ => Mirror end%nat)
    _).
  by intros [].
Defined.

(** Truncation toward zero, as [static_cast<int32_t>] does. *)
Definition q_trunc (q : Q) : Z := Z.quot (Qnum q) (Zpos (Qden q)).

(** [floorf(x + 0.5f)], the rounding of [ui::Transform]. *)
Definition q_round (q : Q) : Z := Qfloor (q + (1 # 2))%Q.

Definition q_ltb (a b : Q) : bool := negb (Qle_bool b a).

(** Outside [int32_t] the conversion instructions of x86 give [0x80000000]
    whatever the value; this is what the implementation takes for the
    undefined conversion. *)
#[local] Instance Q_FloatOps : FloatOps := {|
  float := Q;
  f0 := 0%Q; f1 := 1%Q; f2 := 2%Q; f10 := 10%Q;
  fadd a b := Qred (a + b);
  fsub a b := Qred (a - b);
  fmul a b := Qred (a * b);
  fdiv a b := Qred (a / b);
  fneg a := Qred (- a);
  fmin a b := if q_ltb b a then b else a;
  fmax a b := if q_ltb a b then b else a;
  fltb := q_ltb;
  feqb := Qeq_bool;
  float_of_int := inject_Z;
  int_of_float := q_trunc;
  rounded_offset q := q_trunc (q + (1 # 2))%Q;
  cast_out_of_range _ := int32_min
|}.

(** Scale and translation along the axes. *)
Record Affine := mkAffine { a_sx : Q; a_sy : Q; a_tx : Q; a_ty : Q }.

Definition affine_id : Affine := mkAffine 1 1 0 0.

(** [a * b]: apply [b], then [a]. *)
Definition affine_mul (a b : Affine) : Affine :=
  mkAffine (Qred (a_sx a * a_sx b)) (Qred (a_sy a * a_sy b))
           (Qred (a_sx a * a_tx b + a_tx a)) (Qred (a_sy a * a_ty b + a_ty a)).

Definition affine_valid (a : Affine) : bool :=
  negb (Qeq_bool (a_sx a) 0) && negb (Qeq_bool (a_sy a) 0).

Definition affine_inverse (a : Affine) : Affine :=
  if affine_valid a
  then mkAffine (Qred (/ a_sx a)) (Qred (/ a_sy a))
                (Qred (- a_tx a / a_sx a)) (Qred (- a_ty a / a_sy a))
  else affine_id.

Definition affine_x (a : Affine) (x : Q) : Q := Qred (a_sx a * x + a_tx a).
Definition affine_y (a : Affine) (y : Q) : Q := Qred (a_sy a * y + a_ty a).

Definition affine_frect (a : Affine) (r : FloatRect) : FloatRect :=
  let x1 := affine_x a (fr_left r) in
  let x2 := affine_x a (fr_right r) in
  let y1 := affine_y a (fr_top r) in
  let y2 := affine_y a (fr_bottom r) in
  mkFloatRect (fmin x1 x2) (fmin y1 y2) (fmax x1 x2) (fmax y1 y2).

Definition affine_rect (a : Affine) (r : Rect) : Rect :=
  let f :=
    affine_frect a
      (mkFloatRect (inject_Z (r_left r)) (inject_Z (r_top r))
                   (inject_Z (r_right r)) (inject_Z (r_bottom r))) in
  mkRect (q_round (fr_left f)) (q_round (fr_top f))
         (q_round (fr_right f)) (q_round (fr_bottom f)).

Definition rect_valid (r : Rect) : bool :=
  (r_left r <=? r_right r) && (r_top r <=? r_bottom r).

Definition rect_empty (r : Rect) : bool :=
  (r_right r <=? r_left r) || (r_bottom r <=? r_top r).

Definition rect_meet (a b : Rect) : Rect :=
  mkRect (Z.max (r_left a) (r_left b)) (Z.max (r_top a) (r_top b))
         (Z.min (r_right a) (r_right b)) (Z.min (r_bottom a) (r_bottom b)).

Definition frect_width (r : FloatRect) : Q := Qred (fr_right r - fr_left r).
Definition frect_height (r : FloatRect) : Q := Qred (fr_bottom r - fr_top r).

Definition frect_empty (r : FloatRect) : bool :=
  Qle_bool (frect_width r) 0 || Qle_bool (frect_height r) 0.

Definition frect_zero : FloatRect := mkFloatRect 0%Q 0%Q 0%Q 0%Q.

Definition frect_meet (a b : FloatRect) : FloatRect :=
  let m :=
    mkFloatRect (fmax (fr_left a) (fr_left b)) (fmax (fr_top a) (fr_top b))
                (fmin (fr_right a) (fr_right b))
                (fmin (fr_bottom a) (fr_bottom b)) in
  if frect_empty m then frect_zero else m.

#[local] Instance Affine_GeometryOps : GeometryOps := {|
  Transform := Affine;
  t_identity := affine_id;
  t_mul := affine_mul;
  t_inverse := affine_inverse;
  t_set a tx ty := mkAffine (a_sx a) (a_sy a) tx ty;
  t_tx := a_tx;
  t_ty := a_ty;
  t_isIdentityType a :=
    Qeq_bool (a_sx a) 1 && Qeq_bool (a_sy a) 1
    && Qeq_bool (a_tx a) 0 && Qeq_bool (a_ty a) 0;
  t_getScaleX := a_sx;
  t_getScaleY := a_sy;
  transformF := affine_frect;
  transformR := affine_rect;
  isTransformValid := affine_valid;
  Region := list Rect;
  region_empty := [];
  region_of_rect r := if rect_empty r then [] else [r];
  region_rects r := r;
  region_orSelf r x := if rect_empty x then r else r ++ [x];
  region_intersect r x :=
    List.filter (fun y => negb (rect_empty y)) (rect_meet x <$> r);
  transformRegion a r := affine_rect a <$> r;
  EMPTY_RECT := mkRect 0 0 0 0;
  rect_isValid := rect_valid;
  rect_isEmpty := rect_empty;
  toFloatRect r :=
    mkFloatRect (inject_Z (r_left r)) (inject_Z (r_top r))
                (inject_Z (r_right r)) (inject_Z (r_bottom r));
  Rect_of_FloatRect f :=
    mkRect (q_trunc (fr_left f)) (q_trunc (fr_top f))
           (q_trunc (fr_right f)) (q_trunc (fr_bottom f));
  frect_default := frect_zero;
  frect_intersect := frect_meet;
  frect_getWidth := frect_width;
  frect_getHeight := frect_height;
  frect_isEmpty := frect_empty;
  vec2_zero := mkVec2 0%Q 0%Q;
  hasRoundedCorners s :=
    q_ltb 0 (v_x (radius s)) && q_ltb 0 (v_y (radius s));
  kEmptySize := mkSize 0 0
|}.

(** A traversal path: the leaf id, the variant of the last edge, the mirror
    roots and the relative roots crossed on the way. *)
Definition Path : Type := Z * Variant * list Z * list Z.

Definition unassigned : Z := 2 ^ 32 - 1.

Definition path_push (p : Path) (id : Z) (v : Variant) : Path :=
  let '(_, _, mirrors, relatives) := p in
  match v with
  | Mirror => (id, v, mirrors ++ [id], relatives)
  | Relative => (id, v, mirrors, relatives ++ [id])
  | Attached => (id, v, mirrors, relatives)
  end.

#[local] Instance Path_HierarchyOps : HierarchyOps := {|
  TraversalPath := Path;
  ROOT := (unassigned, Attached, [], []);
  path_id p := p.1.1.1;
  path_variant p := p.1.1.2;
  isRelative p := negb (bool_decide (p.2 = []));
  isAttached p := bool_decide (p.2 = []);
  isClone p := negb (bool_decide (p.1.2 = []));
  mirrorRootIds_back p := List.last p.1.2 unassigned;
  path_of_id id := (id, Attached, [], []);
  addToTraversalPath := path_push;
  UNASSIGNED_LAYER_ID := unassigned
|}.

(** What the accessors of a requested state read besides its members. *)
Record Extra := mkExtra {
  x_transform : Affine;
  x_hasInputInfo : bool
}.

#[local] Instance Plain_PayloadOps : PayloadOps := {|
  Fence := unit;
  NO_FENCE := tt;
  GraphicBuffer := unit;
  ExternalTexture := Z * Z;
  tex_getBuffer _ := tt;
  tex_usageProtected _ := false;
  BufferData := Z;
  bd_acquireFence _ := tt;
  bd_frameNumber n := n;
  bd_isRGBA_1010102 _ := false;
  NativeHandle := unit;
  Dataspace := bool;
  is_BT2020_ITU_PQ d := d;
  Api := bool;
  is_NATIVE_WINDOW_API_MEDIA a := a;
  StretchEffect := bool;
  stretch_default := false;
  stretch_hasEffect e := e;
  mat4 := unit;
  mat4_mul _ _ := tt;
  vec3 := unit;
  vec4 := Q;
  vec4_scale v a := Qred (v * a);
  BlurRegions := nat;
  blur_nonempty n := (0 <? n)%nat;
  HdrMetadata := unit;
  CompositionType := unit;
  BufferTransform := unit;
  LayerMetadata := list Z;
  metadata_empty := [];
  metadata_merge a b := a ++ b;
  TouchOcclusionMode := bool;
  BLOCK_UNTRUSTED := false;
  LightSource := unit;
  SnapshotRest := unit;
  RequestedRest := Extra;
  eLayerSecure := 128;
  eLayerSkipScreenshot := 64;
  eLayerOpaque := 2;
  CONTENT_DIRTY := 1;
  BUFFER_CHANGES := 2;
  DEFAULT_LAYER_STACK := 0
|}.

(** [layer_state_t::eLayerHidden]. *)
Definition eLayerHidden : Z := 1.

Definition blankInfo : WindowInfo :=
  mkWindowInfo 0 ∅ [] 0 0 0 0 0 affine_id 1%Q false false.

(** A snapshot as its constructor leaves it. *)
Definition blank (p : Path) : LayerSnapshot :=
  mkLayerSnapshot p 0 ∅ false false false false
    1%Q tt 1%Q false false (mkLayerFilter 0 false) false tt true
    tt false false
    tt None (mkRect 0 0 (-1) (-1)) (mkRect 0 0 (-1) (-1))
    (mkRect 0 0 (-1) (-1)) false None 0 tt false (mkRect 0 0 0 0) false false
    false None [] []
    false 0 0%nat tt
    (mkRect 0 0 0 0) affine_id affine_id affine_id false affine_id
    frect_zero frect_zero affine_id (mkRect 0 0 0 0) false
    (mkRoundedCornerState frect_zero (mkVec2 0%Q 0%Q))
    blankInfo DropNONE
    0%Q (mkShadowSettings frect_zero 0%Q 0%Q tt 0%Q false) [] []
    false false BlendNONE tt.

Definition has_content (s : LayerSnapshot) : bool :=
  bool_decide (is_Some (externalTexture s))
  || bool_decide (is_Some (sidebandStream s)).

Definition hidden_by_policy (s : LayerSnapshot) : bool :=
  isHiddenByPolicyFromParent s || isHiddenByPolicyFromRelativeParent s.

Definition bufferRect (rq : RequestedLayerState) : Rect :=
  match rq_externalTexture rq with
  | Some (w, h) => mkRect 0 0 w h
  | None => mkRect 0 0 (-1) (-1)
  end.

#[local] Instance Plain_SnapshotOps : SnapshotOps := {|
  LayerSnapshot_default := blank ROOT;
  LayerSnapshot_new _ p := blank p;
  hasBufferOrSidebandStream := has_content;
  isHiddenByPolicy := hidden_by_policy;
  getIsVisible s :=
    negb (hidden_by_policy s) && has_content s && q_ltb 0 (color_a s);
  canReceiveInput s :=
    negb (hidden_by_policy s) && (negb (has_content s) || q_ltb 0 (color_a s));
  isContentOpaque s := layerOpaqueFlagSet s;
  rq_isHiddenByPolicy rq := has_bits (rq_flags rq) eLayerHidden;
  rq_getCompositionType _ := tt;
  rq_getBufferSize rq _ := bufferRect rq;
  rq_getCroppedBufferSize rq size :=
    if negb (rect_empty (rq_crop rq)) && rect_valid size
    then rect_meet size (rq_crop rq)
    else if negb (rect_empty (rq_crop rq)) then rq_crop rq
    else size;
  rq_getBufferCrop rq := bufferRect rq;
  rq_getColor_rgb _ := tt;
  rq_getTransform rq _ := x_transform (rq_rest rq);
  rq_getUnrotatedBufferSize rq _ :=
    match rq_externalTexture rq with
    | Some (w, h) => mkSize w h
    | None => mkSize 0 0
    end;
  rq_hasInputInfo rq := x_hasInputInfo (rq_rest rq);
  reduce r _ := r
|}.

(** ** Example scenes *)

(** A requested layer state: id, parent, flags, changes, what, buffer size,
    local transform, input info and drop mode; the members not listed keep
    their defaults. *)
Definition layer (id parent flags : Z) (ch : gset Changes) (what : Z)
    (tex : option (Z * Z)) (t : Affine) (input : bool) (drop : DropInputMode)
    : RequestedLayerState :=
  mkRequestedLayerState id ch what flags 1%Q parent 0 false false tt false
    true None tex false tt false false None [] [] false 0 0%nat tt
    (mkRect 0 0 0 0) 0%Q 0%Q [] drop unassigned true
    (mkExtra t input).

Definition all_changes : gset Changes :=
  {[Hierarchy; Geometry; Visibility; Metadata; AffectsChildren; Content;
    Created; Input; Buffer]}.

Definition shadows : ShadowSettings :=
  mkShadowSettings frect_zero 0%Q 0%Q tt 0%Q false.

Definition phone : DisplayInfo :=
  mkDisplayInfo 1080 1920 true true 0 affine_id.

Definition monitor : DisplayInfo :=
  mkDisplayInfo 2560 1440 true false 0 affine_id.

(** Scene 1: root -> A -> B, where A is hidden by policy and both have a
    buffer. First commit: everything changed. *)
Definition layerA0 : RequestedLayerState :=
  layer 1 unassigned eLayerHidden all_changes 3 (Some (100, 100)) affine_id
    false DropNONE.

Definition layerB0 : RequestedLayerState :=
  layer 2 1 0 all_changes 3 (Some (50, 50)) affine_id false DropNONE.

Definition scene (a b : RequestedLayerState)
    : list (LayerHierarchy * Variant) :=
  [(mkLayerHierarchy a [(mkLayerHierarchy b [], Attached)], Attached)].

Definition pathA : Path := path_push (unassigned, Attached, [], []) 1 Attached.
Definition pathB : Path := path_push pathA 2 Attached.

Definition zorderAB : ZTraversal :=
  ZVisit pathA (ZVisit pathB ZDone ZDone) ZDone.

Definition args0 : Args :=
  mkArgs (scene layerA0 layerB0) zorderAB
    (mkLayerLifecycleManager all_changes [layerA0; layerB0] [])
    true false [(0, phone); (1, monitor)] false shadows.

(** The builder after the first, forced update of scene 1. *)
Definition built0 : LayerSnapshotBuilder :=
  default LayerSnapshotBuilder_new (update args0 LayerSnapshotBuilder_new).

(** Second commit of scene 1: only B changed, and only its content (a new
    buffer was queued). *)
Definition layerA1 : RequestedLayerState :=
  layer 1 unassigned eLayerHidden ∅ 0 (Some (100, 100)) affine_id false
    DropNONE.

Definition layerB1 : RequestedLayerState :=
  layer 2 1 0 {[Content]} 3 (Some (50, 50)) affine_id false DropNONE.

Definition args1 (force : bool) : Args :=
  mkArgs (scene layerA1 layerB1) zorderAB
    (mkLayerLifecycleManager {[Content]} [layerA1; layerB1] [])
    force false [(0, phone); (1, monitor)] false shadows.

(** The hidden-by-policy-from-parent flag and the visible flag of the
    snapshot at a path. *)
Definition flagsAt (ob : option LayerSnapshotBuilder) (p : Path)
    : option (bool * bool) :=
  b ← ob; q ← getSnapshot b p; s ← heap b !! q;
  Some (isHiddenByPolicyFromParent s, isVisible s).

(** Scene 2: root -> C -> V, where C is a container without a buffer and V
    has one; neither is hidden. The z-order traversal visits C, then V. *)
Definition layerC : RequestedLayerState :=
  layer 3 unassigned 0 all_changes 0 None affine_id false DropNONE.

Definition layerV : RequestedLayerState :=
  layer 6 3 0 all_changes 3 (Some (10, 10)) affine_id false DropNONE.

Definition pathC : Path := path_push (unassigned, Attached, [], []) 3 Attached.
Definition pathV : Path := path_push pathC 6 Attached.

Definition argsC : Args :=
  mkArgs (scene layerC layerV)
    (ZVisit pathC (ZVisit pathV ZDone ZDone) ZDone)
    (mkLayerLifecycleManager all_changes [layerC; layerV] [])
    true false [(0, phone)] false shadows.

Definition builtC : LayerSnapshotBuilder :=
  default LayerSnapshotBuilder_new (update argsC LayerSnapshotBuilder_new).

(** Whether the snapshot at a path is hidden by policy, its visible flag and
    its stored index. *)
Definition orderAt (b : LayerSnapshotBuilder) (p : Path)
    : option (bool * bool * nat) :=
  q ← getSnapshot b p; s ← heap b !! q;
  Some (isHiddenByPolicy s, isVisible s, globalZ s).

(** Scene 3: a parent moved by (10, 0) and a child without a buffer moved by
    (5, 5) within it. *)
Definition movedParent : LayerSnapshot :=
  set_geomLayerTransform (mkAffine 1 1 10 0) (blank pathA).

Definition layerD : RequestedLayerState :=
  layer 4 1 0 all_changes 0 None (mkAffine 1 1 5 5) true DropOBSCURED.

Definition snapshotD : LayerSnapshot :=
  updateLayerBounds (blank pathB) layerD movedParent 0.

(** Scene 4: a layer whose requested transform has a zero scale. *)
Definition layerE : RequestedLayerState :=
  layer 5 1 0 all_changes 0 None (mkAffine 0 1 0 0) false DropNONE.

(** A parent hidden by policy and one with a translucent alpha. *)
Definition hiddenParent : LayerSnapshot :=
  set_isHiddenByPolicyFromParent true (blank pathA).

Definition translucentParent : LayerSnapshot :=
  set_color_a (1 # 2)%Q (blank pathA).

(** A store in which no layer id resolves. *)
Definition noSnapshot : LayerSnapshot -> Z -> option LayerSnapshot :=
  fun _ _ => None.

(** Scene 1 as a hierarchy below the root, and the builder after the walk
    over it alone. *)
Definition hierarchyA : LayerHierarchy :=
  mkLayerHierarchy layerA0 [(mkLayerHierarchy layerB0 [], Attached)].

Definition walked0 : LayerSnapshotBuilder :=
  default LayerSnapshotBuilder_new
    (updateSnapshotsInHierarchy args0 hierarchyA pathA RootRef
       LayerSnapshotBuilder_new).

(** A commit of scene 1 without any change, although the displays
    changed and layer B is listed as destroyed. *)
Definition argsIdle : Args :=
  mkArgs (scene layerA1 layerB1) zorderAB
    (mkLayerLifecycleManager ∅ [layerA1; layerB1] [layerB1])
    false false [(0, phone); (1, monitor)] true shadows.

(** The builder of scene 1 after the content-only commit. *)
Definition built1 : LayerSnapshotBuilder :=
  default built0 (update (args1 false) built0).

(** The builder of scene 1 after the node A alone was walked in the second
    commit. *)
Definition prunedA : LayerSnapshotBuilder :=
  default built0
    (updateSnapshotsInHierarchy (args1 false) (mkLayerHierarchy layerA1 [])
       pathA RootRef built0).

(** Scene 2 after the layer V was destroyed: the eviction of
    [updateSnapshots] on the builder of the first commit. *)
Definition goneV : gset Z := {[6]}.

Definition evictedC : LayerSnapshotBuilder :=
  default builtC
    (destroySnapshots goneV (length (mSnapshots builtC)) 0 builtC).

(** The snapshot behind a pointer, or a blank one. *)
Definition at_ptr (b : LayerSnapshotBuilder) (p : ptr) : LayerSnapshot :=
  default (blank ROOT) (heap b !! p).

(** Layer B updated under a parent that is not hidden. *)
Definition updatedB (args : Args) (rq : RequestedLayerState)
    : LayerSnapshot :=
  default (blank pathB)
    (updateSnapshot noSnapshot (blank pathB) args rq (blank pathA) pathB).

(** Layer B updated as an attached occurrence: the relative state is reset
    first. *)
Definition attachedB : LayerSnapshot :=
  default (blank pathB)
    (updateSnapshot noSnapshot (resetRelativeState (blank pathB)) args0
       layerB0 (blank pathA) pathB).

(** Scene 5: an occurrence of layer 4 below the mirror root 7, with a buffer
    and a touchable region of its own, whose touch-crop target is layer 99.
    The builder of scene 1 holds the layers 1 and 2 only: neither 7 nor 99
    has a snapshot there. *)
Definition layerF : RequestedLayerState :=
  mkRequestedLayerState 4 all_changes 0 0 1%Q 1 0 false false tt false
    true None (Some (100, 100)) false tt false false None [] [] false 0 0%nat
    tt (mkRect 0 0 0 0) 0%Q 0%Q [] DropNONE 99 true
    (mkExtra (mkAffine 1 1 5 5) true).

Definition pathF : Path := path_push (path_push ROOT 7 Mirror) 4 Attached.

Definition snapshotF : LayerSnapshot :=
  on_inputInfo (set_touchableRegion [mkRect 0 0 40 40])
    (set_croppedBufferSize (mkRect 0 0 100 100)
       (updateLayerBounds (blank pathF) layerF movedParent 0)).

(** The pointer the builder of scene 1 would hand out next. *)
Definition nextPtr : ptr := fresh (dom (heap built0)).

(** Scene 1 once more, nothing changed in the layers, but the monitor was
    unplugged: the phone is the only display left and the displays are
    flagged as changed. *)
Definition argsUnplugged : Args :=
  mkArgs (scene layerA1 layerB1) zorderAB
    (mkLayerLifecycleManager ∅ [layerA1; layerB1] [])
    false false [(0, phone)] true shadows.

(** The bounds of the root snapshot after a run. *)
Definition rootBounds (ob : option LayerSnapshotBuilder) : option FloatRect :=
  b ← ob; Some (geomLayerBounds (mRootSnapshot b)).

(** A transform that moves by 3e9 along x (a value of binary32), and a
    region of two rectangles. *)
Definition farRight : Affine := mkAffine 1 1 3000000000 0.

Definition twoRects : list Rect :=
  [mkRect 0 0 100 100; mkRect (-1000000000) 0 (-999999900) 100].

End Reference.

(* ------------------------------------------------------------------ *)
(** * Properties *)

#[local] Set Warnings "-clear-no-such-hyp".

(** ** Machine integers *)

Lemma wrap32_in_range z : in_int32 z = true -> wrap32 z = z.
Proof.
  unfold in_int32, wrap32, int32_min, int32_max.
  intros [H1 H2]%andb_true_iff.
  apply Z.leb_le in H1, H2.
  rewrite Z.mod_small by lia. lia.
Qed.

Lemma wrap32_bounds z : in_int32 (wrap32 z) = true.
Proof.
  unfold in_int32, wrap32, int32_min, int32_max.
  pose proof (Z.mod_pos_bound (z + 2 ^ 31) (2 ^ 32) ltac:(lia)).
  apply andb_true_iff; split; apply Z.leb_le; lia.
Qed.

Lemma builtin_add_overflow_exact a b :
  fst (builtin_add_overflow a b) = false ->
  snd (builtin_add_overflow a b) = a + b.
Proof.
  unfold builtin_add_overflow; simpl.
  intros H%negb_false_iff. by apply wrap32_in_range.
Qed.

(** ** The overflow-safe region transform *)

Section safe_transform.
Context {FO : FloatOps} {GO : GeometryOps}.

(** The converted translation is a value of [int32_t], and it is the
    rounded translation where that fits. *)
Lemma round_offset_int32 (x : float) : in_int32 (round_offset x) = true.
Proof.
  unfold round_offset, static_cast_int32.
  destruct (in_int32 (rounded_offset x)) eqn:E; [exact E|].
  apply wrap32_bounds.
Qed.

Lemma round_offset_exact (x : float) :
  in_int32 (rounded_offset x) = true -> round_offset x = rounded_offset x.
Proof. unfold round_offset, static_cast_int32. by intros ->. Qed.

Lemma offsetRect_spec tx ty rect :
  offsetRect tx ty rect =
    if rect_overflows tx ty rect then None else Some (translated tx ty rect).
Proof.
  unfold offsetRect, rect_overflows, overflows, translated,
    builtin_add_overflow.
  destruct (in_int32 (r_left rect + tx)) eqn:Hl; simpl; [|done].
  destruct (in_int32 (r_top rect + ty)) eqn:Ht; simpl; [|done].
  destruct (in_int32 (r_right rect + tx)) eqn:Hr; simpl; [|done].
  destruct (in_int32 (r_bottom rect + ty)) eqn:Hb; simpl; [|done].
  by rewrite !wrap32_in_range.
Qed.

Lemma safe_loop_spec tx ty rects ret :
  fold_left
    (fun (ret : Region) (rect : Rect) =>
       match offsetRect tx ty rect with
       | None => ret
       | Some newRect => region_orSelf ret newRect
       end) rects ret
  = foldl region_orSelf ret
      (translated tx ty
         <$> List.filter (fun rect => negb (rect_overflows tx ty rect)) rects).
Proof.
  revert ret. induction rects as [|rect rects IH]; intros ret; [done|].
  simpl. rewrite offsetRect_spec.
  destruct (rect_overflows tx ty rect); simpl; apply IH.
Qed.

(** Whatever the transform, the loop drops the rectangles a coordinate of
    which overflows when the converted translation is added, and moves the
    others by it exactly; the converted translation is a pair of [int32_t]
    values. The function is total: it returns a region on every input. *)
Lemma transformTouchableRegionSafely_loop (t : Transform) (r : Region) :
  let tx := round_offset (t_tx t) in
  let ty := round_offset (t_ty t) in
  in_int32 tx = true /\ in_int32 ty = true
  /\ transformTouchableRegionSafely t r
     = foldl region_orSelf region_empty
         (translated tx ty
            <$> List.filter (fun rect => negb (rect_overflows tx ty rect))
                  (region_rects (transformRegion (t_set t f0 f0) r))).
Proof.
  cbv zeta. split; [apply round_offset_int32|].
  split; [apply round_offset_int32|].
  unfold transformTouchableRegionSafely. apply safe_loop_spec.
Qed.

(** Where the rounded translation fits [int32_t] (the range in which the
    conversion of lines 61 and 62 is defined) the function is the safe
    transform of the specification: the transform without its translation,
    then the rounded translation added to the four coordinates of each
    rectangle, the rectangles of which some coordinate sum overflows being
    dropped and all the others moved exactly and united into the output. *)
Lemma transformTouchableRegionSafely_in_range (t : Transform) (r : Region) :
  in_int32 (rounded_offset (t_tx t)) = true ->
  in_int32 (rounded_offset (t_ty t)) = true ->
  transformTouchableRegionSafely t r = safe_transform_spec t r.
Proof.
  intros Hx Hy.
  unfold transformTouchableRegionSafely, safe_transform_spec.
  rewrite (round_offset_exact _ Hx), (round_offset_exact _ Hy).
  apply safe_loop_spec.
Qed.

(** Where it does not fit, the value converted is not the rounded
    translation: the additions of the loop are checked, the conversion
    before them is not. *)
Lemma round_offset_out_of_range (x : float) :
  in_int32 (rounded_offset x) = false -> round_offset x <> rounded_offset x.
Proof.
  intros Hout Heq. pose proof (round_offset_int32 x) as Hin.
  rewrite Heq, Hout in Hin. discriminate Hin.
Qed.

(** Each rectangle that survives has coordinates within [int32_t]. *)
Lemma translated_in_range tx ty rect :
  rect_overflows tx ty rect = false ->
  in_int32 (r_left (translated tx ty rect)) = true
  /\ in_int32 (r_top (translated tx ty rect)) = true
  /\ in_int32 (r_right (translated tx ty rect)) = true
  /\ in_int32 (r_bottom (translated tx ty rect)) = true.
Proof.
  unfold rect_overflows, overflows. simpl.
  intros H. repeat (apply orb_false_iff in H as [H ?]).
  repeat split; by apply negb_false_iff.
Qed.

End safe_transform.

(** ** The bounds of the root snapshot *)

Section root_bounds.
Context {FO : FloatOps} {GO : GeometryOps} {HO : HierarchyOps}
        {PO : PayloadOps} {SO : SnapshotOps}.

Lemma accumulate_max_upper displays init :
  getWidth init <= getWidth (accumulate_max displays init)
  /\ getHeight init <= getHeight (accumulate_max displays init)
  /\ (forall kv, kv ∈ displays ->
        logicalWidth (snd kv) <= getWidth (accumulate_max displays init)
        /\ logicalHeight (snd kv) <= getHeight (accumulate_max displays init)).
Proof.
  revert init. induction displays as [|d ds IH]; intros init; simpl.
  - split; [lia|]. split; [lia|].
    intros kv Hkv. by apply elem_of_nil in Hkv.
  - destruct (IH (mkSize (Z.max (getWidth init) (logicalWidth (snd d)))
                         (Z.max (getHeight init) (logicalHeight (snd d)))))
      as (Hw & Hh & Hall); simpl in *.
    split; [lia|]. split; [lia|].
    intros kv [->|Hin]%elem_of_cons; [lia | by apply Hall].
Qed.

Lemma accumulate_max_attained displays init :
  (getWidth (accumulate_max displays init) = getWidth init
   \/ exists kv, kv ∈ displays
        /\ logicalWidth (snd kv) = getWidth (accumulate_max displays init))
  /\ (getHeight (accumulate_max displays init) = getHeight init
      \/ exists kv, kv ∈ displays
           /\ logicalHeight (snd kv) = getHeight (accumulate_max displays init)).
Proof.
  revert init. induction displays as [|d ds IH]; intros init; simpl.
  - by split; left.
  - destruct (IH (mkSize (Z.max (getWidth init) (logicalWidth (snd d)))
                         (Z.max (getHeight init) (logicalHeight (snd d)))))
      as [Hw Hh]; simpl in *.
    assert (d ∈ d :: ds) as Hd by (apply elem_of_cons; by left).
    split.
    + destruct Hw as [Hw|(kv & Hin & Hw)].
      * destruct (Z.max_spec (getWidth init) (logicalWidth (snd d)))
          as [[_ Hm]|[_ Hm]].
        -- right. exists d. split; [done | rewrite Hw; lia].
        -- left. rewrite Hw; lia.
      * right. exists kv. split; [apply elem_of_cons; by right | done].
    + destruct Hh as [Hh|(kv & Hin & Hh)].
      * destruct (Z.max_spec (getHeight init) (logicalHeight (snd d)))
          as [[_ Hm]|[_ Hm]].
        -- right. exists d. split; [done | rewrite Hh; lia].
        -- left. rewrite Hh; lia.
      * right. exists kv. split; [apply elem_of_cons; by right | done].
Qed.

Lemma maxDisplaySize_is_max (displays : list (Z * DisplayInfo)) :
  displays <> [] ->
  Forall (fun kv => getWidth kEmptySize <= logicalWidth (snd kv)
                    /\ getHeight kEmptySize <= logicalHeight (snd kv))
         displays ->
  is_max_over logicalWidth displays (getWidth (maxDisplaySize displays))
  /\ is_max_over logicalHeight displays (getHeight (maxDisplaySize displays)).
Proof.
  intros Hne Hge. rewrite Forall_forall in Hge.
  assert (maxDisplaySize displays = accumulate_max displays kEmptySize) as ->.
  { destruct displays; [done | reflexivity]. }
  destruct (accumulate_max_upper displays kEmptySize) as (Hw & Hh & Hall).
  destruct (accumulate_max_attained displays kEmptySize) as [Aw Ah].
  destruct displays as [|d ds]; [done|].
  assert (d ∈ d :: ds) as Hd by (apply elem_of_cons; by left).
  split; (split; [intros kv Hkv; by apply Hall|]).
  - destruct Aw as [Aw|?]; [|done].
    exists d. split; [done|].
    pose proof (proj1 (Hall d Hd)). pose proof (proj1 (Hge d Hd)). lia.
  - destruct Ah as [Ah|?]; [|done].
    exists d. split; [done|].
    pose proof (proj2 (Hall d Hd)). pose proof (proj2 (Hge d Hd)). lia.
Qed.

End root_bounds.

(** ** What the passes keep *)

Arguments sortVisitor : simpl never.
Arguments updateSnapshot : simpl never.
Arguments updateInput : simpl never.
Arguments updateRelativeState : simpl never.
Arguments getOrCreateSnapshot : simpl never.
Arguments store : simpl never.

(** Case analysis on the computation at the head of a monadic bind whose
    result is known to be [Some]. *)
Ltac step_bind :=
  cbv zeta;
  match goal with
  | |- (@mbind _ _ _ _ _ ?u) = Some _ -> _ =>
    let E := fresh "E" in destruct u eqn:E; [simpl | done]
  end.

Section preservation.
Context {FO : FloatOps} {GO : GeometryOps} {HO : HierarchyOps}
        {PO : PayloadOps} {SO : SnapshotOps}.

(** Induction over a hierarchy with the hypothesis for every child. *)
Lemma LayerHierarchy_children_ind (P : LayerHierarchy -> Prop) :
  (forall layer children,
     Forall (fun c => P (fst c)) children ->
     P (mkLayerHierarchy layer children)) ->
  forall h, P h.
Proof.
  intros Hstep. fix IH 1. intros [layer children]. apply Hstep.
  induction children as [|[c v] cs IHcs]; constructor; [apply IH | apply IHcs].
Qed.

(** A property of the builder that creating a snapshot and writing through a
    pointer keep is kept by the whole walk. *)
Lemma updateSnapshotsInHierarchy_keeps (I : LayerSnapshotBuilder -> Prop) :
  (forall b id layer, I b -> I (snd (getOrCreateSnapshot b id layer))) ->
  (forall b p v, I b -> I (store p v b)) ->
  forall args h traversalPath parent b b',
    I b ->
    updateSnapshotsInHierarchy args h traversalPath parent b = Some b' ->
    I b'.
Proof.
  intros Hcreate Hstore args h.
  induction h as [layer children IH] using LayerHierarchy_children_ind.
  intros traversalPath parent b b' Hb. simpl.
  pose proof (Hcreate b traversalPath layer Hb) as Hb1.
  destruct (getOrCreateSnapshot b traversalPath layer) as [sp b1]; simpl in Hb1.
  destruct (deref b1 parent) as [parentV|]; [|done]. simpl.
  destruct (heap b1 !! sp) as [snapshot|]; [|done]. simpl.
  match goal with
  | |- (@mbind _ _ _ _ _ ?u) = Some _ -> _ =>
    destruct u as [snapshot'|]; [|done]
  end.
  simpl.
  pose proof (Hstore b1 sp snapshot' Hb1) as Hb2.
  destruct (isHiddenByPolicy snapshot'
            && negb (any (changes snapshot') {[Visibility; Hierarchy]})).
  { by intros [= <-]. }
  generalize dependent (store sp snapshot' b1). clear Hb Hb1.
  induction children as [|[c v] cs IHcs]; intros b2 Hb2.
  { by intros [= <-]. }
  apply Forall_cons in IH as [IHc IHrest]. simpl in IHc.
  destruct c as [childLayer grandChildren].
  destruct (updateSnapshotsInHierarchy args
              (mkLayerHierarchy childLayer grandChildren)
              (addToTraversalPath traversalPath (rq_id childLayer) v)
              (HeapRef sp) b2) as [b3|] eqn:Hchild; [|done].
  simpl. intros Hrest.
  apply (IHcs IHrest b3); [|done].
  eapply IHc; [exact Hb2 | exact Hchild].
Qed.

Lemma foldl_option_keeps {A B} (I : A -> Prop) (f : A -> B -> option A)
    (l : list B) :
  (forall a x a', I a -> f a x = Some a' -> I a') ->
  forall (oa : option A) a',
    (forall a, oa = Some a -> I a) ->
    foldl (fun oa x => a ← oa; f a x) oa l = Some a' -> I a'.
Proof.
  intros Hstep. induction l as [|x l IH]; intros oa a' Hoa; simpl.
  - intros ->. by apply Hoa.
  - apply IH. intros a Ha.
    destruct oa as [a0|]; [|done]. simpl in Ha.
    eapply Hstep; [|exact Ha]. by apply Hoa.
Qed.

Lemma sortVisitor_keeps (I : LayerSnapshotBuilder -> Prop) :
  (forall b p v, I b -> I (store p v b)) ->
  (forall b l, I b -> I (set_mSnapshots l b)) ->
  forall p z b r z' b',
    I b -> sortVisitor p (z, b) = Some (r, (z', b')) -> I b'.
Proof.
  intros Hstore Hset p z b r z' b' Hb. unfold sortVisitor.
  destruct (getSnapshot b p) as [q|]; [|by intros [= <- <- <-]]. 
  destruct (heap b !! q) as [snapshot|]; [|done]. simpl.
  destruct (isHiddenByPolicy snapshot
            && negb (test (changes snapshot) Visibility));
    [by intros [= <- <- <-]|].
  destruct (isVisible snapshot); [|by intros [= <- <- <-]].
  case_bool_decide; [intros [= <- <- <-]; by apply Hstore|].
  repeat step_bind.
  intros [= <- <- <-]. apply Hset. by do 2 apply Hstore.
Qed.

Lemma traverseInZOrder_keeps (I : LayerSnapshotBuilder -> Prop) :
  (forall b p v, I b -> I (store p v b)) ->
  (forall b l, I b -> I (set_mSnapshots l b)) ->
  forall t z b z' b',
    I b -> traverseInZOrder t (z, b) = Some (z', b') -> I b'.
Proof.
  intros Hstore Hset t.
  induction t as [|p t1 IH1 t2 IH2]; intros z b z' b' Hb; simpl.
  - by intros [= <- <-].
  - destruct (sortVisitor p (z, b)) as [[r [z1 b1]]|] eqn:Hv; [|done].
    simpl. pose proof (sortVisitor_keeps I Hstore Hset _ _ _ _ _ _ Hb Hv).
    destruct r; [by apply IH1 | by apply IH2].
Qed.

Lemma markInvisibleFrom_keeps (I : LayerSnapshotBuilder -> Prop) :
  (forall b p v, I b -> I (store p v b)) ->
  forall z b b', I b -> markInvisibleFrom z b = Some b' -> I b'.
Proof.
  intros Hstore z b b' Hb. unfold markInvisibleFrom.
  apply (foldl_option_keeps I); [|by intros ? [= <-]].
  intros a i a' Ha. repeat step_bind.
  intros [= <-]. by do 2 apply Hstore.
Qed.

Lemma sortSnapshotsByZ_keeps (I : LayerSnapshotBuilder -> Prop) :
  (forall b p v, I b -> I (store p v b)) ->
  (forall b l, I b -> I (set_mSnapshots l b)) ->
  forall args b b', I b -> sortSnapshotsByZ args b = Some b' -> I b'.
Proof.
  intros Hstore Hset args b b' Hb. unfold sortSnapshotsByZ.
  destruct (negb (forceUpdate args) && _); [by intros [= <-]|].
  destruct (traverseInZOrder _ _) as [[z b1]|] eqn:Ht; [|done]. simpl.
  apply (markInvisibleFrom_keeps I Hstore).
  by eapply traverseInZOrder_keeps.
Qed.

Lemma destroySnapshots_root ids turns it b b' :
  destroySnapshots ids turns it b = Some b' ->
  mRootSnapshot b' = mRootSnapshot b.
Proof.
  revert it b. induction turns as [|turns IH]; intros it b; simpl.
  - by intros [= <-].
  - case_bool_decide; [|by intros [= <-]].
    destruct (mSnapshots b !! it) as [p|]; [|done]. simpl.
    destruct (heap b !! p) as [s|]; [|done]. simpl.
    case_bool_decide; [apply IH|].
    destruct (last (mSnapshots b)) as [lastp|]; [|done]. simpl.
    intros Hrest. by apply IH in Hrest.
Qed.

Lemma getOrCreateSnapshot_root b id layer :
  mRootSnapshot (snd (getOrCreateSnapshot b id layer)) = mRootSnapshot b.
Proof. unfold getOrCreateSnapshot. by destruct (getSnapshot b id). Qed.

End preservation.

Section root_bounds_update.
Context {FO : FloatOps} {GO : GeometryOps} {HO : HierarchyOps}
        {PO : PayloadOps} {SO : SnapshotOps}.

Lemma getMaxDisplayBounds_size (displays : list (Z * DisplayInfo)) :
  getMaxDisplayBounds displays
  = bounds_of_size (getWidth (maxDisplaySize displays))
                   (getHeight (maxDisplaySize displays)).
Proof. reflexivity. Qed.

(** The full walk leaves the root snapshot's bounds as its first statements
    set them. *)
Lemma updateSnapshots_root_bounds args b b' :
  updateSnapshots args b = Some b' ->
  geomLayerBounds (mRootSnapshot b')
  = if forceUpdate args || displayChanges args
    then getMaxDisplayBounds (displays args)
    else geomLayerBounds (mRootSnapshot b).
Proof.
  unfold updateSnapshots.
  set (X := if forceUpdate args || displayChanges args
            then getMaxDisplayBounds (displays args)
            else geomLayerBounds (mRootSnapshot b)).
  set (I := fun b0 : LayerSnapshotBuilder =>
              geomLayerBounds (mRootSnapshot b0) = X).
  assert (Hstore : forall b0 p v, I b0 -> I (store p v b0)) by done.
  assert (Hset : forall b0 l, I b0 -> I (set_mSnapshots l b0)) by done.
  assert (Hcreate : forall b0 id layer,
            I b0 -> I (snd (getOrCreateSnapshot b0 id layer))).
  { intros b0 id layer Hb0. unfold I. by rewrite getOrCreateSnapshot_root. }
  match goal with
  | |- (@mbind _ _ _ _ _ (foldl _ (Some ?b0) _)) = _ -> _ =>
    assert (I b0) as Hb0
  end.
  { unfold I, X.
    destruct (forceUpdate args), (displayChanges args); reflexivity. }
  step_bind.
  match goal with
  | E : foldl _ _ _ = Some ?b1 |- _ =>
    assert (I b1) as Hb1
  end.
  { revert E. apply (foldl_option_keeps I); [|by intros ? [= <-]].
    intros a [[childLayer grandChildren] variant] a' Ha.
    by apply (updateSnapshotsInHierarchy_keeps I Hcreate Hstore). }
  step_bind.
  match goal with
  | E : sortSnapshotsByZ _ _ = Some ?b2 |- _ =>
    assert (I b2) as Hb2 by
      exact (sortSnapshotsByZ_keeps I Hstore Hset _ _ _ Hb1 E)
  end.
  destruct (getDestroyedLayers (layerLifecycleManager args)).
  - intros [= <-]. exact Hb2.
  - intros Hd. apply destroySnapshots_root in Hd. rewrite Hd. exact Hb2.
Qed.

(** After a full walk that is forced or has display changes (and so after
    every forced update), the root snapshot's bounds are the rectangle
    [[-10 W, -10 H, 10 W, 10 H]]: with an empty display registry
    [W = H = 5000]; otherwise [W] and [H] are the maxima of the logical width
    and the logical height over the registered displays, whose sizes are not
    below [ui::kEmptySize]. *)
Theorem root_bounds_recomputed args b b' :
  (forceUpdate args = true /\ update args b = Some b')
  \/ (forceUpdate args || displayChanges args = true
      /\ updateSnapshots args b = Some b') ->
  Forall (fun kv => getWidth kEmptySize <= logicalWidth (snd kv)
                    /\ getHeight kEmptySize <= logicalHeight (snd kv))
         (displays args) ->
  exists W H,
    geomLayerBounds (mRootSnapshot b') = bounds_of_size W H
    /\ match displays args with
       | [] => W = 5000 /\ H = 5000
       | _ => is_max_over logicalWidth (displays args) W
              /\ is_max_over logicalHeight (displays args) H
       end.
Proof.
  intros Hrun Hsizes.
  assert (forceUpdate args || displayChanges args = true
          /\ updateSnapshots args b = Some b') as [Hforce Hwalk].
  { destruct Hrun as [[Hf Hu]|?]; [|done].
    split; [by rewrite Hf|].
    unfold update, tryFastUpdate in Hu. by rewrite Hf in Hu. }
  apply updateSnapshots_root_bounds in Hwalk. rewrite Hforce in Hwalk.
  exists (getWidth (maxDisplaySize (displays args))),
         (getHeight (maxDisplaySize (displays args))).
  split; [by rewrite Hwalk, getMaxDisplayBounds_size|].
  destruct (displays args) as [|d ds] eqn:Hd; [done|].
  by apply maxDisplaySize_is_max.
Qed.

End root_bounds_update.

(** ** Input geometry and drop-input policy *)

Section input.
Context {FO : FloatOps} {GO : GeometryOps} {HO : HierarchyOps}
        {PO : PayloadOps} {SO : SnapshotOps}.

Lemma updateLayerBounds_geomLayerTransform s rq parent rot :
  geomLayerTransform (updateLayerBounds s rq parent rot)
  = absoluteTransform rq parent rot.
Proof.
  unfold updateLayerBounds, absoluteTransform. cbn.
  by destruct (isTransformValid _); cbn;
    destruct (rect_isEmpty (rq_crop rq)).
Qed.

Lemma updateLayerBounds_parentTransform s rq parent rot :
  parentTransform (updateLayerBounds s rq parent rot)
  = geomLayerTransform parent.
Proof. reflexivity. Qed.

Lemma updateLayerBounds_localTransform s rq parent rot :
  localTransform (updateLayerBounds s rq parent rot)
  = rq_getTransform rq rot.
Proof.
  unfold updateLayerBounds. cbn.
  by destruct (isTransformValid _); cbn;
    destruct (rect_isEmpty (rq_crop rq)).
Qed.

Lemma updateLayerBounds_geomInverseLayerTransform s rq parent rot :
  geomInverseLayerTransform (updateLayerBounds s rq parent rot)
  = t_inverse (absoluteTransform rq parent rot).
Proof.
  unfold updateLayerBounds, absoluteTransform. cbn.
  by destruct (isTransformValid _); cbn;
    destruct (rect_isEmpty (rq_crop rq)).
Qed.

Lemma updateLayerBounds_transformedBounds s rq parent rot :
  transformedBounds (updateLayerBounds s rq parent rot)
  = transformF (absoluteTransform rq parent rot)
      (geomLayerBounds (updateLayerBounds s rq parent rot)).
Proof.
  unfold updateLayerBounds, absoluteTransform. cbn.
  by destruct (isTransformValid _); cbn;
    destruct (rect_isEmpty (rq_crop rq)).
Qed.

Lemma updateLayerBounds_cursorFrame s rq parent rot :
  cursorFrame (updateLayerBounds s rq parent rot)
  = transformR (absoluteTransform rq parent rot)
      (reduce (croppedBufferSize (updateLayerBounds s rq parent rot))
         (rq_transparentRegion rq)).
Proof.
  unfold updateLayerBounds, absoluteTransform. cbn.
  by destruct (isTransformValid _); cbn;
    destruct (rect_isEmpty (rq_crop rq)).
Qed.

Lemma updateLayerBounds_invalidTransform s rq parent rot :
  invalidTransform (updateLayerBounds s rq parent rot)
  = negb (isTransformValid
            (t_mul (geomLayerTransform parent) (rq_getTransform rq rot))).
Proof.
  unfold updateLayerBounds. cbn.
  by destruct (isTransformValid _); cbn;
    destruct (rect_isEmpty (rq_crop rq)).
Qed.

Lemma Rect_eta (r : Rect) :
  mkRect (r_left r) (r_top r) (r_right r) (r_bottom r) = r.
Proof. by destruct r. Qed.

Lemma insetBoundsInLayer_cleared info s :
  insetBoundsInLayer (set_touchableRegion region_empty info) s
  = insetBoundsInLayer info s.
Proof. reflexivity. Qed.

(** The frame and the display-to-input transform that [fillInputFrameInfo]
    stores are computed from [layerToDisplay]. *)
Lemma fillInputFrameInfo_uses_layerToDisplay info screenToDisplay s :
  exists bounds inputToLayer,
    let info' := fillInputFrameInfo info screenToDisplay s in
    mkRect (frameLeft info') (frameTop info') (frameRight info')
           (frameBottom info')
    = Rect_of_FloatRect
        (transformF (layerToDisplay screenToDisplay s) bounds)
    /\ wi_transform info'
       = t_inverse (t_mul (layerToDisplay screenToDisplay s) inputToLayer).
Proof.
  exists (frect_intersect (geomLayerBounds s) (insetBoundsInLayer info s)),
    (t_set t_identity (fr_left (insetBoundsInLayer info s))
       (fr_top (insetBoundsInLayer info s))).
  unfold fillInputFrameInfo.
  destruct (rect_isValid (getInputBounds s));
    rewrite ?insetBoundsInLayer_cleared;
    (split; [apply Rect_eta | reflexivity]).
Qed.

(** C2, as amended. For every snapshot whose geometry and input frame are
    computed, the frame and the display-to-input transform are built from
    the display's screen transform composed with the layer-to-screen
    transform, which is the parent's absolute transform when the node has a
    buffer or sideband stream, and otherwise the node's own absolute
    transform: the parent's absolute transform composed with the node's
    local transform (the identity when that product is not valid). *)
Theorem input_transform_is_absolute info screenToDisplay s0 rq parent rot :
  let s := updateLayerBounds s0 rq parent rot in
  let layerToScreen :=
    if hasBufferOrSidebandStream s then geomLayerTransform parent
    else absoluteTransform rq parent rot in
  getInputTransform s = layerToScreen
  /\ exists bounds inputToLayer,
       let info' := fillInputFrameInfo info screenToDisplay s in
       mkRect (frameLeft info') (frameTop info') (frameRight info')
              (frameBottom info')
       = Rect_of_FloatRect
           (transformF (t_mul screenToDisplay layerToScreen) bounds)
       /\ wi_transform info'
          = t_inverse
              (t_mul (t_mul screenToDisplay layerToScreen) inputToLayer).
Proof.
  intros s layerToScreen.
  assert (getInputTransform s = layerToScreen) as Hchoice.
  { unfold getInputTransform, layerToScreen, s.
    rewrite updateLayerBounds_geomLayerTransform,
      updateLayerBounds_parentTransform.
    by destruct (hasBufferOrSidebandStream _). }
  split; [done|].
  destruct (fillInputFrameInfo_uses_layerToDisplay info screenToDisplay s)
    as (bounds & inputToLayer & Hframe & Htransform).
  exists bounds, inputToLayer.
  unfold layerToDisplay in Hframe, Htransform.
  by rewrite Hchoice in Hframe, Htransform.
Qed.

(** [updateSnapshot] fails only through the unchecked read of
    [requested.bufferData]. *)
Lemma updateBuffer_returns s rq rot :
  (is_BT2020_ITU_PQ (rq_dataspace rq)
   && is_NATIVE_WINDOW_API_MEDIA (rq_api rq) = true ->
   is_Some (rq_bufferData rq)) ->
  is_Some (updateBuffer s rq rot).
Proof.
  intros Hbd. unfold updateBuffer.
  destruct (is_BT2020_ITU_PQ _ && _); cbn; [|by eexists].
  destruct Hbd as [bd ->]; [done|]. cbn. by eexists.
Qed.

Lemma updateSnapshot_returns gs s args rq parent path :
  (is_BT2020_ITU_PQ (rq_dataspace rq)
   && is_NATIVE_WINDOW_API_MEDIA (rq_api rq) = true ->
   is_Some (rq_bufferData rq)) ->
  is_Some (updateSnapshot gs s args rq parent path).
Proof.
  intros Hbd. unfold updateSnapshot. cbv zeta.
  match goal with |- is_Some (if ?c then _ else _) => destruct c end;
    [by eexists|].
  match goal with
  | |- is_Some (@mbind _ _ _ _ _ (if ?c then updateBuffer ?x _ _ else _)) =>
    destruct c;
      [destruct (updateBuffer_returns x rq
                   (getDisplayRotationFlags (displays args)
                      (layerStack (outputFilter
                         (set_contentDirty
                            (has_bits (rq_what rq) CONTENT_DIRTY)
                            (set_isHiddenByPolicyFromParent
                               (isHiddenByPolicyFromParent parent
                                || rq_isHiddenByPolicy rq)
                               (set_changes
                                  (changes parent
                                   ∩ {[Hierarchy; Geometry; Visibility;
                                       Metadata; AffectsChildren]}
                                   ∪ rq_changes rq) s)))))) Hbd)
         as [s' Hs']|]
  end.
  - cbn in Hs'. cbn. rewrite Hs'. cbn. by eexists.
  - cbn. by eexists.
Qed.

(** C8. When the product of the parent's absolute transform and the node's
    local transform is not valid, [updateLayerBounds] records the fact and
    resets the node's absolute transform to the identity before it computes
    the inverse, the transformed bounds and the cursor frame, and every child
    updated against this snapshot composes with the identity. The update is a
    total function of its inputs: nothing is raised, and the enclosing
    [updateSnapshot] returns whenever the layer's buffer data is present
    where it is read. *)
Theorem invalid_transform_reset_to_identity s rq parent rot :
  isTransformValid
    (t_mul (geomLayerTransform parent) (rq_getTransform rq rot)) = false ->
  let s' := updateLayerBounds s rq parent rot in
  invalidTransform s' = true
  /\ geomLayerTransform s' = t_identity
  /\ geomInverseLayerTransform s' = t_inverse t_identity
  /\ transformedBounds s' = transformF t_identity (geomLayerBounds s')
  /\ cursorFrame s'
     = transformR t_identity
         (reduce (croppedBufferSize s') (rq_transparentRegion rq))
  /\ (forall child rq' rot',
        parentTransform (updateLayerBounds child rq' s' rot') = t_identity
        /\ geomLayerTransform (updateLayerBounds child rq' s' rot')
           = if isTransformValid (t_mul t_identity (rq_getTransform rq' rot'))
             then t_mul t_identity (rq_getTransform rq' rot')
             else t_identity)
  /\ (forall gs args path,
        (is_BT2020_ITU_PQ (rq_dataspace rq)
         && is_NATIVE_WINDOW_API_MEDIA (rq_api rq) = true ->
         is_Some (rq_bufferData rq)) ->
        is_Some (updateSnapshot gs s args rq parent path)).
Proof.
  intros Hinvalid s'.
  assert (absoluteTransform rq parent rot = t_identity) as Habs.
  { unfold absoluteTransform. cbv zeta. by rewrite Hinvalid. }
  assert (geomLayerTransform s' = t_identity) as Hid.
  { unfold s'. by rewrite updateLayerBounds_geomLayerTransform. }
  split; [unfold s'; by rewrite updateLayerBounds_invalidTransform, Hinvalid|].
  split; [done|].
  split; [unfold s'; by rewrite updateLayerBounds_geomInverseLayerTransform,
                       Habs|].
  split; [unfold s'; by rewrite updateLayerBounds_transformedBounds, Habs|].
  split; [unfold s'; by rewrite updateLayerBounds_cursorFrame, Habs|].
  split.
  - intros child rq' rot'.
    rewrite updateLayerBounds_parentTransform,
      updateLayerBounds_geomLayerTransform.
    unfold absoluteTransform. by rewrite Hid.
  - intros gs args path Hbd. by apply updateSnapshot_returns.
Qed.

End input.

Section drop_input.
Context {FO : FloatOps} {GO : GeometryOps} {HO : HierarchyOps}
        {PO : PayloadOps} {SO : SnapshotOps}.

Lemma inheritedDropInputMode_most_restrictive rq parent :
  inheritedDropInputMode rq parent
  = most_restrictive (rq_dropInputMode rq) (dropInputMode parent).
Proof.
  unfold inheritedDropInputMode, most_restrictive.
  by destruct (rq_dropInputMode rq), (dropInputMode parent).
Qed.

Lemma add_inputConfig_inputConfig flag s :
  inputConfig (inputInfo (add_inputConfig flag s))
  = inputConfig (inputInfo s) ∪ {[flag]}.
Proof. reflexivity. Qed.

Lemma handleDropInputMode_dropInputMode s parent :
  dropInputMode (handleDropInputMode s parent) = dropInputMode s.
Proof.
  unfold handleDropInputMode.
  repeat match goal with
         | |- context [if ?c then _ else _] => destruct c; cbn
         end; reflexivity.
Qed.


(** The drop mode that [updateInput] leaves on a layer with input info is
    the one [resolveDropInput] settles. *)
Lemma updateInput_dropInputMode gs s rq parent d noValidDisplay path :
  rq_hasInputInfo rq = true ->
  dropInputMode (updateInput gs s rq parent d noValidDisplay path)
  = most_restrictive (rq_dropInputMode rq) (dropInputMode parent).
Proof.
  intros Hinput. unfold updateInput. rewrite Hinput. cbv zeta.
  change (negb true) with false. cbv iota.
  assert (forall g x, dropInputMode (applyCloneCrop g d path x)
                      = dropInputMode x) as ->.
  { intros g x. unfold applyCloneCrop.
    destruct (isClone path); [|done]. by destruct (g _). }
  assert (forall x, dropInputMode (inTrusted x) = dropInputMode x) as ->.
  { intros x. unfold inTrusted. by destruct (isTrustedOverlay x). }
  assert (forall c x, dropInputMode (applyTouchCrop c d x) = dropInputMode x)
    as ->.
  { intros c x. unfold applyTouchCrop.
    destruct (replaceTouchableRegionWithCrop _); [done|]. by destruct c. }
  assert (forall x, dropInputMode (inSecure d x) = dropInputMode x) as ->.
  { intros x. unfold inSecure. by destruct (negb _ && _). }
  unfold resolveDropInput. rewrite handleDropInputMode_dropInputMode.
  apply inheritedDropInputMode_most_restrictive.
Qed.

End drop_input.

(** ** Rounded corners *)

Section rounded_corner.
Context {FO : FloatOps} {GO : GeometryOps} {HO : HierarchyOps}
        {PO : PayloadOps} {SO : SnapshotOps}.

(** C6. When both the node's own rounded-corner settings and the parent's
    state reprojected into the node's local space are valid, the snapshot
    takes the parent's reprojected state exactly when the parent's corner
    rectangle is strictly inside the node's crop rectangle on all four edges,
    and the node's own settings otherwise; when exactly one of them is valid
    that one is used; when neither is valid the snapshot has the default
    state, without rounded corners. *)
Theorem rounded_corner_choice s rq parent :
  let own := ownCornerSettings s rq in
  let inherited := parentCornerInLocalSpace s parent in
  roundedCorner (updateRoundedCorner s rq parent)
  = match ownCornerValid s rq, hasRoundedCorners inherited with
    | true, true =>
      if strictly_inside (cropRect inherited) (cropRect own)
      then inherited else own
    | true, false => own
    | false, true => inherited
    | false, false => RoundedCornerState_default
    end.
Proof.
  intros own inherited.
  unfold updateRoundedCorner. cbn.
  fold (parentCornerInLocalSpace s parent). fold inherited.
  fold (ownCornerSettings s rq). fold own.
  change (hasRoundedCorners own
          && negb (frect_isEmpty (toFloatRect (croppedBufferSize s))))
    with (ownCornerValid s rq).
  destruct (ownCornerValid s rq), (hasRoundedCorners inherited); cbn;
    try reflexivity.
  unfold strictly_inside. cbn.
  by destruct (fltb _ _ && fltb _ _ && fltb _ _ && fltb _ _).
Qed.

End rounded_corner.

(** ** Dangling cross-references of the input pass *)

Section touch_crop.
Context {FO : FloatOps} {GO : GeometryOps} {HO : HierarchyOps}
        {PO : PayloadOps} {SO : SnapshotOps}.

Lemma handleDropInputMode_frame s parent :
  touchableRegion (inputInfo (handleDropInputMode s parent))
  = touchableRegion (inputInfo s)
  /\ replaceTouchableRegionWithCrop (inputInfo (handleDropInputMode s parent))
     = replaceTouchableRegionWithCrop (inputInfo s)
  /\ transformedBounds (handleDropInputMode s parent) = transformedBounds s.
Proof.
  unfold handleDropInputMode.
  repeat match goal with
         | |- context [if ?c then _ else _] => destruct c; cbn
         end; done.
Qed.

Lemma updateInput_steps gs s rq parent d noValidDisplay path :
  rq_hasInputInfo rq = true ->
  updateInput gs s rq parent d noValidDisplay path
  = let mid := beforeTouchCrop s rq parent d noValidDisplay in
    let cropped := applyTouchCrop (gs mid (rq_touchCropId rq)) d mid in
    applyCloneCrop (gs (inTrusted cropped)) d path (inTrusted cropped).
Proof.
  intros Hinput. unfold updateInput. by rewrite Hinput.
Qed.

Lemma touchInputs_handleDropInputMode s parent :
  touchInputs (handleDropInputMode s parent) = touchInputs s.
Proof.
  unfold handleDropInputMode.
  repeat match goal with
         | |- context [if ?c then _ else _] => destruct c; cbn
         end; done.
Qed.

Lemma touchInputs_beforeTouchCrop s rq parent d noValidDisplay :
  touchInputs (beforeTouchCrop s rq parent d noValidDisplay)
  = (touchableRegion
       (fillInputFrameInfo (inputInfo (inDisplayId s)) (di_transform d)
          (inDisplayId s)),
     replaceTouchableRegionWithCrop (inputInfo s),
     transformedBounds s).
Proof.
  unfold beforeTouchCrop.
  assert (forall x, touchInputs (inSecure d x) = touchInputs x) as ->.
  { intros x. unfold inSecure. by destruct (negb _ && _). }
  unfold resolveDropInput. rewrite touchInputs_handleDropInputMode.
  assert (forall m x, touchInputs (set_dropInputMode m x) = touchInputs x)
    as -> by done.
  assert (forall x, touchInputs (inOcclusion parent x) = touchInputs x)
    as -> by done.
  assert (forall x, touchInputs (inAlpha x) = touchInputs x) as -> by done.
  assert (forall x, touchInputs (inVisible rq x) = touchInputs x) as -> by done.
  assert (forall x, touchInputs (inNotTouchable noValidDisplay x)
                    = touchInputs x) as ->.
  { intros x. unfold inNotTouchable. by destruct noValidDisplay. }
  unfold touchInputs, inFrame. cbn [inputInfo set_inputInfo transformedBounds].
  f_equal. f_equal. unfold fillInputFrameInfo.
  by destruct (rect_isValid (getInputBounds (inDisplayId s))).
Qed.

Lemma touchableRegion_inTrusted s :
  touchableRegion (inputInfo (inTrusted s)) = touchableRegion (inputInfo s).
Proof. unfold inTrusted. by destruct (isTrustedOverlay s). Qed.

(** A layer id without an entry in [mIdToSnapshot] resolves to nothing. *)
Lemma resolve_unregistered b self cur layerId :
  getSnapshotById b layerId = None -> resolve b self cur layerId = None.
Proof. intros Hid. unfold resolve. by rewrite Hid. Qed.

(** C9. A touch-crop target or a mirror root that [getSnapshot] does not
    resolve is treated as absent. Without a crop target the touch-crop block
    leaves the touchable region alone, or, when the window asks for its
    region to be replaced, uses the node's own transformed bounds; without a
    mirror root the clone block does not intersect the region. When both are
    unresolved, the region [updateInput] leaves is the one of the frame
    computation, or the node's own bounds. [updateInput] is a total function:
    nothing is raised. *)
Theorem dangling_cross_references_absent
    (gs : LayerSnapshot -> Z -> option LayerSnapshot)
    (s : LayerSnapshot) (rq : RequestedLayerState) (parent : LayerSnapshot)
    (d : DisplayInfo) (noValidDisplay : bool) (path : TraversalPath) :
  rq_hasInputInfo rq = true ->
  (forall cur, gs cur (rq_touchCropId rq) = None) ->
  (isClone path = true ->
   forall cur, gs cur (mirrorRootIds_back path) = None) ->
  let ownBounds :=
    region_of_rect
      (transformR (di_transform d) (Rect_of_FloatRect (transformedBounds s))) in
  (forall x,
     touchableRegion (inputInfo (applyTouchCrop None d x))
     = if replaceTouchableRegionWithCrop (inputInfo x)
       then region_of_rect
              (transformR (di_transform d)
                 (Rect_of_FloatRect (transformedBounds x)))
       else touchableRegion (inputInfo x))
  /\ (forall x,
        touchableRegion (inputInfo (applyCloneCrop (gs x) d path x))
        = touchableRegion (inputInfo x))
  /\ touchableRegion
       (inputInfo (updateInput gs s rq parent d noValidDisplay path))
     = if replaceTouchableRegionWithCrop (inputInfo s) then ownBounds
       else touchableRegion
              (fillInputFrameInfo (inputInfo (inDisplayId s)) (di_transform d)
                 (inDisplayId s)).
Proof.
  intros Hinput Hcrop Hroot ownBounds.
  assert (forall x,
     touchableRegion (inputInfo (applyTouchCrop None d x))
     = if replaceTouchableRegionWithCrop (inputInfo x)
       then region_of_rect
              (transformR (di_transform d)
                 (Rect_of_FloatRect (transformedBounds x)))
       else touchableRegion (inputInfo x)) as Hstep1.
  { intros x. unfold applyTouchCrop.
    by destruct (replaceTouchableRegionWithCrop (inputInfo x)). }
  assert (forall x,
        touchableRegion (inputInfo (applyCloneCrop (gs x) d path x))
        = touchableRegion (inputInfo x)) as Hstep2.
  { intros x. unfold applyCloneCrop.
    destruct (isClone path); [|done]. by rewrite Hroot. }
  split; [exact Hstep1|]. split; [exact Hstep2|].
  rewrite updateInput_steps by done. cbv zeta.
  rewrite Hstep2, touchableRegion_inTrusted, Hcrop, Hstep1.
  pose proof (touchInputs_beforeTouchCrop s rq parent d noValidDisplay) as Hmid.
  unfold touchInputs in Hmid. injection Hmid as -> -> ->. reflexivity.
Qed.

End touch_crop.

(** ** Nodes hidden by policy *)

Section hidden.
Context {FO : FloatOps} {GO : GeometryOps} {HO : HierarchyOps}
        {PO : PayloadOps} {SO : SnapshotOps}.

#[local] Abbreviation hid := isHiddenByPolicyFromParent.

(** Names the outermost [let] of the goal as a local definition. *)
Ltac name_let :=
  lazymatch goal with
  | |- context G [let x := ?e in @?b x] =>
    let y := fresh x in
    set (y := e);
    let g := context G [b y] in
    change g; cbv beta
  end.

Ltac split_ifs :=
  repeat match goal with
         | |- context [if ?c then _ else _] => destruct c; cbn
         end.

Lemma hid_updateInherited s rq parent :
  hid (updateInherited s rq parent) = hid s.
Proof. unfold updateInherited. by split_ifs. Qed.

Lemma hid_updateComposition s rq : hid (updateComposition s rq) = hid s.
Proof. reflexivity. Qed.

Lemma hid_updateBuffer s rq rot s' :
  updateBuffer s rq rot = Some s' -> hid s' = hid s.
Proof.
  unfold updateBuffer.
  destruct (if is_BT2020_ITU_PQ _ && _ then _ else _) as [hdr|]; [|done].
  cbn. by intros [= <-].
Qed.

Lemma hid_updateContent s rq : hid (updateContent s rq) = hid s.
Proof. reflexivity. Qed.

Lemma hid_updateLayerBounds s rq parent rot :
  hid (updateLayerBounds s rq parent rot) = hid s.
Proof. unfold updateLayerBounds. cbn. by split_ifs. Qed.

Lemma hid_updateRoundedCorner s rq parent :
  hid (updateRoundedCorner s rq parent) = hid s.
Proof.
  unfold updateRoundedCorner. cbv zeta.
  repeat match goal with
         | |- context [if ?c then set_roundedCorner ?a ?b else ?d] =>
           destruct c
         end; reflexivity.
Qed.

Lemma hid_handleDropInputMode s parent :
  hid (handleDropInputMode s parent) = hid s.
Proof. unfold handleDropInputMode. by split_ifs. Qed.

Lemma hid_updateInput gs s rq parent d noValidDisplay path :
  hid (updateInput gs s rq parent d noValidDisplay path) = hid s.
Proof.
  unfold updateInput. cbv zeta.
  destruct (negb (rq_hasInputInfo rq)); [reflexivity|].
  assert (forall g x, hid (applyCloneCrop g d path x) = hid x) as ->.
  { intros g x. unfold applyCloneCrop.
    destruct (isClone path); [|done]. by destruct (g _). }
  assert (forall x, hid (inTrusted x) = hid x) as ->.
  { intros x. unfold inTrusted. by destruct (isTrustedOverlay x). }
  assert (forall c x, hid (applyTouchCrop c d x) = hid x) as ->.
  { intros c x. unfold applyTouchCrop.
    destruct (replaceTouchableRegionWithCrop _); [done|]. by destruct c. }
  assert (forall x, hid (inSecure d x) = hid x) as ->.
  { intros x. unfold inSecure. by destruct (negb _ && _). }
  unfold resolveDropInput. rewrite hid_handleDropInputMode. cbn.
  unfold inNotTouchable. by destruct noValidDisplay.
Qed.

Lemma hid_updateShadows s rq g : hid (updateShadows s rq g) = hid s.
Proof. unfold updateShadows. cbn. by split_ifs. Qed.

Lemma hid_updateDerived s args rq parent :
  hid (updateDerived s args rq parent) = hid s.
Proof.
  unfold updateDerived. cbn.
  destruct (includeMetadata args); cbn; apply hid_updateShadows.
Qed.

Lemma updateSnapshot_hidden_flag gs s args rq parent path s' :
  updateSnapshot gs s args rq parent path = Some s' ->
  hid s' = hid parent || rq_isHiddenByPolicy rq.
Proof.
  cbv delta [updateSnapshot]. cbv beta.
  do 4 name_let.
  assert (hid snapshot1 = hid parent || rq_isHiddenByPolicy rq) as Hh
    by reflexivity.
  clearbody snapshot1. clear snapshot0 snapshot parentChanges.
  destruct (hid snapshot1) eqn:Hhid.
  { intros [= <-]. cbn. by rewrite <- Hh. }
  rewrite <- Hh, <- Hhid. clear Hh Hhid.
  do 4 name_let.
  assert (hid snapshot0 = hid snapshot1) as H0.
  { subst snapshot0 snapshot.
    destruct (forceUpdate0 || any _ _), (forceUpdate0 || negb _);
      by rewrite ?hid_updateComposition, ?hid_updateInherited. }
  clearbody snapshot0. clear snapshot.
  destruct (if forceUpdate0 || has_bits _ _ then _ else _)
    as [snapshot2|] eqn:Hbuf; [|done].
  assert (hid snapshot2 = hid snapshot1) as H2.
  { destruct (forceUpdate0 || has_bits _ _);
      [apply hid_updateBuffer in Hbuf | injection Hbuf as <-]; congruence. }
  clear Hbuf H0.
  lazymatch goal with
  | |- @mbind _ _ _ _ ?f (Some ?x) = _ -> _ =>
    change (@mbind _ _ _ _ f (Some x)) with (f x)
  end.
  cbv beta. do 3 name_let.
  intros [= <-]. rewrite hid_updateDerived, <- H2.
  subst snapshot4 snapshot3 snapshot.
  repeat match goal with
         | |- context [if ?c then _ else _] => destruct c
         end;
    cbv zeta;
    by rewrite ?hid_updateInput, ?hid_updateRoundedCorner,
         ?hid_updateLayerBounds, ?hid_updateContent.
Qed.

(** Recomputed against the root snapshot, which is never hidden, a node
    that is not hidden itself comes out not hidden, whatever its parent is;
    recomputed against a hidden parent it comes out hidden. *)
Lemma hidden_flag_follows_the_parent_given gs s args args' rq parent path
    rootSnapshot s1 s2 :
  hid rootSnapshot = false ->
  hid parent = true ->
  rq_isHiddenByPolicy rq = false ->
  updateSnapshot gs s args rq rootSnapshot ROOT = Some s1 ->
  updateSnapshot gs s args' rq parent path = Some s2 ->
  hid s1 = false /\ hid s2 = true.
Proof.
  intros Hroot Hparent Hown H1 H2.
  apply updateSnapshot_hidden_flag in H1, H2.
  by rewrite H1, H2, Hroot, Hparent, Hown.
Qed.

(** C7. In every per-node update the snapshot's hidden-by-policy-from-parent
    flag is the parent's flag or the layer's own policy-hidden flag. When
    that is true the update returns the snapshot with the change flags, the
    hidden flag, the content-dirty flag and the visible flag (false)
    assigned, and every other member (geometry, bounds, input, appearance,
    shadow and the rest) as it was. *)
Theorem hidden_node_keeps_other_fields gs s args rq parent path :
  (forall s',
     updateSnapshot gs s args rq parent path = Some s' ->
     hid s' = hid parent || rq_isHiddenByPolicy rq)
  /\ (hid parent || rq_isHiddenByPolicy rq = true ->
      updateSnapshot gs s args rq parent path
      = Some (hiddenUpdate s rq parent)
      /\ isVisible (hiddenUpdate s rq parent) = false
      /\ otherMembers (hiddenUpdate s rq parent) = otherMembers s).
Proof.
  split; [intros s'; apply updateSnapshot_hidden_flag|].
  intros Hhidden. split; [|split; reflexivity].
  cbv delta [updateSnapshot]. cbv beta zeta.
  change (hid (set_contentDirty ?c (set_isHiddenByPolicyFromParent ?h ?x)))
    with h.
  by rewrite Hhidden.
Qed.

End hidden.

(** ** The z-order pass *)

Section z_order.
Context {FO : FloatOps} {GO : GeometryOps} {HO : HierarchyOps}
        {PO : PayloadOps} {SO : SnapshotOps}.

Lemma heap_store_eq p v b : heap (store p v b) !! p = Some v.
Proof. unfold store. cbn. apply lookup_insert_eq. Qed.

Lemma heap_store_ne p q v b : p <> q -> heap (store p v b) !! q = heap b !! q.
Proof. intros Hne. unfold store. cbn. by apply lookup_insert_ne. Qed.

Lemma sortVisitor_skips p z b ptr s :
  getSnapshot b p = Some ptr ->
  heap b !! ptr = Some s ->
  visited s = true ->
  isVisible s = false ->
  sortVisitor p (z, b) = Some (true, (z, b)).
Proof.
  intros Hp Hs Hv Hvis. unfold sortVisitor. rewrite Hp, Hs. cbn.
  unfold visited in Hv. apply negb_true_iff in Hv. by rewrite Hv, Hvis.
Qed.

Lemma sortVisitor_assigns p z b ptr s q :
  NoDup (mSnapshots b) ->
  getSnapshot b p = Some ptr ->
  heap b !! ptr = Some s ->
  visited s = true ->
  isVisible s = true ->
  mSnapshots b !! globalZ s = Some ptr ->
  mSnapshots b !! z = Some q ->
  is_Some (heap b !! q) ->
  exists b',
    sortVisitor p (z, b) = Some (true, (S z, b'))
    /\ mSnapshots b' = <[z := ptr]> (<[globalZ s := q]> (mSnapshots b))
    /\ globalZ <$> heap b' !! ptr = Some z
    /\ globalZ <$> heap b' !! q = Some (if bool_decide (q = ptr) then z
                                        else globalZ s)
    /\ (forall r, r <> ptr -> r <> q -> heap b' !! r = heap b !! r)
    /\ mRootSnapshot b' = mRootSnapshot b
    /\ mIdToSnapshot b' = mIdToSnapshot b.
Proof.
  intros Hnd Hp Hs Hv Hvis Hold Hnew [other Hother].
  unfold sortVisitor. rewrite Hp, Hs. cbn.
  unfold visited in Hv. apply negb_true_iff in Hv. rewrite Hv, Hvis.
  case_bool_decide as Hz.
  - (* already in place *)
    assert (q = ptr) as -> by congruence.
    eexists. split; [reflexivity|]. unfold store. cbn.
    rewrite Hz in *.
    do 2 rewrite (list_insert_id (mSnapshots b) z ptr) by done.
    rewrite bool_decide_eq_true_2 by done.
    rewrite lookup_insert_eq. cbn.
    split; [done|]. split; [done|]. split; [done|].
    split; [|done].
    intros r Hr _. by rewrite lookup_insert_ne.
  - assert (q <> ptr) as Hq.
    { intros ->. apply Hz.
      exact (NoDup_lookup (mSnapshots b) (globalZ s) z ptr Hnd Hold Hnew). }
    unfold store. cbn. rewrite Hnew. cbn.
    rewrite lookup_insert_ne by done. rewrite Hother. cbn.
    rewrite Hold. cbn.
    eexists. split; [reflexivity|]. cbn.
    rewrite bool_decide_eq_false_2 by done.
    rewrite lookup_insert_ne by done. rewrite !lookup_insert_eq. cbn.
    repeat split; try done.
    intros r Hr1 Hr2. by rewrite !lookup_insert_ne.
Qed.

(** The closing loop, one position at a time. *)
Lemma markInvisible_loop (is_ : list nat) (b : LayerSnapshotBuilder) :
  NoDup (mSnapshots b) ->
  (forall i, i ∈ is_ -> exists p, mSnapshots b !! i = Some p
                                 /\ is_Some (heap b !! p)) ->
  NoDup is_ ->
  exists b',
    foldl
      (fun ob i =>
         b ← ob;
         p ← mSnapshots b !! i;
         snapshot ← heap b !! p;
         let b := store p (set_globalZ i snapshot) b in
         snapshot ← heap b !! p;
         Some (store p (set_isVisible false snapshot) b))
      (Some b) is_ = Some b'
    /\ mSnapshots b' = mSnapshots b
    /\ mRootSnapshot b' = mRootSnapshot b
    /\ mIdToSnapshot b' = mIdToSnapshot b
    /\ dom (heap b') = dom (heap b)
    /\ (forall i p, i ∈ is_ -> mSnapshots b !! i = Some p ->
          exists s, heap b !! p = Some s
            /\ heap b' !! p = Some (set_isVisible false (set_globalZ i s)))
    /\ (forall p, (forall i, i ∈ is_ -> mSnapshots b !! i <> Some p) ->
          heap b' !! p = heap b !! p).
Proof.
  revert b. induction is_ as [|i is_ IH]; intros b Hnd Hin Hndi.
  { exists b. cbn. repeat split; try done.
    intros i p Hi. by apply elem_of_nil in Hi. }
  destruct (Hin i) as (p & Hp & s & Hs); [apply elem_of_cons; by left|].
  apply NoDup_cons in Hndi as [Hi Hndi].
  set (b1 := store p (set_isVisible false (set_globalZ i s)) 
               (store p (set_globalZ i s) b)).
  destruct (IH b1) as (b' & Hrun & Hms & Hroot & Hmap & Hdom & Hset & Hkeep);
    [done| |done|].
  { intros j Hj. destruct (Hin j) as (pj & Hpj & sj & Hsj);
      [apply elem_of_cons; by right|].
    exists pj. split; [done|]. unfold b1, store. cbn.
    destruct (decide (pj = p)) as [->|Hne].
    - rewrite lookup_insert_eq. by eexists.
    - rewrite !lookup_insert_ne by done. by eexists. }
  change (mSnapshots b1) with (mSnapshots b) in *.
  exists b'. split.
  { cbn. rewrite Hp. cbn. rewrite Hs. cbn.
    rewrite heap_store_eq. cbn. exact Hrun. }
  split; [done|]. split; [done|]. split; [done|].
  split.
  { rewrite Hdom. unfold b1, store. cbn. rewrite !dom_insert_L.
    assert (p ∈ dom (heap b)) by (apply elem_of_dom; by eexists).
    set_solver. }
  split.
  - intros j pj [->|Hj]%elem_of_cons Hpj.
    + assert (pj = p) as -> by congruence.
      exists s. split; [done|].
      rewrite Hkeep.
      * unfold b1, store. cbn. by rewrite lookup_insert_eq.
      * intros k Hk Hkp. apply Hi.
        by rewrite <- (NoDup_lookup (mSnapshots b) k i p Hnd Hkp Hpj).
    + destruct (Hset j pj Hj Hpj) as (sj & Hsj & Hsj').
      assert (pj <> p) as Hne.
      { intros ->. apply Hi.
        by rewrite <- (NoDup_lookup (mSnapshots b) j i p Hnd Hpj Hp). }
      unfold b1, store in Hsj. cbn in Hsj.
      rewrite !lookup_insert_ne in Hsj by done.
      by exists sj.
  - intros q Hq. rewrite Hkeep.
    + unfold b1, store. cbn.
      assert (q <> p) as Hne.
      { intros ->. eapply Hq; [apply elem_of_cons; by left|done]. }
      by rewrite !lookup_insert_ne.
    + intros j Hj. apply Hq. apply elem_of_cons. by right.
Qed.

Lemma markInvisibleFrom_marks z b :
  NoDup (mSnapshots b) ->
  (forall p, p ∈ mSnapshots b -> is_Some (heap b !! p)) ->
  exists b',
    markInvisibleFrom z b = Some b'
    /\ mSnapshots b' = mSnapshots b
    /\ (forall i p, (z <= i)%nat -> mSnapshots b !! i = Some p ->
          exists s, heap b' !! p = Some s
                    /\ globalZ s = i /\ isVisible s = false)
    /\ (forall i p, (i < z)%nat -> mSnapshots b !! i = Some p ->
          heap b' !! p = heap b !! p).
Proof.
  intros Hnd Hheap. unfold markInvisibleFrom.
  destruct (markInvisible_loop
              (seq z (length (mSnapshots b) - z)) b Hnd)
    as (b' & Hrun & Hms & _ & _ & _ & Hset & Hkeep).
  { intros i [Hi1 Hi2]%elem_of_seq.
    destruct (lookup_lt_is_Some_2 (mSnapshots b) i) as [p Hp]; [lia|].
    exists p. split; [done|]. apply Hheap.
    by eapply list_elem_of_lookup_2. }
  { apply NoDup_seq. }
  exists b'. split; [done|]. split; [done|]. split.
  - intros i p Hi Hp.
    destruct (Hset i p) as (s & _ & Hs); [|done|].
    { apply elem_of_seq. apply lookup_lt_Some in Hp. lia. }
    by eexists.
  - intros i p Hi Hp. apply Hkeep.
    intros j [Hj1 Hj2]%elem_of_seq Hjp.
    pose proof (NoDup_lookup (mSnapshots b) j i p Hnd Hjp Hp). lia.
Qed.

Lemma NoDup_swap (l : list ptr) i j x y :
  NoDup l -> l !! i = Some x -> l !! j = Some y ->
  NoDup (<[j := x]> (<[i := y]> l)).
Proof.
  intros Hnd Hi Hj. apply NoDup_alt. intros a c v Ha Hc.
  assert (forall k w, <[j := x]> (<[i := y]> l) !! k = Some w ->
            exists k', l !! k' = Some w
                       /\ (k = j /\ k' = i \/ k = i /\ k <> j /\ k' = j
                           \/ k <> i /\ k <> j /\ k' = k)) as Hlook.
  { intros k w Hk.
    destruct (decide (k = j)) as [->|Hkj].
    - rewrite list_lookup_insert_eq in Hk
        by (rewrite length_insert; by eapply lookup_lt_Some).
      injection Hk as <-. exists i. split; [done|]. by left.
    - rewrite list_lookup_insert_ne in Hk by done.
      destruct (decide (k = i)) as [->|Hki].
      + rewrite list_lookup_insert_eq in Hk by (by eapply lookup_lt_Some).
        injection Hk as <-. exists j. split; [done|]. right. by left.
      + rewrite list_lookup_insert_ne in Hk by done.
        exists k. split; [done|]. right. by right. }
  destruct (Hlook a v Ha) as (a' & Ha' & Hca).
  destruct (Hlook c v Hc) as (c' & Hc' & Hcc).
  pose proof (NoDup_lookup l a' c' v Hnd Ha' Hc'). lia.
Qed.

Lemma Forall_allocated_store (l : list ptr) p v b :
  Forall (fun q => is_Some (heap b !! q)) l ->
  Forall (fun q => is_Some (heap (store p v b) !! q)) l.
Proof.
  intros Hall. eapply Forall_impl; [exact Hall|].
  intros q [w Hw].
  destruct (decide (p = q)) as [->|Hne].
  - rewrite heap_store_eq. by eexists.
  - rewrite heap_store_ne by done. by eexists.
Qed.

Lemma sortVisitor_wf p z b r z' b' :
  store_wf b -> sortVisitor p (z, b) = Some (r, (z', b')) -> store_wf b'.
Proof.
  intros [Hnd Hall]. unfold sortVisitor.
  destruct (getSnapshot b p) as [ptr|]; [|by intros [= <- <- <-]].
  destruct (heap b !! ptr) as [s|] eqn:Hs; [|done]. cbn.
  destruct (isHiddenByPolicy s && negb (test (changes s) Visibility));
    [by intros [= <- <- <-]|].
  destruct (isVisible s); [|by intros [= <- <- <-]].
  case_bool_decide as Hz.
  { intros [= <- <- <-]. split; [done|]. by apply Forall_allocated_store. }
  change (mSnapshots (store ptr (set_globalZ z s) b)) with (mSnapshots b).
  destruct (mSnapshots b !! z) as [q|] eqn:Hq; [|done]. cbn.
  destruct (heap (store ptr (set_globalZ z s) b) !! q) as [other|]; [|done].
  cbn.
  change (mSnapshots (store q (set_globalZ (globalZ s) other)
                        (store ptr (set_globalZ z s) b)))
    with (mSnapshots b).
  destruct (mSnapshots b !! globalZ s) as [atOld|] eqn:Hold; [|done]. cbn.
  rewrite Hq. cbn.
  intros [= <- <- <-].
  pose proof (Forall_allocated_store _ q (set_globalZ (globalZ s) other) _
                (Forall_allocated_store _ ptr (set_globalZ z s) _ Hall))
    as Hall2.
  split.
  - by apply NoDup_swap.
  - apply Forall_insert; [apply Forall_insert|].
    + exact Hall2.
    + eapply Forall_lookup_1 in Hall2; [exact Hall2|exact Hq].
    + eapply Forall_lookup_1 in Hall2; [exact Hall2|exact Hold].
Qed.

Lemma traverseInZOrder_wf t z b z' b' :
  store_wf b -> traverseInZOrder t (z, b) = Some (z', b') -> store_wf b'.
Proof.
  revert z b. induction t as [|p t1 IH1 t2 IH2]; intros z b Hwf; cbn.
  - by intros [= <- <-].
  - destruct (sortVisitor p (z, b)) as [[r [z1 b1]]|] eqn:Hv; [|done]. cbn.
    pose proof (sortVisitor_wf _ _ _ _ _ _ Hwf Hv).
    destruct r; [by apply IH1 | by apply IH2].
Qed.

(** C5, as amended. The z-order pass is skipped unless the update is forced
    or the global changes include Hierarchy or Visibility. When it runs on a
    well-formed store, the visitor declines an occurrence without a snapshot
    or whose snapshot is hidden by policy without a visibility change; an
    occurrence it goes on below is assigned the next index only when its
    visible flag is set: then, for a snapshot stored at its own index, it is
    swapped into that slot and the snapshot it displaces receives the old
    index; with the visible flag clear no index is consumed and nothing is
    written. After the traversal every slot from the first unassigned index
    on is marked not visible, with its stored index equal to its position. *)
Theorem z_order_pass_assigns_visible args b :
  store_wf b ->
  (forceUpdate args = false ->
   any (getGlobalChanges (layerLifecycleManager args))
       {[Hierarchy; Visibility]} = false ->
   sortSnapshotsByZ args b = Some b)
  /\ (forall p z,
        getSnapshot b p = None ->
        sortVisitor p (z, b) = Some (false, (z, b)))
  /\ (forall p z ptr s,
        getSnapshot b p = Some ptr -> heap b !! ptr = Some s ->
        if visited s then
          if isVisible s then
            forall q,
              mSnapshots b !! globalZ s = Some ptr ->
              mSnapshots b !! z = Some q ->
              exists b',
                sortVisitor p (z, b) = Some (true, (S z, b'))
                /\ mSnapshots b'
                   = <[z := ptr]> (<[globalZ s := q]> (mSnapshots b))
                /\ globalZ <$> heap b' !! ptr = Some z
                /\ globalZ <$> heap b' !! q
                   = Some (if bool_decide (q = ptr) then z else globalZ s)
                /\ (forall r, r <> ptr -> r <> q ->
                      heap b' !! r = heap b !! r)
          else sortVisitor p (z, b) = Some (true, (z, b))
        else sortVisitor p (z, b) = Some (false, (z, b)))
  /\ (forall z b1,
        forceUpdate args
        || any (getGlobalChanges (layerLifecycleManager args))
             {[Hierarchy; Visibility]} = true ->
        traverseInZOrder (root_traverseInZOrder args) (0%nat, b)
        = Some (z, b1) ->
        exists b',
          sortSnapshotsByZ args b = Some b'
          /\ mSnapshots b' = mSnapshots b1
          /\ (forall i p, (z <= i)%nat -> mSnapshots b' !! i = Some p ->
                exists s, heap b' !! p = Some s
                          /\ globalZ s = i /\ isVisible s = false)
          /\ (forall i p, (i < z)%nat -> mSnapshots b' !! i = Some p ->
                heap b' !! p = heap b1 !! p)).
Proof.
  intros Hwf. split; [|split; [|split]].
  - intros Hforce Hany. unfold sortSnapshotsByZ. by rewrite Hforce, Hany.
  - intros p z Hp. unfold sortVisitor. by rewrite Hp.
  - intros p z ptr s Hp Hs.
    destruct (visited s) eqn:Hv.
    + destruct (isVisible s) eqn:Hvis.
      * intros q Hold Hnew. destruct Hwf as [Hnd Hall].
        destruct (sortVisitor_assigns p z b ptr s q)
          as (b' & ? & ? & ? & ? & ? & _); try done.
        { eapply Forall_lookup_1 in Hall; [exact Hall|exact Hnew]. }
        by exists b'.
      * by eapply sortVisitor_skips.
    + unfold sortVisitor. rewrite Hp, Hs. cbn.
      unfold visited in Hv. apply negb_false_iff in Hv. by rewrite Hv.
  - intros z b1 Hrun Htrav.
    destruct (traverseInZOrder_wf _ _ _ _ _ Hwf Htrav) as [Hnd Hall].
    destruct (markInvisibleFrom_marks z b1 Hnd)
      as (b' & Hmark & Hms & Hset & Hkeep).
    { intros p Hp. eapply Forall_forall in Hall; [exact Hall|done]. }
    exists b'. rewrite Hms. split; [|done].
    unfold sortSnapshotsByZ.
    apply orb_true_iff in Hrun.
    destruct (negb (forceUpdate args) && _) eqn:Hskip.
    { apply andb_true_iff in Hskip as [H1%negb_true_iff H2%negb_true_iff].
      destruct Hrun; congruence. }
    by rewrite Htrav.
Qed.

End z_order.

(** ** The snapshot store *)

Section snapshot_store.
Context {FO : FloatOps} {GO : GeometryOps} {HO : HierarchyOps}
        {PO : PayloadOps} {SO : SnapshotOps}.

Lemma fresh_pointer_unallocated (b : LayerSnapshotBuilder) :
  heap b !! fresh (dom (heap b)) = None.
Proof. apply not_elem_of_dom. apply is_fresh. Qed.

Lemma getOrCreateSnapshot_spec b id layer :
  getSnapshot (snd (getOrCreateSnapshot b id layer)) id
  = Some (fst (getOrCreateSnapshot b id layer))
  /\ (forall id', id' <> id ->
        getSnapshot (snd (getOrCreateSnapshot b id layer)) id'
        = getSnapshot b id')
  /\ (forall layer',
        getOrCreateSnapshot (snd (getOrCreateSnapshot b id layer)) id layer'
        = getOrCreateSnapshot b id layer)
  /\ (is_Some (getSnapshot b id) -> snd (getOrCreateSnapshot b id layer) = b)
  /\ (getSnapshot b id = None ->
      let p := fst (getOrCreateSnapshot b id layer) in
      let b' := snd (getOrCreateSnapshot b id layer) in
      heap b !! p = None
      /\ mSnapshots b' = mSnapshots b ++ [p]
      /\ heap b' !! p
         = Some (set_globalZ (length (mSnapshots b))
                   (LayerSnapshot_new layer id))
      /\ (forall q, q <> p -> heap b' !! q = heap b !! q)
      /\ mRootSnapshot b' = mRootSnapshot b).
Proof.
  unfold getOrCreateSnapshot.
  destruct (getSnapshot b id) as [p|] eqn:Hid; cbn.
  - rewrite Hid. repeat split; try done.
  - unfold getSnapshot in *. cbn. rewrite lookup_insert_eq.
    split; [done|]. split.
    { intros id' Hne. by rewrite lookup_insert_ne. }
    split; [done|]. split; [by intros [? ?]|].
    intros _. split; [apply fresh_pointer_unallocated|].
    split; [done|]. rewrite lookup_insert_eq. split; [done|].
    split; [|done]. intros q Hq. by rewrite lookup_insert_ne.
Qed.



Section with_constructor.
(** The constructor [LayerSnapshot(state, path)] stores the path it is
    given. *)
Hypothesis new_path :
  forall layer id, path (LayerSnapshot_new layer id) = id.

Lemma getOrCreateSnapshot_wf b id layer :
  builder_wf b -> builder_wf (snd (getOrCreateSnapshot b id layer)).
Proof.
  intros (Hnd & Hlive & Hidx). unfold getOrCreateSnapshot.
  destruct (getSnapshot b id) as [p|] eqn:Hid; [done|]. cbn.
  pose proof (fresh_pointer_unallocated b) as Hfresh.
  set (p := fresh (dom (heap b))) in *.
  unfold getSnapshot in Hid.
  split; [|split]; cbn.
  - apply NoDup_app. split; [done|]. split; [|apply NoDup_singleton].
    intros q Hq ->%list_elem_of_singleton.
    apply Hlive in Hq as [s Hs]. congruence.
  - intros q. rewrite elem_of_app, list_elem_of_singleton.
    destruct (decide (q = p)) as [->|Hne].
    + rewrite lookup_insert_eq. split; [by eexists | by right].
    + rewrite lookup_insert_ne by done. rewrite <- Hlive. 
      split; [by intros [?|?] | by left].
  - intros k q. destruct (decide (k = id)) as [->|Hk].
    + rewrite lookup_insert_eq. split.
      * intros [= <-]. rewrite lookup_insert_eq. eexists. split; [done|].
        apply new_path.
      * intros (s & Hs & Hpath).
        destruct (decide (q = p)) as [->|Hne]; [done|].
        rewrite lookup_insert_ne in Hs by done.
        assert (mIdToSnapshot b !! id = Some q) as Habs
          by (apply Hidx; by exists s).
        congruence.
    + rewrite lookup_insert_ne by done. rewrite Hidx.
      destruct (decide (q = p)) as [->|Hne].
      * rewrite lookup_insert_eq. split.
        -- intros (s & Hs & _). congruence.
        -- intros (s & [= <-] & Hpath). cbn in Hpath.
           rewrite new_path in Hpath. congruence.
      * by rewrite lookup_insert_ne.
Qed.

Lemma getOrCreateSnapshot_indexed b id layer :
  builder_wf b -> indexed b ->
  indexed (snd (getOrCreateSnapshot b id layer)).
Proof.
  intros (Hnd & Hlive & Hidx) Hix. unfold getOrCreateSnapshot.
  destruct (getSnapshot b id) as [p|] eqn:Hid; [done|]. cbn.
  pose proof (fresh_pointer_unallocated b) as Hfresh.
  set (p := fresh (dom (heap b))) in *.
  intros i q s. cbn. intros Hi Hs.
  destruct (decide (q = p)) as [->|Hne].
  - rewrite lookup_insert_eq in Hs. injection Hs as <-. cbn.
    apply lookup_app_Some in Hi as [Hi|[Hlen Hi]].
    + apply list_elem_of_lookup_2, Hlive in Hi as [s Hs]. congruence.
    + apply list_lookup_singleton_Some in Hi as [Hi _]. lia.
  - rewrite lookup_insert_ne in Hs by done.
    apply lookup_app_Some in Hi as [Hi|[Hlen Hi]]; [by eapply Hix|].
    apply list_lookup_singleton_Some in Hi as [_ Hi]. congruence.
Qed.

(** X1. Looking a path up after [getOrCreateSnapshot] gives the pointer the
    call returned, and the lookup of every other path is as before; a second
    call for the same path returns the same pointer and changes nothing. A
    path that has a snapshot leaves the builder as it is; one that has none
    gets a new object behind a pointer that was not in use, appended to
    [mSnapshots] with its position as stored index, and no other object is
    written. If array, objects and index of the builder agreed before the
    call they agree after it, and if every snapshot stored its position
    before, every snapshot does afterwards. *)
Theorem getOrCreateSnapshot_lookup b id layer :
  let p := fst (getOrCreateSnapshot b id layer) in
  let b' := snd (getOrCreateSnapshot b id layer) in
  getSnapshot b' id = Some p
  /\ (forall id', id' <> id -> getSnapshot b' id' = getSnapshot b id')
  /\ (forall layer', getOrCreateSnapshot b' id layer' = (p, b'))
  /\ (is_Some (getSnapshot b id) -> b' = b)
  /\ (getSnapshot b id = None ->
      heap b !! p = None
      /\ mSnapshots b' = mSnapshots b ++ [p]
      /\ heap b' !! p
         = Some (set_globalZ (length (mSnapshots b))
                   (LayerSnapshot_new layer id))
      /\ (forall q, q <> p -> heap b' !! q = heap b !! q)
      /\ mRootSnapshot b' = mRootSnapshot b)
  /\ (builder_wf b -> builder_wf b' /\ (indexed b -> indexed b')).
Proof.
  cbv zeta.
  destruct (getOrCreateSnapshot_spec b id layer)
    as (Hfind & Hother & Hagain & Hsame & Hnew).
  split; [exact Hfind|]. split; [exact Hother|]. split.
  { intros layer'. rewrite Hagain.
    by destruct (getOrCreateSnapshot b id layer). }
  split; [exact Hsame|]. split; [exact Hnew|].
  intros Hwf. split; [by apply getOrCreateSnapshot_wf|].
  intros Hix. by apply getOrCreateSnapshot_indexed.
Qed.

Lemma store_wf_path b p s v :
  builder_wf b -> heap b !! p = Some s -> path v = path s ->
  builder_wf (store p v b).
Proof.
  intros (Hnd & Hlive & Hidx) Hs Hpath.
  split; [done|]. split.
  - intros q. change (mSnapshots (store p v b)) with (mSnapshots b).
    rewrite Hlive. destruct (decide (p = q)) as [->|Hne].
    + rewrite heap_store_eq, Hs. split; by eexists.
    + by rewrite heap_store_ne.
  - intros k q. change (mIdToSnapshot (store p v b)) with (mIdToSnapshot b).
    rewrite Hidx. destruct (decide (p = q)) as [->|Hne].
    + rewrite heap_store_eq, Hs. split.
      * intros (? & [= <-] & <-). by exists v.
      * intros (? & [= <-] & <-). by exists s.
    + by rewrite heap_store_ne.
Qed.

Lemma store_indexed b p s v :
  indexed b -> heap b !! p = Some s -> globalZ v = globalZ s ->
  indexed (store p v b).
Proof.
  intros Hix Hs Hz i q w.
  change (mSnapshots (store p v b)) with (mSnapshots b). intros Hi.
  destruct (decide (p = q)) as [->|Hne].
  - rewrite heap_store_eq. intros [= <-]. rewrite Hz. by eapply Hix.
  - rewrite heap_store_ne by done. by apply Hix.
Qed.

End with_constructor.
End snapshot_store.

(** ** What the per-node update never writes *)

(** Names the outermost [let] of the goal as a local definition. *)
Ltac name_let :=
  lazymatch goal with
  | |- context G [let x := ?e in @?b x] =>
    let y := fresh x in
    set (y := e);
    let g := context G [b y] in
    change g; cbv beta
  end.

Ltac split_ifs :=
  repeat match goal with
         | |- context [if ?c then _ else _] => destruct c; cbn
         end.

Section identity.
Context {FO : FloatOps} {GO : GeometryOps} {HO : HierarchyOps}
        {PO : PayloadOps} {SO : SnapshotOps}.

#[local] Abbreviation kept := settledMembers.

Lemma kept_updateInherited s rq parent :
  kept (updateInherited s rq parent) = kept s.
Proof. unfold updateInherited. by split_ifs. Qed.

Lemma kept_updateComposition s rq : kept (updateComposition s rq) = kept s.
Proof. reflexivity. Qed.

Lemma kept_updateContent s rq : kept (updateContent s rq) = kept s.
Proof. reflexivity. Qed.

Lemma kept_updateBuffer s rq rot s' :
  updateBuffer s rq rot = Some s' -> kept s' = kept s.
Proof.
  unfold updateBuffer.
  destruct (if is_BT2020_ITU_PQ _ && _ then _ else _) as [hdr|]; [|done].
  cbn. by intros [= <-].
Qed.

Lemma kept_updateLayerBounds s rq parent rot :
  kept (updateLayerBounds s rq parent rot) = kept s.
Proof. unfold updateLayerBounds. cbn. by split_ifs. Qed.

Lemma kept_updateRoundedCorner s rq parent :
  kept (updateRoundedCorner s rq parent) = kept s.
Proof.
  unfold updateRoundedCorner. cbv zeta.
  repeat match goal with
         | |- context [if ?c then set_roundedCorner ?a ?b else ?d] =>
           destruct c
         end; reflexivity.
Qed.

Lemma kept_handleDropInputMode s parent :
  kept (handleDropInputMode s parent) = kept s.
Proof. unfold handleDropInputMode. by split_ifs. Qed.

Lemma kept_updateInput gs s rq parent d noValidDisplay path :
  kept (updateInput gs s rq parent d noValidDisplay path) = kept s.
Proof.
  unfold updateInput. cbv zeta.
  destruct (negb (rq_hasInputInfo rq)); [reflexivity|].
  assert (forall g x, kept (applyCloneCrop g d path x) = kept x) as ->.
  { intros g x. unfold applyCloneCrop.
    destruct (isClone path); [|done]. by destruct (g _). }
  assert (forall x, kept (inTrusted x) = kept x) as ->.
  { intros x. unfold inTrusted. by destruct (isTrustedOverlay x). }
  assert (forall c x, kept (applyTouchCrop c d x) = kept x) as ->.
  { intros c x. unfold applyTouchCrop.
    destruct (replaceTouchableRegionWithCrop _); [done|]. by destruct c. }
  assert (forall x, kept (inSecure d x) = kept x) as ->.
  { intros x. unfold inSecure. by destruct (negb _ && _). }
  unfold resolveDropInput. rewrite kept_handleDropInputMode. cbn.
  unfold inNotTouchable. by destruct noValidDisplay.
Qed.

Lemma kept_updateShadows s rq g : kept (updateShadows s rq g) = kept s.
Proof. unfold updateShadows. cbn. by split_ifs. Qed.

Lemma kept_updateDerived s args rq parent :
  kept (updateDerived s args rq parent) = kept s.
Proof.
  unfold updateDerived. cbn.
  destruct (includeMetadata args); cbn; apply kept_updateShadows.
Qed.

Lemma updateSnapshot_kept gs s args rq parent path s' :
  updateSnapshot gs s args rq parent path = Some s' ->
  untouchedMembers s' = untouchedMembers s
  /\ changes s'
     = changes parent
       ∩ {[Hierarchy; Geometry; Visibility; Metadata; AffectsChildren]}
       ∪ rq_changes rq
  /\ contentDirty s' = has_bits (rq_what rq) CONTENT_DIRTY.
Proof.
  intros Hrun.
  enough (kept s'
          = (untouchedMembers s,
             (changes parent
              ∩ {[Hierarchy; Geometry; Visibility; Metadata; AffectsChildren]}
              ∪ rq_changes rq,
              has_bits (rq_what rq) CONTENT_DIRTY))) as Hkept.
  { split; [exact (f_equal fst Hkept)|].
    split; [exact (f_equal (fun x => fst (snd x)) Hkept)
           | exact (f_equal (fun x => snd (snd x)) Hkept)]. }
  revert Hrun.
  cbv delta [updateSnapshot]. cbv beta.
  do 4 name_let.
  assert (kept snapshot1
          = (untouchedMembers s,
             (parentChanges ∪ rq_changes rq,
              has_bits (rq_what rq) CONTENT_DIRTY))) as Hh by reflexivity.
  subst parentChanges.
  clearbody snapshot1. clear snapshot0 snapshot.
  destruct (isHiddenByPolicyFromParent snapshot1).
  { intros [= <-]. by rewrite <- Hh. }
  rewrite <- Hh. clear Hh.
  do 4 name_let.
  lazymatch goal with fu := (_ || any _ _) : bool |- _ => clearbody fu end.
  assert (kept snapshot0 = kept snapshot1) as H0.
  { subst snapshot0 snapshot.
    destruct (_ || any _ _), (_ || negb _);
      by rewrite ?kept_updateComposition, ?kept_updateInherited. }
  clearbody snapshot0. clear snapshot.
  destruct (if _ || has_bits _ _ then _ else _)
    as [snapshot2|] eqn:Hbuf; [|done].
  assert (kept snapshot2 = kept snapshot1) as H2.
  { destruct (_ || has_bits _ _);
      [apply kept_updateBuffer in Hbuf | injection Hbuf as <-]; congruence. }
  clear Hbuf H0.
  lazymatch goal with
  | |- @mbind _ _ _ _ ?f (Some ?x) = _ -> _ =>
    change (@mbind _ _ _ _ f (Some x)) with (f x)
  end.
  cbv beta. do 3 name_let.
  intros [= <-]. rewrite kept_updateDerived, <- H2.
  subst snapshot4 snapshot3 snapshot.
  repeat match goal with
         | |- context [if ?c then _ else _] => destruct c
         end;
    cbv zeta;
    by rewrite ?kept_updateInput, ?kept_updateRoundedCorner,
         ?kept_updateLayerBounds, ?kept_updateContent.
Qed.

Lemma updateRelativeState_identity s parent parentIsRelative args :
  identityMembers (updateRelativeState s parent parentIsRelative args)
  = identityMembers s.
Proof.
  unfold updateRelativeState.
  by destruct parentIsRelative, (includeMetadata args).
Qed.

End identity.

(** ** The walk over the hierarchy *)

Section walk.
Context {FO : FloatOps} {GO : GeometryOps} {HO : HierarchyOps}
        {PO : PayloadOps} {SO : SnapshotOps}.

(** The update of one node of the walk leaves path and stored index. *)
Lemma node_update_identity gs snapshot snapshot' args layer parent
    traversalPath :
  (if isRelative traversalPath then
     Some (updateRelativeState snapshot parent
             (bool_decide (path_variant traversalPath = Relative)) args)
   else
     updateSnapshot gs
       (if isAttached traversalPath then resetRelativeState snapshot
        else snapshot) args layer parent traversalPath) = Some snapshot' ->
  identityMembers snapshot' = identityMembers snapshot.
Proof.
  destruct (isRelative traversalPath).
  - intros [= <-]. apply updateRelativeState_identity.
  - intros [Hs _]%updateSnapshot_kept.
    rewrite (f_equal fst Hs : identityMembers snapshot' = identityMembers _).
    by destruct (isAttached traversalPath).
Qed.

(** A property of the builder that creating a snapshot keeps, and that
    writing a snapshot of the same path and stored index over a live object
    keeps, is kept by the whole walk. *)
Lemma updateSnapshotsInHierarchy_keeps_live
    (I : LayerSnapshotBuilder -> Prop) :
  (forall b id layer, I b -> I (snd (getOrCreateSnapshot b id layer))) ->
  (forall b p s v,
     I b -> heap b !! p = Some s ->
     identityMembers v = identityMembers s -> I (store p v b)) ->
  forall args h traversalPath parent b b',
    I b ->
    updateSnapshotsInHierarchy args h traversalPath parent b = Some b' ->
    I b'.
Proof.
  intros Hcreate Hstore args h.
  induction h as [layer children IH] using LayerHierarchy_children_ind.
  intros traversalPath parent b b' Hb. simpl.
  pose proof (Hcreate b traversalPath layer Hb) as Hb1.
  destruct (getOrCreateSnapshot b traversalPath layer) as [sp b1]; simpl in Hb1.
  destruct (deref b1 parent) as [parentV|]; [|done]. simpl.
  destruct (heap b1 !! sp) as [snapshot|] eqn:Hsp; [|done]. simpl.
  match goal with
  | |- (@mbind _ _ _ _ _ ?u) = Some _ -> _ =>
    destruct u as [snapshot'|] eqn:Hnode; [|done]
  end.
  simpl. apply node_update_identity in Hnode.
  pose proof (Hstore b1 sp snapshot snapshot' Hb1 Hsp Hnode) as Hb2.
  destruct (isHiddenByPolicy snapshot'
            && negb (any (changes snapshot') {[Visibility; Hierarchy]})).
  { by intros [= <-]. }
  generalize dependent (store sp snapshot' b1). clear Hb Hb1 Hsp.
  induction children as [|[c v] cs IHcs]; intros b2 Hb2.
  { by intros [= <-]. }
  apply Forall_cons in IH as [IHc IHrest]. simpl in IHc.
  destruct c as [childLayer grandChildren].
  destruct (updateSnapshotsInHierarchy args
              (mkLayerHierarchy childLayer grandChildren)
              (addToTraversalPath traversalPath (rq_id childLayer) v)
              (HeapRef sp) b2) as [b3|] eqn:Hchild; [|done].
  simpl. intros Hrest.
  apply (IHcs IHrest b3); [|done].
  eapply IHc; [exact Hb2 | exact Hchild].
Qed.

Lemma extends_refl b : extends b b.
Proof.
  split; [done|]. split; [done|]. split; [done|].
  intros p s Hs. by exists s.
Qed.

Lemma extends_create b0 b id layer :
  extends b0 b -> extends b0 (snd (getOrCreateSnapshot b id layer)).
Proof.
  intros (Hpre & Hsub & Hroot & Hheap).
  destruct (getOrCreateSnapshot_spec b id layer)
    as (_ & _ & _ & Hfound & Hnew).
  destruct (getSnapshot b id) as [p|] eqn:Hid.
  { rewrite Hfound by (by eexists). done. }
  destruct (Hnew eq_refl) as (Hfresh & Hms & Hp & Hother & Hr).
  split; [|split; [|split]].
  - rewrite Hms. by apply prefix_app_r.
  - etrans; [exact Hsub|].
    unfold getOrCreateSnapshot. rewrite Hid. cbn.
    by apply insert_subseteq.
  - congruence.
  - intros q s Hs. destruct (Hheap q s Hs) as (s' & Hs' & Hid').
    exists s'. split; [|done]. rewrite Hother; [done|]. congruence.
Qed.

Lemma extends_store b0 b p s v :
  extends b0 b -> heap b !! p = Some s ->
  identityMembers v = identityMembers s -> extends b0 (store p v b).
Proof.
  intros (Hpre & Hsub & Hroot & Hheap) Hs Hv.
  split; [done|]. split; [done|]. split; [done|].
  intros q s0 Hs0. destruct (Hheap q s0 Hs0) as (s' & Hs' & Hid').
  destruct (decide (p = q)) as [->|Hne].
  - rewrite heap_store_eq. exists v. split; [done|]. congruence.
  - rewrite heap_store_ne by done. by exists s'.
Qed.

Section with_constructor.
Hypothesis new_path :
  forall layer id, path (LayerSnapshot_new layer id) = id.

Lemma updateSnapshotsInHierarchy_wf args h traversalPath parent b b' :
  builder_wf b ->
  updateSnapshotsInHierarchy args h traversalPath parent b = Some b' ->
  builder_wf b' /\ extends b b'.
Proof.
  intros Hwf Hrun.
  apply (updateSnapshotsInHierarchy_keeps_live
           (fun x => builder_wf x /\ extends b x))
    with args h traversalPath parent b; [| |by split; [|apply extends_refl]
                                       |done].
  - intros x id layer [? ?].
    split; [by apply getOrCreateSnapshot_wf | by apply extends_create].
  - intros x p s v [? ?] Hs Hv. split.
    + eapply store_wf_path; [done|exact Hs|]. by injection Hv.
    + by eapply extends_store.
Qed.

Lemma updateSnapshotsInHierarchy_indexed args h traversalPath parent b b' :
  builder_wf b -> indexed b ->
  updateSnapshotsInHierarchy args h traversalPath parent b = Some b' ->
  indexed b'.
Proof.
  intros Hwf Hix Hrun.
  apply (updateSnapshotsInHierarchy_keeps_live
           (fun x => builder_wf x /\ indexed x))
    with args h traversalPath parent b; [| |done|done].
  - intros x id layer [? ?].
    split; [by apply getOrCreateSnapshot_wf
           | by apply getOrCreateSnapshot_indexed].
  - intros x p s v [? ?] Hs Hv. split.
    + eapply store_wf_path; [done|exact Hs|]. by injection Hv.
    + eapply store_indexed; [done|exact Hs|]. by injection Hv.
Qed.

Lemma updateSnapshotsInHierarchy_after_create args layer children
    traversalPath parent b :
  updateSnapshotsInHierarchy args (mkLayerHierarchy layer children)
    traversalPath parent (snd (getOrCreateSnapshot b traversalPath layer))
  = updateSnapshotsInHierarchy args (mkLayerHierarchy layer children)
      traversalPath parent b.
Proof.
  destruct (getOrCreateSnapshot_spec b traversalPath layer)
    as (_ & _ & Hagain & _).
  simpl. rewrite (Hagain layer).
  by destruct (getOrCreateSnapshot b traversalPath layer).
Qed.

Lemma updateSnapshotsInHierarchy_registers args h traversalPath parent b b' :
  builder_wf b ->
  updateSnapshotsInHierarchy args h traversalPath parent b = Some b' ->
  is_Some (getSnapshot b' traversalPath).
Proof.
  intros Hwf. destruct h as [layer children].
  rewrite <- updateSnapshotsInHierarchy_after_create. intros Hrun.
  destruct (getOrCreateSnapshot_spec b traversalPath layer) as (Hfind & _).
  apply updateSnapshotsInHierarchy_wf in Hrun as (_ & _ & Hsub & _);
    [|by apply getOrCreateSnapshot_wf].
  exists (fst (getOrCreateSnapshot b traversalPath layer)).
  unfold getSnapshot in *.
  by eapply lookup_weaken.
Qed.

(** X2. The walk over a hierarchy only adds to the builder. Started on a
    builder whose array, objects and index agree, it ends on one where they
    agree and where the path it started at has a snapshot; if every
    snapshot stored its position before, every snapshot does afterwards;
    [mSnapshots] is extended at its end, the index keeps every entry it
    had, the root snapshot is the same, and every snapshot that existed is
    still there with its path and stored index. *)
Theorem walk_keeps_the_store args h traversalPath parent b b' :
  builder_wf b ->
  updateSnapshotsInHierarchy args h traversalPath parent b = Some b' ->
  builder_wf b' /\ (indexed b -> indexed b') /\ extends b b'
  /\ is_Some (getSnapshot b' traversalPath).
Proof.
  intros Hwf Hrun.
  destruct (updateSnapshotsInHierarchy_wf _ _ _ _ _ _ Hwf Hrun).
  split; [done|]. split; [|split; [done|]].
  - intros Hix.
    eapply updateSnapshotsInHierarchy_indexed;
      [exact Hwf|exact Hix|exact Hrun].
  - eapply updateSnapshotsInHierarchy_registers; [exact Hwf|exact Hrun].
Qed.

Lemma updateSnapshotsInHierarchy_returns args h traversalPath parent b :
  builder_wf b ->
  is_Some (deref b parent) ->
  Forall buffer_ok (hierarchy_layers h) ->
  is_Some (updateSnapshotsInHierarchy args h traversalPath parent b).
Proof.
  revert traversalPath parent b.
  induction h as [layer children IH] using LayerHierarchy_children_ind.
  intros traversalPath parent b Hwf Hparent Hok. simpl.
  apply Forall_cons in Hok as [Hlayer Hok].
  pose proof (getOrCreateSnapshot_wf new_path b traversalPath layer Hwf) as Hwf1.
  pose proof (extends_create b b traversalPath layer (extends_refl b))
    as (_ & _ & Hroot & Hkeep).
  destruct (getOrCreateSnapshot_spec b traversalPath layer) as (Hfind & _).
  destruct (getOrCreateSnapshot b traversalPath layer) as [sp b1].
  simpl in *.
  assert (is_Some (deref b1 parent)) as [parentV HparentV].
  { destruct parent as [|q]; [by eexists|]. destruct Hparent as [w Hw].
    destruct (Hkeep q w Hw) as (w' & Hw' & _). by exists w'. }
  rewrite HparentV. simpl.
  assert (is_Some (heap b1 !! sp)) as [snapshot Hsnapshot].
  { destruct Hwf1 as (_ & _ & Hidx). apply Hidx in Hfind as (s & -> & _).
    by eexists. }
  rewrite Hsnapshot. simpl.
  match goal with
  | |- is_Some ((@mbind _ _ _ _ _ ?u)) =>
    assert (is_Some u) as [snapshot' Hnode]
  end.
  { destruct (isRelative traversalPath); [by eexists|].
    by apply updateSnapshot_returns. }
  rewrite Hnode. simpl. apply node_update_identity in Hnode.
  destruct (isHiddenByPolicy snapshot'
            && negb (any (changes snapshot') {[Visibility; Hierarchy]}));
    [by eexists|].
  assert (builder_wf (store sp snapshot' b1)) as Hwf2.
  { eapply store_wf_path; [done|exact Hsnapshot|]. by injection Hnode. }
  assert (is_Some (heap (store sp snapshot' b1) !! sp)) as Hsp
    by (rewrite heap_store_eq; by eexists).
  generalize dependent (store sp snapshot' b1).
  clear Hwf Hwf1 Hparent HparentV Hsnapshot Hfind Hkeep Hroot.
  induction children as [|[c v] cs IHcs]; intros b2 Hwf2 Hsp.
  { by eexists. }
  apply Forall_cons in IH as [IHc IHrest]. simpl in IHc.
  destruct c as [childLayer grandChildren].
  apply Forall_app in Hok as [Hc Hrest].
  destruct (IHc (addToTraversalPath traversalPath (rq_id childLayer) v)
                (HeapRef sp) b2 Hwf2 Hsp Hc) as [b3 Hchild].
  rewrite Hchild. simpl.
  destruct (updateSnapshotsInHierarchy_wf _ _ _ _ _ _ Hwf2 Hchild)
    as (Hwf3 & _ & _ & _ & Hheap).
  apply (IHcs IHrest Hrest b3 Hwf3).
  destruct Hsp as [w Hw]. destruct (Hheap sp w Hw) as (w' & -> & _).
  by eexists.
Qed.

(** X3. The walk returns. Started on a builder whose array, objects and
    index agree, with a parent reference that can be read, and on a
    hierarchy all of whose layers carry buffer data where the pixel format
    is read, no step of the walk reads through a missing object; it ends on
    a builder whose array, objects and index agree and in which the path
    it started at has a snapshot. *)
Theorem walk_returns args h traversalPath parent b :
  builder_wf b ->
  is_Some (deref b parent) ->
  Forall buffer_ok (hierarchy_layers h) ->
  exists b',
    updateSnapshotsInHierarchy args h traversalPath parent b = Some b'
    /\ builder_wf b'
    /\ is_Some (getSnapshot b' traversalPath).
Proof.
  intros Hwf Hparent Hok.
  destruct (updateSnapshotsInHierarchy_returns args h traversalPath parent b
              Hwf Hparent Hok) as [b' Hrun].
  exists b'. split; [exact Hrun|]. split.
  - by destruct (updateSnapshotsInHierarchy_wf _ _ _ _ _ _ Hwf Hrun).
  - eapply updateSnapshotsInHierarchy_registers; [exact Hwf|exact Hrun].
Qed.

End with_constructor.
End walk.

(** ** The z-order pass on a whole store *)

Section z_sort.
Context {FO : FloatOps} {GO : GeometryOps} {HO : HierarchyOps}
        {PO : PayloadOps} {SO : SnapshotOps}.

Lemma lookup_swap (l : list ptr) i j x y k :
  l !! i = Some x -> l !! j = Some y ->
  <[j := x]> (<[i := y]> l) !! k
  = if decide (k = j) then Some x
    else if decide (k = i) then Some y else l !! k.
Proof.
  intros Hi Hj. destruct (decide (k = j)) as [->|Hkj].
  - apply list_lookup_insert_eq. rewrite length_insert.
    by eapply lookup_lt_Some.
  - rewrite list_lookup_insert_ne by done.
    destruct (decide (k = i)) as [->|Hki].
    + apply list_lookup_insert_eq. by eapply lookup_lt_Some.
    + by rewrite list_lookup_insert_ne.
Qed.

Lemma elem_of_swap (l : list ptr) i j x y a :
  l !! i = Some x -> l !! j = Some y ->
  a ∈ <[j := x]> (<[i := y]> l) <-> a ∈ l.
Proof.
  intros Hi Hj. rewrite !list_elem_of_lookup. split.
  - intros [k Hk]. rewrite (lookup_swap l i j x y k Hi Hj) in Hk.
    repeat case_decide; simplify_eq; eauto.
  - intros [k Hk].
    destruct (decide (k = i)) as [->|Hki].
    + exists j. rewrite (lookup_swap l i j x y j Hi Hj).
      rewrite decide_True by done. congruence.
    + destruct (decide (k = j)) as [->|Hkj].
      * destruct (decide (i = j)) as [->|Hij]; [done|].
        exists i. rewrite (lookup_swap l i j x y i Hi Hj).
        rewrite decide_False by done. rewrite decide_True by done.
        congruence.
      * exists k. rewrite (lookup_swap l i j x y k Hi Hj).
        by rewrite !decide_False.
Qed.

Lemma set_mSnapshots_wf b l :
  builder_wf b -> NoDup l -> (forall a, a ∈ l <-> a ∈ mSnapshots b) ->
  builder_wf (set_mSnapshots l b).
Proof.
  intros (Hnd & Hlive & Hidx) Hl Hsame. split; [done|]. split; [|done].
  intros p. cbn. by rewrite Hsame.
Qed.

Lemma rearranges_refl b : rearranges b b.
Proof. by split. Qed.

Lemma rearranges_store b0 b p v :
  rearranges b0 b -> rearranges b0 (store p v b).
Proof. done. Qed.

(** One visit, whatever the stored indices are. *)
Lemma sortVisitor_rearranges p z b r z' b' :
  builder_wf b ->
  sortVisitor p (z, b) = Some (r, (z', b')) ->
  builder_wf b' /\ rearranges b b'.
Proof.
  intros Hwf. unfold sortVisitor.
  destruct (getSnapshot b p) as [ptr|]; [|by intros [= <- <- <-]].
  destruct (heap b !! ptr) as [s|] eqn:Hs; [|done]. cbn.
  destruct (isHiddenByPolicy s && negb (test (changes s) Visibility));
    [by intros [= <- <- <-]|].
  destruct (isVisible s); [|by intros [= <- <- <-]].
  assert (builder_wf (store ptr (set_globalZ z s) b)) as Hwf1
    by (by eapply store_wf_path).
  case_bool_decide as Hz.
  { by intros [= <- <- <-]. }
  change (mSnapshots (store ptr (set_globalZ z s) b)) with (mSnapshots b).
  destruct (mSnapshots b !! z) as [q|] eqn:Hq; [|done]. cbn.
  destruct (heap (store ptr (set_globalZ z s) b) !! q) as [other|] eqn:Ho;
    [|done].
  cbn.
  change (mSnapshots (store q (set_globalZ (globalZ s) other)
                        (store ptr (set_globalZ z s) b)))
    with (mSnapshots b).
  destruct (mSnapshots b !! globalZ s) as [atOld|] eqn:Hold; [|done]. cbn.
  rewrite Hq. cbn.
  intros [= <- <- <-].
  assert (builder_wf (store q (set_globalZ (globalZ s) other)
                        (store ptr (set_globalZ z s) b))) as Hwf2
    by (by eapply store_wf_path).
  split.
  - apply set_mSnapshots_wf; [done| |].
    + apply NoDup_swap; [apply Hwf|done|done].
    + intros a. by apply elem_of_swap.
  - split; [|done]. cbn.
    apply NoDup_Permutation.
    + apply NoDup_swap; [apply Hwf|done|done].
    + apply Hwf.
    + intros a. by apply elem_of_swap.
Qed.

Lemma traverseInZOrder_rearranges t z b z' b' :
  builder_wf b ->
  traverseInZOrder t (z, b) = Some (z', b') ->
  builder_wf b' /\ rearranges b b'.
Proof.
  revert z b. induction t as [|p t1 IH1 t2 IH2]; intros z b Hwf; cbn.
  - intros [= <- <-]. split; [done|apply rearranges_refl].
  - destruct (sortVisitor p (z, b)) as [[r [z1 b1]]|] eqn:Hv; [|done]. cbn.
    destruct (sortVisitor_rearranges _ _ _ _ _ _ Hwf Hv)
      as (Hwf1 & Hperm1 & Hmap1 & Hroot1).
    intros Hrest.
    assert (builder_wf b' /\ rearranges b1 b')
      as (Hwf' & Hperm & Hmap & Hroot)
      by (destruct r; [by eapply IH1 | by eapply IH2]).
    split; [done|]. split; [by etrans|]. split; congruence.
Qed.

Lemma markInvisibleFrom_rearranges z b b' :
  builder_wf b ->
  markInvisibleFrom z b = Some b' ->
  builder_wf b' /\ rearranges b b'.
Proof.
  intros Hwf. unfold markInvisibleFrom.
  apply (foldl_option_keeps (fun x => builder_wf x /\ rearranges b x));
    [|intros ? [= <-]; split; [done|apply rearranges_refl]].
  intros a i a' [Ha Hr].
  destruct (mSnapshots a !! i) as [p|]; [|done]. cbn.
  destruct (heap a !! p) as [s|] eqn:Hs; [|done]. cbn.
  rewrite heap_store_eq. cbn. intros [= <-]. split; [|done].
  eapply store_wf_path; [|apply heap_store_eq|done].
  by eapply store_wf_path.
Qed.

Lemma sortSnapshotsByZ_rearranges args b b' :
  builder_wf b ->
  sortSnapshotsByZ args b = Some b' ->
  builder_wf b' /\ rearranges b b'.
Proof.
  intros Hwf. unfold sortSnapshotsByZ.
  destruct (negb (forceUpdate args) && _).
  { intros [= <-]. split; [done|apply rearranges_refl]. }
  destruct (traverseInZOrder _ _) as [[z b1]|] eqn:Ht; [|done]. cbn.
  destruct (traverseInZOrder_rearranges _ _ _ _ _ Hwf Ht)
    as (Hwf1 & Hperm1 & Hmap1 & Hroot1).
  intros (Hwf' & Hperm & Hmap & Hroot)%markInvisibleFrom_rearranges;
    [|done].
  split; [done|]. split; [by etrans|]. split; congruence.
Qed.

(** One visit on a store whose snapshots store their positions: the visit
    returns, and the positions below the counter stay those of visible
    snapshots of visited paths. *)
Lemma sortVisitor_indexed p z b seen :
  builder_wf b -> indexed b -> assigned seen z b -> p ∉ seen ->
  exists r z' b',
    sortVisitor p (z, b) = Some (r, (z', b'))
    /\ indexed b' /\ assigned (p :: seen) z' b'.
Proof.
  intros Hwf Hix [Hlen Hseen] Hp.
  assert (assigned (p :: seen) z b) as Hsame.
  { split; [done|]. intros i q Hi Hq.
    destruct (Hseen i q Hi Hq) as ((k & Hk & Hkq) & Hvis).
    split; [|done]. exists k. split; [|done]. apply elem_of_cons. by right. }
  pose proof Hwf as (Hnd & Hlive & Hidx).
  unfold sortVisitor.
  destruct (getSnapshot b p) as [ptr|] eqn:Hptr; [|by eauto 10].
  unfold getSnapshot in Hptr.
  pose proof Hptr as (s & Hs & Hpath)%Hidx. rewrite Hs. cbn.
  destruct (isHiddenByPolicy s && negb (test (changes s) Visibility));
    [by eauto 10|].
  destruct (isVisible s) eqn:Hvisible; [|by eauto 10].
  (* the snapshot is at its stored index, which is not below the counter *)
  assert (mSnapshots b !! globalZ s = Some ptr) as Hold.
  { assert (ptr ∈ mSnapshots b) as [i Hi]%list_elem_of_lookup
      by (apply Hlive; by eexists).
    by rewrite (Hix i ptr s Hi Hs). }
  assert (z <= globalZ s)%nat as Hz.
  { destruct (decide (z <= globalZ s)%nat) as [|Hlt]; [done|].
    destruct (Hseen (globalZ s) ptr) as ((k & Hk & Hkp) & _); [lia|done|].
    apply Hidx in Hkp as (s' & Hs' & Hpath'). congruence. }
  assert (globalZ s < length (mSnapshots b))%nat as Hbound
    by (by eapply lookup_lt_Some).
  destruct (lookup_lt_is_Some_2 (mSnapshots b) z) as [q Hq]; [lia|].
  assert (is_Some (heap b !! q)) as [other Hother]
    by (apply Hlive; by eapply list_elem_of_lookup_2).
  (* the positions below the counter hold other snapshots *)
  assert (forall i r, (i < z)%nat -> mSnapshots b !! i = Some r ->
            r <> ptr /\ r <> q) as Hbelow.
  { intros i r Hi Hr. split; intros ->.
    - pose proof (NoDup_lookup _ _ _ _ Hnd Hr Hold). lia.
    - pose proof (NoDup_lookup _ _ _ _ Hnd Hr Hq). lia. }
  case_bool_decide as Heq.
  - (* already in place *)
    do 3 eexists. split; [reflexivity|]. split.
    + eapply store_indexed; [done|exact Hs|]. cbn. congruence.
    + unfold assigned.
      change (mSnapshots (store ptr (set_globalZ z s) b))
        with (mSnapshots b).
      change (mIdToSnapshot (store ptr (set_globalZ z s) b))
        with (mIdToSnapshot b).
      split; [lia|]. intros i r Hi Hr.
      destruct (decide (i = z)) as [->|Hne].
      * assert (r = ptr) as -> by congruence. split.
        -- exists p. split; [apply elem_of_cons; by left|done].
        -- rewrite heap_store_eq. by eexists.
      * destruct (Hseen i r) as ((k & Hk & Hkr) & Hvis); [lia|done|].
        destruct (Hbelow i r) as [Hr1 _]; [lia|done|].
        split.
        -- exists k. split; [apply elem_of_cons; by right|done].
        -- by rewrite heap_store_ne.
  - assert (q <> ptr) as Hne.
    { intros ->. apply Heq.
      exact (NoDup_lookup (mSnapshots b) (globalZ s) z ptr Hnd Hold Hq). }
    change (mSnapshots (store ptr (set_globalZ z s) b)) with (mSnapshots b).
    rewrite Hq. cbn. rewrite heap_store_ne by done. rewrite Hother. cbn.
    change (mSnapshots (store q (set_globalZ (globalZ s) other)
                          (store ptr (set_globalZ z s) b)))
      with (mSnapshots b).
    rewrite Hold, Hq. cbn.
    do 3 eexists. split; [reflexivity|]. split.
    + intros i r w. cbn. rewrite (lookup_swap _ _ _ _ _ i Hold Hq).
      intros Hi.
      destruct (decide (i = z)) as [->|Hiz].
      { injection Hi as <-. rewrite heap_store_ne by done.
        rewrite heap_store_eq. by intros [= <-]. }
      destruct (decide (i = globalZ s)) as [->|Hio].
      { injection Hi as <-. rewrite heap_store_eq. by intros [= <-]. }
      assert (r <> ptr) as Hr1.
      { intros ->. apply Hio.
        exact (NoDup_lookup (mSnapshots b) i (globalZ s) ptr Hnd Hi Hold). }
      assert (r <> q) as Hr2.
      { intros ->. apply Hiz.
        exact (NoDup_lookup (mSnapshots b) i z q Hnd Hi Hq). }
      rewrite !heap_store_ne by done. by apply Hix.
    + split.
      { cbn. rewrite !length_insert. lia. }
      intros i r Hi. cbn. rewrite (lookup_swap _ _ _ _ _ i Hold Hq).
      intros Hr. destruct (decide (i = z)) as [->|Hiz].
      * injection Hr as <-. split.
        -- exists p. split; [apply elem_of_cons; by left|done].
        -- rewrite heap_store_ne by done. rewrite heap_store_eq.
           by eexists.
      * rewrite decide_False in Hr by lia.
        destruct (Hseen i r) as ((k & Hk & Hkr) & Hvis); [lia|done|].
        destruct (Hbelow i r) as [Hr1 Hr2]; [lia|done|].
        split.
        -- exists k. split; [apply elem_of_cons; by right|done].
        -- by rewrite !heap_store_ne.
Qed.

Lemma traverseInZOrder_indexed t z b seen :
  builder_wf b -> indexed b -> assigned seen z b -> visits_fresh seen t ->
  exists z' b' seen',
    traverseInZOrder t (z, b) = Some (z', b')
    /\ indexed b' /\ assigned seen' z' b'.
Proof.
  revert z b seen.
  induction t as [|p t1 IH1 t2 IH2]; intros z b seen Hwf Hix Has; cbn.
  - intros _. by exists z, b, seen.
  - intros (Hp & H1 & H2).
    destruct (sortVisitor_indexed p z b seen Hwf Hix Has Hp)
      as (r & z1 & b1 & Hv & Hix1 & Has1).
    rewrite Hv. cbn.
    destruct (sortVisitor_rearranges _ _ _ _ _ _ Hwf Hv) as [Hwf1 _].
    destruct r; [by eapply IH1 | by eapply IH2].
Qed.

Lemma markInvisibleFrom_prefix z b seen :
  builder_wf b -> indexed b -> assigned seen z b ->
  exists b',
    markInvisibleFrom z b = Some b' /\ indexed b' /\ visible_prefix z b'.
Proof.
  intros (Hnd & Hlive & Hidx) Hix [Hlen Hseen].
  destruct (markInvisibleFrom_marks z b Hnd)
    as (b' & Hrun & Hms & Hset & Hkeep).
  { intros p Hp. by apply Hlive. }
  exists b'. split; [done|]. split.
  - intros i p s. rewrite Hms. intros Hi Hs.
    destruct (decide (z <= i)%nat) as [Hzi|Hzi].
    + destruct (Hset i p Hzi Hi) as (s' & Hs' & Hz' & _). congruence.
    + assert (i < z)%nat as Hlt by lia.
      rewrite (Hkeep i p Hlt Hi) in Hs. by eapply Hix.
  - intros i p s. rewrite Hms. intros Hi Hs.
    destruct (decide (z <= i)%nat) as [Hzi|Hzi].
    + destruct (Hset i p Hzi Hi) as (s' & Hs' & _ & Hvis).
      assert (s' = s) as -> by congruence. rewrite Hvis.
      split; [done|lia].
    + assert (i < z)%nat as Hlt by lia.
      rewrite (Hkeep i p Hlt Hi) in Hs.
      destruct (Hseen i p Hlt Hi) as (_ & s' & Hs' & Hvis).
      assert (s' = s) as -> by congruence. by rewrite Hvis.
Qed.

Lemma sortSnapshotsByZ_indexed args b :
  builder_wf b -> indexed b ->
  visits_fresh [] (root_traverseInZOrder args) ->
  exists b',
    sortSnapshotsByZ args b = Some b' /\ indexed b'
    /\ (forceUpdate args
        || any (getGlobalChanges (layerLifecycleManager args))
             {[Hierarchy; Visibility]} = true ->
        exists z, visible_prefix z b').
Proof.
  intros Hwf Hix Hfresh. unfold sortSnapshotsByZ.
  destruct (forceUpdate args
            || any (getGlobalChanges (layerLifecycleManager args))
                 {[Hierarchy; Visibility]}) eqn:Hruns.
  - assert (negb (forceUpdate args)
            && negb (any (getGlobalChanges (layerLifecycleManager args))
                       {[Hierarchy; Visibility]}) = false) as ->.
    { rewrite <- negb_orb. by rewrite Hruns. }
    destruct (traverseInZOrder_indexed (root_traverseInZOrder args) 0 b [])
      as (z & b1 & seen & Ht & Hix1 & Has); [done|done| |done|].
    { split; [lia|]. intros i p Hi. lia. }
    rewrite Ht. cbn.
    destruct (traverseInZOrder_rearranges _ _ _ _ _ Hwf Ht) as [Hwf1 _].
    destruct (markInvisibleFrom_prefix z b1 seen Hwf1 Hix1 Has)
      as (b' & Hrun & Hix' & Hpre).
    exists b'. split; [done|]. split; [done|]. intros _. by exists z.
  - assert (negb (forceUpdate args)
            && negb (any (getGlobalChanges (layerLifecycleManager args))
                       {[Hierarchy; Visibility]}) = true) as ->.
    { rewrite <- negb_orb. by rewrite Hruns. }
    exists b. by split.
Qed.

(** X4. On a store whose array, objects and index agree and whose snapshots
    store their positions, and with a traversal that visits no path twice,
    the z-order pass returns: no swap reads outside [mSnapshots]. The
    result is again such a store, every snapshot again stores its position,
    [mSnapshots] is a permutation of the one before, and the index and the
    root snapshot are the same. When the pass is not skipped, the visible
    snapshots are exactly the ones in front of some position of
    [mSnapshots]. *)
Theorem sortSnapshotsByZ_returns args b :
  builder_wf b -> indexed b ->
  visits_fresh [] (root_traverseInZOrder args) ->
  exists b',
    sortSnapshotsByZ args b = Some b'
    /\ builder_wf b' /\ indexed b' /\ rearranges b b'
    /\ (forceUpdate args
        || any (getGlobalChanges (layerLifecycleManager args))
             {[Hierarchy; Visibility]} = true ->
        exists z, visible_prefix z b').
Proof.
  intros Hwf Hix Hfresh.
  destruct (sortSnapshotsByZ_indexed args b Hwf Hix Hfresh)
    as (b' & Hrun & Hix' & Hpre).
  exists b'. split; [done|].
  destruct (sortSnapshotsByZ_rearranges _ _ _ Hwf Hrun). done.
Qed.

End z_sort.

(** ** Eviction of destroyed layers *)

Section eviction.
Context {FO : FloatOps} {GO : GeometryOps} {HO : HierarchyOps}
        {PO : PayloadOps} {SO : SnapshotOps}.

(** The array after [iter_swap(it, end - 1)] and [erase(end - 1)]. *)
Lemma lookup_swap_erase (l : list ptr) it lastp k :
  (it < length l)%nat -> last l = Some lastp ->
  take (length (<[it := lastp]> l) - 1) (<[it := lastp]> l) !! k
  = if decide (k < length l - 1)%nat
    then if decide (k = it) then Some lastp else l !! k
    else None.
Proof.
  intros Hit Hlast. rewrite length_insert.
  destruct (decide (k < length l - 1)%nat) as [Hk|Hk].
  - rewrite lookup_take_lt by done.
    destruct (decide (k = it)) as [->|Hne].
    + by apply list_lookup_insert_eq.
    + by apply list_lookup_insert_ne.
  - apply lookup_take_ge. lia.
Qed.

Lemma swap_erase_spec (l : list ptr) it p lastp :
  NoDup l -> l !! it = Some p -> last l = Some lastp ->
  let l' := take (length (<[it := lastp]> l) - 1) (<[it := lastp]> l) in
  NoDup l'
  /\ (forall a, a ∈ l' <-> a ∈ l /\ a <> p)
  /\ take it l' = take it l
  /\ length l' = (length l - 1)%nat.
Proof.
  intros Hnd Hp Hlast l'.
  assert (it < length l)%nat as Hit by (by eapply lookup_lt_Some).
  pose proof (lookup_swap_erase l it lastp) as Hlook.
  specialize (fun k => Hlook k Hit Hlast). fold l' in Hlook.
  rewrite last_lookup in Hlast.
  replace (pred (length l)) with (length l - 1)%nat in Hlast by lia.
  split; [|split; [|split]].
  - apply NoDup_alt. intros a c v. rewrite !Hlook.
    destruct (decide (a < length l - 1)%nat) as [Ha1|]; [|done].
    destruct (decide (c < length l - 1)%nat) as [Hc1|]; [|done].
    destruct (decide (a = it)) as [->|Ha2], (decide (c = it)) as [->|Hc2];
      intros Ha Hc; [done| | |].
    + injection Ha as <-.
      pose proof (NoDup_lookup l _ _ _ Hnd Hlast Hc). lia.
    + injection Hc as <-.
      pose proof (NoDup_lookup l _ _ _ Hnd Hlast Ha). lia.
    + exact (NoDup_lookup l _ _ _ Hnd Ha Hc).
  - intros a. rewrite !list_elem_of_lookup. split.
    + intros [k Hk]. rewrite Hlook in Hk.
      destruct (decide (k < length l - 1)%nat) as [Hk1|]; [|done].
      destruct (decide (k = it)) as [->|Hk2].
      * injection Hk as <-. split; [by eexists|]. intros ->.
        pose proof (NoDup_lookup l _ _ _ Hnd Hlast Hp). lia.
      * split; [by eexists|]. intros ->.
        pose proof (NoDup_lookup l _ _ _ Hnd Hk Hp). lia.
    + intros [[j Hj] Hne].
      assert (j <> it) by (intros ->; congruence).
      assert (j < length l)%nat by (by eapply lookup_lt_Some).
      destruct (decide (j < length l - 1)%nat) as [Hlt|Hge].
      * exists j. rewrite Hlook. by rewrite decide_True, decide_False.
      * assert (j = length l - 1)%nat as -> by lia.
        exists it. rewrite Hlook. rewrite decide_True by lia.
        rewrite decide_True by done. congruence.
  - apply list_eq. intros k.
    destruct (decide (k < it)%nat) as [Hk|Hk].
    + rewrite !lookup_take_lt by done. rewrite Hlook.
      rewrite decide_True by lia. by rewrite decide_False by lia.
    + by rewrite !lookup_take_ge by lia.
  - unfold l'. rewrite length_take, !length_insert. lia.
Qed.

(** The eviction loop from position [it] on. *)
Lemma destroySnapshots_evicts ids turns it b :
  builder_wf b ->
  (it <= length (mSnapshots b))%nat ->
  (length (mSnapshots b) - it <= turns)%nat ->
  exists b',
    destroySnapshots ids turns it b = Some b'
    /\ builder_wf b'
    /\ mRootSnapshot b' = mRootSnapshot b
    /\ (forall p,
          p ∈ mSnapshots b' <->
          p ∈ mSnapshots b
          /\ (p ∈ take it (mSnapshots b)
              \/ exists s, heap b !! p = Some s
                           /\ path_id (path s) ∉ ids))
    /\ (forall p, p ∈ mSnapshots b' -> heap b' !! p = heap b !! p).
Proof.
  revert it b.
  assert (forall it b,
            (length (mSnapshots b) <= it)%nat ->
            forall p,
              p ∈ mSnapshots b <->
              p ∈ mSnapshots b
              /\ (p ∈ take it (mSnapshots b)
                  \/ exists s, heap b !! p = Some s
                               /\ path_id (path s) ∉ ids)) as Hend.
  { intros it b Hit p. rewrite take_ge by done. split; [|by intros [? _]].
    intros Hp. split; [done|by left]. }
  induction turns as [|turns IH]; intros it b Hwf Hit Hturns.
  { exists b. cbn. split; [done|]. split; [done|]. split; [done|].
    split; [|done]. apply Hend. lia. }
  cbn. case_bool_decide as Hlt; cycle 1.
  { exists b. split; [done|]. split; [done|]. split; [done|].
    split; [|done]. apply Hend. lia. }
  pose proof Hwf as (Hnd & Hlive & Hidx).
  destruct (lookup_lt_is_Some_2 (mSnapshots b) it Hlt) as [p Hp].
  rewrite Hp. cbn.
  assert (is_Some (heap b !! p)) as [s Hs]
    by (apply Hlive; by eapply list_elem_of_lookup_2).
  rewrite Hs. cbn.
  case_bool_decide as Hdead.
  - (* the layer lives: advance *)
    destruct (IH (S it) b Hwf) as (b' & Hrun & Hwf' & Hroot & Hin & Hheap);
      [lia|lia|].
    exists b'. split; [done|]. split; [done|]. split; [done|].
    split; [|done]. intros a. rewrite Hin.
    rewrite (take_S_r _ _ _ Hp), elem_of_app, list_elem_of_singleton.
    split.
    + intros [Ha [[?| ->]|?]]; (split; [done|]); eauto.
    + intros [Ha [?|?]]; (split; [done|]); eauto.
  - (* the layer is destroyed: swap with the last element and erase *)
    assert (is_Some (last (mSnapshots b))) as [lastp Hlast].
    { rewrite last_lookup. apply lookup_lt_is_Some_2. lia. }
    rewrite Hlast. cbn.
    destruct (swap_erase_spec (mSnapshots b) it p lastp Hnd Hp Hlast)
      as (Hnd1 & Hin1 & Htake1 & Hlen1).
    set (l1 := take (length (<[it := lastp]> (mSnapshots b)) - 1)
                 (<[it := lastp]> (mSnapshots b))) in *.
    set (b1 := mkLayerSnapshotBuilder (mRootSnapshot b) l1
                 (delete (path s) (mIdToSnapshot b)) (delete p (heap b))).
    assert (builder_wf b1) as Hwf1.
    { split; [done|]. split; cbn.
      - intros a. rewrite Hin1, lookup_delete_is_Some, Hlive.
        split; intros [? ?]; split; done.
      - intros k a. rewrite lookup_delete_Some, Hidx. split.
        + intros [Hk (w & Hw & Hpath)]. exists w. split; [|done].
          rewrite lookup_delete_Some. split; [|done].
          intros ->. congruence.
        + intros (w & [Hne Hw]%lookup_delete_Some & Hpath).
          split; [|by exists w].
          intros <-.
          assert (mIdToSnapshot b !! path s = Some p) as H1
            by (apply Hidx; by exists s).
          assert (mIdToSnapshot b !! path s = Some a) as H2
            by (apply Hidx; by exists w).
          congruence. }
    destruct (IH it b1 Hwf1) as (b' & Hrun & Hwf' & Hroot & Hin & Hheap).
    { cbn. lia. }
    { cbn. lia. }
    exists b'. split; [done|]. split; [done|]. split; [done|].
    assert (p ∉ take it (mSnapshots b)) as Hnotbefore.
    { intros (j & Hj & Hji)%elem_of_take.
      pose proof (NoDup_lookup _ _ _ _ Hnd Hj Hp). lia. }
    split.
    + intros a. rewrite Hin. cbn. rewrite Hin1, Htake1. split.
      * intros [[Ha Hne] [?|(w & [_ Hw]%lookup_delete_Some & Hok)]];
          (split; [done|]); eauto.
      * intros [Ha Hor].
        assert (a <> p) as Hne.
        { intros ->. destruct Hor as [?|(w & Hw & Hok)]; [done|].
          apply Hok. congruence. }
        split; [done|]. destruct Hor as [?|(w & Hw & Hok)]; [by left|].
        right. exists w. split; [|done].
        by apply lookup_delete_Some.
    + intros a Ha. rewrite (Hheap a Ha). cbn.
      apply Hin in Ha as [[_ Hne]%Hin1 _].
      by apply lookup_delete_ne.
Qed.

(** X5. The eviction loop of [updateSnapshots], run on a store whose array,
    objects and index agree, returns, and leaves exactly the snapshots
    whose layer is not destroyed: they keep their objects, the index keeps
    exactly the paths of the layers that are not destroyed, and array,
    objects and index agree again. The root snapshot is not touched. *)
Theorem eviction_removes_destroyed ids b :
  builder_wf b ->
  exists b',
    destroySnapshots ids (length (mSnapshots b)) 0 b = Some b'
    /\ builder_wf b'
    /\ (forall p,
          p ∈ mSnapshots b' <->
          exists s, heap b !! p = Some s /\ path_id (path s) ∉ ids)
    /\ (forall p, p ∈ mSnapshots b' -> heap b' !! p = heap b !! p)
    /\ (forall k p,
          getSnapshot b' k = Some p <->
          getSnapshot b k = Some p /\ path_id k ∉ ids)
    /\ mRootSnapshot b' = mRootSnapshot b.
Proof.
  intros Hwf.
  destruct (destroySnapshots_evicts ids (length (mSnapshots b)) 0 b Hwf)
    as (b' & Hrun & Hwf' & Hroot & Hin & Hheap); [lia|lia|].
  pose proof Hwf as (_ & Hlive & Hidx).
  pose proof Hwf' as (_ & Hlive' & Hidx').
  assert (forall p,
            p ∈ mSnapshots b' <->
            exists s, heap b !! p = Some s /\ path_id (path s) ∉ ids)
    as Hin'.
  { intros p. rewrite Hin. cbn. split.
    - intros [_ [Hnil|Hok]]; [by apply elem_of_nil in Hnil|done].
    - intros (s & Hs & Hok). split; [apply Hlive; by eexists|].
      right. by exists s. }
  exists b'. split; [done|]. split; [done|]. split; [done|].
  split; [done|]. split; [|done].
  intros k p. unfold getSnapshot. rewrite Hidx', Hidx. split.
  - intros (s & Hs & Hpath).
    assert (p ∈ mSnapshots b') as Hp by (apply Hlive'; by eexists).
    rewrite (Hheap p Hp) in Hs.
    apply Hin' in Hp as (s' & Hs' & Hok).
    assert (s' = s) as -> by congruence.
    split; [by exists s|]. by rewrite <- Hpath.
  - intros [(s & Hs & Hpath) Hok].
    assert (p ∈ mSnapshots b') as Hp
      by (apply Hin'; exists s; by rewrite Hpath).
    exists s. by rewrite (Hheap p Hp).
Qed.

(** X6. Eviction moves the last snapshot of the array into the freed slot
    and never writes its stored index. When some snapshot is evicted from a
    store whose snapshots store their positions, and the last one of the
    array survives, the survivor keeps the last position of the longer
    array as its stored index: no slot of [mSnapshots] has that index any
    more, and a later visit of the z-order pass that has to move that
    snapshot, the snapshot being visible, reads outside the array. *)
Theorem eviction_leaves_stale_index ids b b' p s q sq :
  builder_wf b -> indexed b ->
  destroySnapshots ids (length (mSnapshots b)) 0 b = Some b' ->
  last (mSnapshots b) = Some p ->
  heap b !! p = Some s -> path_id (path s) ∉ ids ->
  heap b !! q = Some sq -> path_id (path sq) ∈ ids ->
  getSnapshot b' (path s) = Some p
  /\ heap b' !! p = Some s
  /\ mSnapshots b' !! globalZ s = None
  /\ (visited s = true -> isVisible s = true ->
      forall z, (z < length (mSnapshots b'))%nat ->
        sortVisitor (path s) (z, b') = None).
Proof.
  intros Hwf Hix Hrun Hlast Hs Hlives Hq Hdead.
  destruct (destroySnapshots_evicts ids (length (mSnapshots b)) 0 b Hwf)
    as (b'' & Hrun' & Hwf' & Hroot & Hin & Hheap); [lia|lia|].
  assert (b'' = b') as -> by congruence. clear Hrun'.
  pose proof Hwf as (Hnd & Hlive & Hidx).
  pose proof Hwf' as (Hnd' & Hlive' & Hidx').
  assert (p ∈ mSnapshots b') as Hp.
  { apply Hin. split; [apply Hlive; by eexists|]. right. by exists s. }
  assert (heap b' !! p = Some s) as Hs' by (by rewrite (Hheap p Hp)).
  assert (getSnapshot b' (path s) = Some p) as Hget
    by (apply Hidx'; by exists s).
  assert (globalZ s = length (mSnapshots b) - 1)%nat as Hz.
  { rewrite last_lookup in Hlast.
    replace (pred (length (mSnapshots b)))
      with (length (mSnapshots b) - 1)%nat in Hlast by lia.
    exact (Hix _ _ _ Hlast Hs). }
  assert (length (mSnapshots b') < length (mSnapshots b))%nat as Hshorter.
  { assert (q :: mSnapshots b' ⊆+ mSnapshots b) as Hsub.
    { apply NoDup_submseteq.
      - apply NoDup_cons. split; [|done].
        intros (_ & [Hnil|(w & Hw & Hok)])%Hin;
          [by apply elem_of_nil in Hnil|].
        apply Hok. congruence.
      - intros a [->|Ha]%elem_of_cons; [apply Hlive; by eexists|].
        by apply Hin in Ha as [? _]. }
    apply submseteq_length in Hsub. cbn in Hsub. lia. }
  assert (mSnapshots b' !! globalZ s = None) as Hnone
    by (apply lookup_ge_None; lia).
  split; [done|]. split; [done|]. split; [done|].
  intros Hv Hvis z Hlt. unfold sortVisitor. rewrite Hget, Hs'. cbn.
  unfold visited in Hv. apply negb_true_iff in Hv. rewrite Hv, Hvis.
  rewrite bool_decide_eq_false_2 by lia.
  change (mSnapshots (store p (set_globalZ z s) b')) with (mSnapshots b').
  destruct (mSnapshots b' !! z) as [r|]; [|done]. cbn.
  destruct (heap (store p (set_globalZ z s) b') !! r) as [other|]; [|done].
  cbn.
  change (mSnapshots (store r (set_globalZ (globalZ s) other)
                        (store p (set_globalZ z s) b')))
    with (mSnapshots b').
  by rewrite Hnone.
Qed.

End eviction.

(** ** The fast paths *)

Section fast_path.
Context {FO : FloatOps} {GO : GeometryOps} {HO : HierarchyOps}
        {PO : PayloadOps} {SO : SnapshotOps}.

Lemma rewrites_refl b : rewrites b b.
Proof.
  split; [done|]. split; [done|]. split; [done|].
  intros p. by destruct (heap b !! p); constructor.
Qed.

Lemma rewrites_store b0 b p s v :
  rewrites b0 b -> heap b !! p = Some s ->
  untouchedMembers v = untouchedMembers s -> rewrites b0 (store p v b).
Proof.
  intros (Hms & Hmap & Hroot & Hheap) Hs Hv.
  split; [done|]. split; [done|]. split; [done|].
  intros q. specialize (Hheap q).
  destruct (decide (p = q)) as [->|Hne].
  - rewrite heap_store_eq. rewrite Hs in Hheap.
    inversion Hheap as [s0 s1 H01|]; subst. constructor. congruence.
  - by rewrite heap_store_ne.
Qed.

Lemma rewrites_wf b0 b : rewrites b0 b -> builder_wf b0 -> builder_wf b.
Proof.
  intros (Hms & Hmap & Hroot & Hheap) (Hnd & Hlive & Hidx).
  split; [by rewrite Hms|]. split.
  - intros p. rewrite Hms, Hlive. specialize (Hheap p).
    inversion Hheap; split; intros [? ?]; by eauto.
  - intros k p. rewrite Hmap, Hidx. specialize (Hheap p).
    inversion Hheap as [s0 s1 H01|]; [|by split; intros (? & ? & ?)].
    assert (path s1 = path s0) as Hpath
      by exact (f_equal (fun x => fst (fst x)) H01).
    split; intros (? & [= <-] & <-); eexists; by split.
Qed.

Lemma rewrites_indexed b0 b : rewrites b0 b -> indexed b0 -> indexed b.
Proof.
  intros (Hms & Hmap & Hroot & Hheap) Hix i p s. rewrite Hms.
  intros Hi Hs. specialize (Hheap p). rewrite Hs in Hheap.
  inversion Hheap as [s0 s1 H01 Hs0|]; subst.
  assert (globalZ s = globalZ s0) as ->
    by exact (f_equal (fun x => snd (fst x)) H01).
  by eapply Hix.
Qed.

Lemma clearDirty_untouched s :
  untouchedMembers (clearDirty s) = untouchedMembers s.
Proof. reflexivity. Qed.

Lemma tryFastUpdate_rewrites args b r b' :
  tryFastUpdate args b = Some (r, b') -> rewrites b b'.
Proof.
  unfold tryFastUpdate.
  destruct (forceUpdate args); [intros [= <- <-]; apply rewrites_refl|].
  destruct (none_set _).
  { destruct (forSnapshots _ b) as [b1|] eqn:Hloop; [|done]. cbn.
    intros [= <- <-]. revert Hloop. unfold forSnapshots.
    apply (foldl_option_keeps (rewrites b));
      [|intros ? [= <-]; apply rewrites_refl].
    intros x p x' Hx. destruct (heap x !! p) as [s|] eqn:Hs; [|done]. cbn.
    intros [= <-]. by eapply rewrites_store. }
  case_bool_decide; [intros [= <- <-]; apply rewrites_refl|].
  cbv zeta.
  destruct (forSnapshots _ b) as [b1|] eqn:Hloop; [|done]. cbn.
  intros [= <- <-]. revert Hloop. unfold forSnapshots.
  apply (foldl_option_keeps (rewrites b));
    [|intros ? [= <-]; apply rewrites_refl].
  intros x p x' Hx. destruct (heap x !! p) as [s|] eqn:Hs; [|done]. cbn.
  destruct (layersWithChanges args !! _) as [layer|].
  - destruct (updateSnapshot _ _ _ _ _ _) as [s'|] eqn:Hupd; [|done]. cbn.
    intros [= <-]. eapply rewrites_store; [done|exact Hs|].
    by apply updateSnapshot_kept in Hupd as [-> _].
  - intros [= <-]. by eapply rewrites_store.
Qed.

(** The loop of the first fast path. *)
Lemma clear_loop (l : list ptr) (b : LayerSnapshotBuilder) :
  NoDup l -> (forall p, p ∈ l -> is_Some (heap b !! p)) ->
  exists b',
    foldl (fun ob p =>
             x ← ob; snapshot ← heap x !! p;
             Some (store p (clearDirty snapshot) x)) (Some b) l = Some b'
    /\ mSnapshots b' = mSnapshots b
    /\ mIdToSnapshot b' = mIdToSnapshot b
    /\ mRootSnapshot b' = mRootSnapshot b
    /\ forall q,
         heap b' !! q
         = if decide (q ∈ l) then clearDirty <$> heap b !! q
           else heap b !! q.
Proof.
  revert b. induction l as [|p l IH]; intros b Hnd Hlive.
  { exists b. cbn. do 4 (split; [done|]). intros q.
    rewrite decide_False; [done|]. apply not_elem_of_nil. }
  apply NoDup_cons in Hnd as [Hp Hnd].
  destruct (Hlive p) as [s Hs]; [apply elem_of_cons; by left|].
  destruct (IH (store p (clearDirty s) b) Hnd)
    as (b' & Hrun & Hms & Hmap & Hroot & Hheap).
  { intros q Hq. destruct (decide (p = q)) as [->|Hne].
    - rewrite heap_store_eq. by eexists.
    - rewrite heap_store_ne by done. apply Hlive. apply elem_of_cons.
      by right. }
  exists b'. cbn. rewrite Hs. cbn. split; [done|].
  split; [done|]. split; [done|]. split; [done|].
  intros q. rewrite Hheap.
  destruct (decide (q = p)) as [->|Hne].
  - rewrite decide_False by done. rewrite heap_store_eq, Hs.
    rewrite decide_True; [done|]. apply elem_of_cons. by left.
  - rewrite heap_store_ne by done.
    destruct (decide (q ∈ l)) as [Hq|Hq].
    + rewrite decide_True; [done|]. apply elem_of_cons. by right.
    + rewrite decide_False; [done|]. by intros [?|?]%elem_of_cons.
Qed.

Lemma LayerSnapshotBuilder_eq (b b' : LayerSnapshotBuilder) :
  mRootSnapshot b = mRootSnapshot b' -> mSnapshots b = mSnapshots b' ->
  mIdToSnapshot b = mIdToSnapshot b' -> heap b = heap b' -> b = b'.
Proof. destruct b, b'. cbn. by intros -> -> -> ->. Qed.

(** X7. An update that is not forced, in a frame without any change, only
    clears the change flags and the content-dirty flag of every snapshot:
    on a store whose array, objects and index agree it returns the same
    array, index and root snapshot, with [clearDirty] applied to every
    object. Nothing else of [update] runs: the root bounds are not
    recomputed, whatever [displayChanges] says, and no snapshot is
    evicted, whatever the destroyed layers are. *)
Theorem update_without_changes args b :
  forceUpdate args = false ->
  none_set (getGlobalChanges (layerLifecycleManager args)) = true ->
  builder_wf b ->
  update args b
  = Some (mkLayerSnapshotBuilder (mRootSnapshot b) (mSnapshots b)
            (mIdToSnapshot b) (clearDirty <$> heap b)).
Proof.
  intros Hforce Hnone (Hnd & Hlive & _).
  unfold update, tryFastUpdate, forSnapshots. rewrite Hforce, Hnone.
  destruct (clear_loop (mSnapshots b) b Hnd)
    as (b' & Hrun & Hms & Hmap & Hroot & Hheap);
    [intros p; apply Hlive|].
  rewrite Hrun. cbn. f_equal. apply LayerSnapshotBuilder_eq; try done. cbn.
  apply map_eq. intros q. rewrite Hheap, lookup_fmap.
  destruct (decide (q ∈ mSnapshots b)) as [|Hq]; [done|].
  destruct (heap b !! q) eqn:Hs; [|done].
  exfalso. apply Hq, Hlive. by eexists.
Qed.

Lemma layersWithChanges_None args id :
  (forall layer,
     layer ∈ getLayers (layerLifecycleManager args) ->
     rq_id layer = id -> test (rq_changes layer) Content = false) ->
  layersWithChanges args !! id = None.
Proof.
  unfold layersWithChanges.
  generalize (getLayers (layerLifecycleManager args)).
  intros l Hl.
  assert (forall m : gmap Z RequestedLayerState,
            m !! id = None ->
            foldl (fun m layer =>
                     if test (rq_changes layer) Content
                     then <[rq_id layer := layer]> m else m) m l !! id
            = None) as Hgen; [|by apply Hgen].
  induction l as [|layer l IH]; intros m Hm; [done|]. cbn.
  apply IH.
  { intros x Hx. apply Hl. apply elem_of_cons. by right. }
  destruct (test (rq_changes layer) Content) eqn:Ht; [|done].
  rewrite lookup_insert_ne; [done|]. intros Hid.
  rewrite (Hl layer) in Ht; [done| |done]. apply elem_of_cons. by left.
Qed.

Lemma foldl_option_None {A B} (f : A -> B -> option A) (l : list B) :
  foldl (fun oa x => a ← oa; f a x) None l = None.
Proof. induction l as [|x l IH]; [done|]. exact IH. Qed.

Lemma forSnapshots_skips
    (body : LayerSnapshotBuilder -> ptr -> option LayerSnapshotBuilder)
    (l : list ptr) x x' p :
  (forall b q b1, body b q = Some b1 ->
     forall r, r <> q -> heap b1 !! r = heap b !! r) ->
  p ∉ l ->
  foldl (fun ob q => b ← ob; body b q) (Some x) l = Some x' ->
  heap x' !! p = heap x !! p.
Proof.
  intros Hother. revert x.
  induction l as [|r l IHl]; intros x Hp; [by intros [= <-]|].
  change (foldl (fun ob q => b ← ob; body b q) (Some x) (r :: l))
    with (foldl (fun ob q => b ← ob; body b q) (body x r) l).
  destruct (body x r) as [x2|] eqn:Hbody; [|by rewrite foldl_option_None].
  intros Hrun. rewrite (IHl x2); [| |exact Hrun].
  - apply (Hother _ _ _ Hbody). intros ->. apply Hp, elem_of_cons. by left.
  - intros ?. apply Hp, elem_of_cons. by right.
Qed.

(** A loop over distinct pointers whose body writes only the object it is
    at: what one turn does to an object is what the loop does to it. *)
Lemma forSnapshots_pointwise
    (body : LayerSnapshotBuilder -> ptr -> option LayerSnapshotBuilder)
    (good : LayerSnapshot -> Prop) (g : LayerSnapshot -> LayerSnapshot)
    (l : list ptr) x x' p s :
  (forall b q b1, body b q = Some b1 ->
     forall r, r <> q -> heap b1 !! r = heap b !! r) ->
  (forall b q w b1, heap b !! q = Some w -> good w -> body b q = Some b1 ->
     heap b1 !! q = Some (g w)) ->
  NoDup l ->
  foldl (fun ob q => b ← ob; body b q) (Some x) l = Some x' ->
  heap x !! p = Some s -> good s ->
  heap x' !! p = Some (if decide (p ∈ l) then g s else s).
Proof.
  intros Hother Hself. revert x.
  induction l as [|q l IH]; intros x Hnd.
  { cbn. intros [= <-] Hs _. rewrite decide_False; [done|].
    apply not_elem_of_nil. }
  apply NoDup_cons in Hnd as [Hq Hnd].
  change (foldl (fun ob q => b ← ob; body b q) (Some x) (q :: l))
    with (foldl (fun ob q => b ← ob; body b q) (body x q) l).
  destruct (body x q) as [x1|] eqn:Hbody;
    [|by rewrite foldl_option_None].
  intros Hrun Hs Hgood.
  destruct (decide (p = q)) as [->|Hne].
  - pose proof (Hself _ _ _ _ Hs Hgood Hbody) as Hs1.
    rewrite (forSnapshots_skips body l x1 x' q Hother Hq Hrun).
    rewrite Hs1. rewrite decide_True; [done|]. apply elem_of_cons. by left.
  - rewrite (IH x1 Hnd Hrun); [| |done].
    + destruct (decide (p ∈ l)) as [Hp|Hp].
      * rewrite decide_True; [done|]. apply elem_of_cons. by right.
      * rewrite decide_False; [done|]. by intros [?|?]%elem_of_cons.
    + by rewrite (Hother _ _ _ Hbody p Hne).
Qed.

(** X8. An update that is not forced, in a frame whose only change is
    Content, rewrites the snapshots in place: the array, the index and the
    root snapshot are the same, every snapshot keeps its path, its stored
    index and its relative state, and the snapshot of a layer without a
    content change only has its change flags and its content-dirty flag
    cleared. The z-order pass and the eviction do not run. *)
Theorem update_content_only args b b' :
  forceUpdate args = false ->
  getGlobalChanges (layerLifecycleManager args) = {[Content]} ->
  builder_wf b ->
  update args b = Some b' ->
  rewrites b b'
  /\ forall p s,
       heap b !! p = Some s ->
       (forall layer,
          layer ∈ getLayers (layerLifecycleManager args) ->
          rq_id layer = path_id (path s) ->
          test (rq_changes layer) Content = false) ->
       heap b' !! p = Some (clearDirty s).
Proof.
  intros Hforce Hchanges Hwf. unfold update.
  destruct (tryFastUpdate args b) as [[r b1]|] eqn:Hfast; [|done]. cbn.
  pose proof (tryFastUpdate_rewrites _ _ _ _ Hfast) as Hrw.
  revert Hfast. unfold tryFastUpdate. rewrite Hforce, Hchanges.
  assert (none_set ({[Content]} : gset Changes) = false) as ->
    by (apply bool_decide_eq_false_2; set_solver).
  rewrite bool_decide_eq_false_2 by (by intros []).
  cbv zeta.
  destruct (forSnapshots _ b) as [b2|] eqn:Hloop; [|done]. cbn.
  intros [= <- <-] [= <-]. split; [done|].
  intros p s Hs Hlayers. unfold forSnapshots in Hloop.
  destruct Hwf as (Hnd & Hlive & _).
  assert (p ∈ mSnapshots b) as Hp by (apply Hlive; by eexists).
  replace (Some (clearDirty s))
    with (Some (if decide (p ∈ mSnapshots b) then clearDirty s else s))
    by (by rewrite decide_True).
  eapply (forSnapshots_pointwise _
            (fun w => layersWithChanges args !! path_id (path w) = None)
            clearDirty); only 4: exact Hloop; try done.
  - intros x q x1. cbv beta.
    destruct (heap x !! q) as [w|]; [|done]. cbn.
    destruct (layersWithChanges args !! path_id (path w)) as [layer|].
    + destruct (updateSnapshot _ _ _ _ _ _) as [w'|]; [|done]. cbn.
      intros [= <-] r Hr. by rewrite heap_store_ne.
    + intros [= <-] r Hr. by rewrite heap_store_ne.
  - intros x q w x1 Hw Hnone. cbv beta. rewrite Hw. cbn. rewrite Hnone.
    intros [= <-]. apply heap_store_eq.
  - by apply layersWithChanges_None.
Qed.

End fast_path.

(** ** The whole update *)

Section whole_update.
Context {FO : FloatOps} {GO : GeometryOps} {HO : HierarchyOps}
        {PO : PayloadOps} {SO : SnapshotOps}.
Hypothesis new_path :
  forall layer id, path (LayerSnapshot_new layer id) = id.

(** The loop of [updateSnapshots] over the children of the root. *)
Lemma root_children_wf args (children : list (LayerHierarchy * Variant))
    b b' :
  builder_wf b ->
  foldl
    (fun ob child =>
       b ← ob;
       let '(childHierarchy, variant) := child in
       let 'mkLayerHierarchy childLayer _ := childHierarchy in
       updateSnapshotsInHierarchy args childHierarchy
         (addToTraversalPath ROOT (rq_id childLayer) variant) RootRef b)
    (Some b) children = Some b' ->
  builder_wf b' /\ (indexed b -> indexed b').
Proof.
  intros Hwf Hrun.
  enough (builder_wf b' /\ (indexed b -> indexed b')) by done.
  revert Hrun.
  apply (foldl_option_keeps
           (fun x => builder_wf x /\ (indexed b -> indexed x)));
    [|by intros ? [= <-]].
  intros x [[layer cs] v] x' [Hx Hix] Hstep.
  destruct (updateSnapshotsInHierarchy_wf new_path _ _ _ _ _ _ Hx Hstep)
    as [Hx' _].
  split; [done|]. intros Hb.
  eapply updateSnapshotsInHierarchy_indexed;
    [exact new_path|exact Hx|by apply Hix|exact Hstep].
Qed.

Lemma root_children_return args (children : list (LayerHierarchy * Variant))
    b :
  builder_wf b ->
  Forall buffer_ok (concat ((fun c => hierarchy_layers (fst c)) <$> children)) ->
  is_Some
    (foldl
       (fun ob child =>
          b ← ob;
          let '(childHierarchy, variant) := child in
          let 'mkLayerHierarchy childLayer _ := childHierarchy in
          updateSnapshotsInHierarchy args childHierarchy
            (addToTraversalPath ROOT (rq_id childLayer) variant) RootRef b)
       (Some b) children).
Proof.
  revert b. induction children as [|[[layer cs] v] children IH];
    intros b Hwf Hok; [by eexists|].
  cbn in Hok. apply Forall_cons in Hok as [Hlayer Hok].
  assert (Forall buffer_ok (hierarchy_layers (mkLayerHierarchy layer cs)))
    as Hchild.
  { cbn. apply Forall_cons. split; [done|].
    by apply Forall_app in Hok as [? _]. }
  assert (is_Some
            (updateSnapshotsInHierarchy args (mkLayerHierarchy layer cs)
               (addToTraversalPath ROOT (rq_id layer) v) RootRef b))
    as [b1 Hb1].
  { apply updateSnapshotsInHierarchy_returns; [done|done|by eexists|done]. }
  change (is_Some
            (foldl
               (fun ob child =>
                  b ← ob;
                  let '(childHierarchy, variant) := child in
                  let 'mkLayerHierarchy childLayer _ := childHierarchy in
                  updateSnapshotsInHierarchy args childHierarchy
                    (addToTraversalPath ROOT (rq_id childLayer) variant)
                    RootRef b)
               (updateSnapshotsInHierarchy args (mkLayerHierarchy layer cs)
                  (addToTraversalPath ROOT (rq_id layer) v) RootRef b)
               children)).
  rewrite Hb1. apply IH.
  - by destruct (updateSnapshotsInHierarchy_wf new_path _ _ _ _ _ _ Hwf Hb1).
  - by apply Forall_app in Hok as [_ ?].
Qed.

Lemma set_mRootSnapshot_wf v b :
  builder_wf b -> builder_wf (set_mRootSnapshot v b).
Proof. done. Qed.

Lemma set_mRootSnapshot_indexed v b :
  indexed b -> indexed (set_mRootSnapshot v b).
Proof. done. Qed.

(** The builder on which the walk of [updateSnapshots] starts. *)
Lemma updateSnapshots_start args b :
  let b1 :=
    if forceUpdate args || displayChanges args
    then set_mRootSnapshot
           (set_geomLayerBounds (getMaxDisplayBounds (displays args))
              (mRootSnapshot b)) b
    else b in
  let b2 :=
    if displayChanges args
    then set_mRootSnapshot
           (set_changes {[AffectsChildren; Geometry]} (mRootSnapshot b1)) b1
    else b1 in
  (builder_wf b -> builder_wf b2) /\ (indexed b -> indexed b2).
Proof.
  cbv zeta. by destruct (forceUpdate args || displayChanges args),
                        (displayChanges args).
Qed.

Lemma updateSnapshots_wf args b b' :
  builder_wf b -> updateSnapshots args b = Some b' -> builder_wf b'.
Proof.
  intros Hwf. unfold updateSnapshots. cbv zeta.
  pose proof (proj1 (updateSnapshots_start args b) Hwf) as Hstart.
  cbv zeta in Hstart.
  match type of Hstart with builder_wf ?x => generalize dependent x end.
  intros b2 Hwf2.
  destruct (foldl _ (Some b2) (root_mChildren args)) as [b3|] eqn:Hwalk;
    [|done].
  cbn. apply root_children_wf in Hwalk as [Hwf3 _]; [|done].
  destruct (sortSnapshotsByZ args b3) as [b4|] eqn:Hsort; [|done]. cbn.
  apply sortSnapshotsByZ_rearranges in Hsort as [Hwf4 _]; [|done].
  destruct (getDestroyedLayers (layerLifecycleManager args)) as [|d ds].
  { by intros [= <-]. }
  intros Hevict.
  match type of Hevict with
  | destroySnapshots ?ids ?n 0 ?x = _ =>
    destruct (destroySnapshots_evicts ids n 0 x) as (b5 & Hrun & Hwf5 & _);
      [done|lia|cbn; lia|]
  end.
  congruence.
Qed.

Lemma update_wf args b b' :
  builder_wf b -> update args b = Some b' -> builder_wf b'.
Proof.
  intros Hwf. unfold update.
  destruct (tryFastUpdate args b) as [[r b1]|] eqn:Hfast; [|done]. cbn.
  apply tryFastUpdate_rewrites in Hfast.
  pose proof (rewrites_wf _ _ Hfast Hwf) as Hwf1.
  destruct r; [by intros [= <-]|]. by apply updateSnapshots_wf.
Qed.

Lemma updateSnapshots_returns_aux args b :
  builder_wf b -> indexed b ->
  visits_fresh [] (root_traverseInZOrder args) ->
  Forall buffer_ok (args_layers args) ->
  exists b',
    updateSnapshots args b = Some b'
    /\ (getDestroyedLayers (layerLifecycleManager args) = [] ->
        indexed b'
        /\ (forceUpdate args
            || any (getGlobalChanges (layerLifecycleManager args))
                 {[Hierarchy; Visibility]} = true ->
            exists z, visible_prefix z b')).
Proof.
  intros Hwf Hix Hfresh Hok. unfold updateSnapshots. cbv zeta.
  destruct (updateSnapshots_start args b) as [Hstart1 Hstart2].
  cbv zeta in Hstart1, Hstart2.
  specialize (Hstart1 Hwf). specialize (Hstart2 Hix).
  match type of Hstart1 with builder_wf ?x => generalize dependent x end.
  intros b2 Hwf2 Hix2.
  destruct (root_children_return args (root_mChildren args) b2 Hwf2 Hok)
    as [b3 Hwalk].
  rewrite Hwalk. cbn.
  apply root_children_wf in Hwalk as [Hwf3 Hix3]; [|done].
  specialize (Hix3 Hix2).
  destruct (sortSnapshotsByZ_indexed args b3 Hwf3 Hix3 Hfresh)
    as (b4 & Hsort & Hix4 & Hpre).
  rewrite Hsort. cbn.
  apply sortSnapshotsByZ_rearranges in Hsort as [Hwf4 _]; [|done].
  destruct (getDestroyedLayers (layerLifecycleManager args)) as [|d ds].
  { eexists. split; [done|]. intros _. by split. }
  match goal with
  | |- exists _, destroySnapshots ?ids ?n 0 ?x = _ /\ _ =>
    destruct (destroySnapshots_evicts ids n 0 x) as (b5 & Hrun & _);
      [done|lia|cbn; lia|]
  end.
  exists b5. by split.
Qed.

(** X9. Every update keeps array, objects and index of the builder in
    agreement, on the fast paths and on the full pass with its walk, its
    z-order pass and its eviction: afterwards [mSnapshots] holds distinct
    pointers, exactly those of the live objects, and [getSnapshot] answers
    a path with a pointer exactly when the object behind it is the
    snapshot of that path, so it never hands out a pointer to an erased
    snapshot. *)
Theorem update_keeps_the_store args b b' :
  builder_wf b -> update args b = Some b' ->
  builder_wf b'
  /\ forall k p,
       getSnapshot b' k = Some p ->
       p ∈ mSnapshots b'
       /\ exists s, heap b' !! p = Some s /\ path s = k.
Proof.
  intros Hwf Hrun. pose proof (update_wf _ _ _ Hwf Hrun) as Hwf'.
  split; [done|]. intros k p Hp.
  destruct Hwf' as (_ & Hlive & Hidx).
  apply Hidx in Hp as (s & Hs & Hpath).
  split; [apply Hlive; by eexists|]. by exists s.
Qed.

(** X10. The full pass returns. On a builder whose array, objects and index
    agree and whose snapshots store their positions, with a z-order
    traversal that visits no path twice and layers that carry buffer data
    where the pixel format is read, [updateSnapshots] reads through no
    missing object and outside no array; array, objects and index agree
    afterwards. When no layer was destroyed every snapshot stores its
    position again, and, if the z-order pass ran, the visible snapshots are
    exactly the ones in front of some position of [mSnapshots]. *)
Theorem updateSnapshots_returns args b :
  builder_wf b -> indexed b ->
  visits_fresh [] (root_traverseInZOrder args) ->
  Forall buffer_ok (args_layers args) ->
  exists b',
    updateSnapshots args b = Some b'
    /\ builder_wf b'
    /\ (getDestroyedLayers (layerLifecycleManager args) = [] ->
        indexed b'
        /\ (forceUpdate args
            || any (getGlobalChanges (layerLifecycleManager args))
                 {[Hierarchy; Visibility]} = true ->
            exists z, visible_prefix z b')).
Proof.
  intros Hwf Hix Hfresh Hok.
  destruct (updateSnapshots_returns_aux args b Hwf Hix Hfresh Hok)
    as (b' & Hrun & Hix').
  exists b'. split; [done|]. split; [|done].
  by eapply updateSnapshots_wf.
Qed.

End whole_update.

(** ** Incremental updates of one node *)

Section incremental.
Context {FO : FloatOps} {GO : GeometryOps} {HO : HierarchyOps}
        {PO : PayloadOps} {SO : SnapshotOps}.

#[local] Abbreviation placed := placementMembers.

Lemma placed_updateInherited s rq parent :
  placed (updateInherited s rq parent) = placed s.
Proof. unfold updateInherited. by split_ifs. Qed.

Lemma placed_updateComposition s rq :
  placed (updateComposition s rq) = placed s.
Proof. reflexivity. Qed.

Lemma placed_updateBuffer s rq rot s' :
  updateBuffer s rq rot = Some s' -> placed s' = placed s.
Proof.
  unfold updateBuffer.
  destruct (if is_BT2020_ITU_PQ _ && _ then _ else _) as [hdr|]; [|done].
  cbn. by intros [= <-].
Qed.

Lemma placed_updateContent s rq : placed (updateContent s rq) = placed s.
Proof. reflexivity. Qed.

Lemma placed_updateShadows s rq g : placed (updateShadows s rq g) = placed s.
Proof. unfold updateShadows. cbn. by split_ifs. Qed.

Lemma placed_updateDerived s args rq parent :
  placed (updateDerived s args rq parent) = placed s.
Proof.
  unfold updateDerived. cbn.
  destruct (includeMetadata args); cbn; apply placed_updateShadows.
Qed.

Lemma geometry_handleDropInputMode s parent :
  geometryMembers (handleDropInputMode s parent) = geometryMembers s.
Proof. unfold handleDropInputMode. by split_ifs. Qed.

Lemma geometry_updateInput gs s rq parent d noValidDisplay path :
  geometryMembers (updateInput gs s rq parent d noValidDisplay path)
  = geometryMembers s.
Proof.
  unfold updateInput. cbv zeta.
  destruct (negb (rq_hasInputInfo rq)); [reflexivity|].
  assert (forall g x, geometryMembers (applyCloneCrop g d path x)
                      = geometryMembers x) as ->.
  { intros g x. unfold applyCloneCrop.
    destruct (isClone path); [|done]. by destruct (g _). }
  assert (forall x, geometryMembers (inTrusted x) = geometryMembers x) as ->.
  { intros x. unfold inTrusted. by destruct (isTrustedOverlay x). }
  assert (forall c x, geometryMembers (applyTouchCrop c d x)
                      = geometryMembers x) as ->.
  { intros c x. unfold applyTouchCrop.
    destruct (replaceTouchableRegionWithCrop _); [done|]. by destruct c. }
  assert (forall x, geometryMembers (inSecure d x) = geometryMembers x) as ->.
  { intros x. unfold inSecure. by destruct (negb _ && _). }
  unfold resolveDropInput. rewrite geometry_handleDropInputMode. cbn.
  unfold inNotTouchable. by destruct noValidDisplay.
Qed.

Lemma any_union (c a b : gset Changes) :
  any c (a ∪ b) = any c a || any c b.
Proof.
  unfold any.
  destruct (bool_decide (c ∩ a ≠ ∅)) eqn:Ha,
           (bool_decide (c ∩ b ≠ ∅)) eqn:Hb; cbn;
    [apply bool_decide_eq_true_2; apply bool_decide_eq_true_1 in Ha
    |apply bool_decide_eq_true_2; apply bool_decide_eq_true_1 in Ha
    |apply bool_decide_eq_true_2; apply bool_decide_eq_true_1 in Hb
    |apply bool_decide_eq_false_2; apply bool_decide_eq_false_1 in Ha;
     apply bool_decide_eq_false_1 in Hb];
    set_solver.
Qed.

(** X11. Whatever [updateSnapshot] recomputes, it never writes the path, the
    stored index or the state inherited along a relative edge, and the
    change flags it leaves are the ones the parent hands down (Hierarchy,
    Geometry, Visibility, Metadata and AffectsChildren) together with
    the changes of the layer itself: Content, Created, Input and Buffer of
    the parent never reach the child. The content-dirty flag is the
    CONTENT_DIRTY bit of the layer. *)
Theorem updateSnapshot_settles gs s args rq parent path s' :
  updateSnapshot gs s args rq parent path = Some s' ->
  identityMembers s' = identityMembers s
  /\ relativeMembers s' = relativeMembers s
  /\ changes s' = changesAfter rq parent
  /\ contentDirty s' = has_bits (rq_what rq) CONTENT_DIRTY
  /\ forall c,
       c ∈ ({[Content; Created; Input; Buffer]} : gset Changes) ->
       c ∈ changes s' <-> c ∈ rq_changes rq.
Proof.
  intros (Hu & Hc & Hd)%updateSnapshot_kept.
  split; [exact (f_equal fst Hu)|]. split; [exact (f_equal snd Hu)|].
  split; [done|]. split; [done|].
  intros c Hin. rewrite Hc. set_solver.
Qed.

(** X12. An update of a node that is neither forced nor carries a
    Visibility, Created, Hierarchy or Geometry change, its own or handed
    down, leaves the geometry of the snapshot as it is: crop, local and
    absolute transforms, bounds, cursor frame, filtering flag and rounded
    corners are not recomputed. If there is no Input change either, the
    input info and the drop mode are not touched. *)
Theorem updateSnapshot_incremental gs s args rq parent path s' :
  forceUpdate args = false ->
  any (changesAfter rq parent) {[Visibility; Created]} = false ->
  any (changesAfter rq parent) {[Hierarchy; Geometry]} = false ->
  updateSnapshot gs s args rq parent path = Some s' ->
  geometryMembers s' = geometryMembers s
  /\ (any (changesAfter rq parent) {[Input]} = false ->
      inputMembers s' = inputMembers s).
Proof.
  intros Hforce Hvc Hhg.
  cbv delta [updateSnapshot]. cbv beta.
  do 4 name_let.
  assert (placed snapshot1 = placed s) as Hp by reflexivity.
  assert (changes snapshot1 = changesAfter rq parent) as Hc by reflexivity.
  clearbody snapshot1. clear snapshot0 snapshot parentChanges.
  destruct (isHiddenByPolicyFromParent snapshot1).
  { intros [= <-]. split; [|intros _].
    - exact (f_equal fst Hp).
    - exact (f_equal snd Hp). }
  do 4 name_let.
  lazymatch goal with
  | fu := (_ || any _ _) : bool |- _ =>
    assert (fu = false) as Hfu by (subst fu; by rewrite Hforce, Hc, Hvc);
    clearbody fu
  end.
  assert (placed snapshot0 = placed snapshot1
          /\ changes snapshot0 = changes snapshot1) as [H0 Hc0].
  { subst snapshot0 snapshot. rewrite Hfu. cbn [orb].
    destruct (any (changes snapshot1) {[AffectsChildren]}),
             (negb (none_set (rq_changes rq)));
      rewrite ?placed_updateComposition, ?placed_updateInherited;
      (split; [done|]);
      repeat match goal with
             | |- context [updateComposition ?x ?y] =>
               change (changes (updateComposition x y)) with (changes x)
             end;
      try done;
      exact (f_equal (fun x => fst (snd x))
               (kept_updateInherited snapshot1 rq parent)). }
  clearbody snapshot0. clear snapshot.
  destruct (if _ || has_bits _ _ then _ else _)
    as [snapshot2|] eqn:Hbuf; [|done].
  rewrite Hfu in Hbuf. cbn [orb] in Hbuf.
  assert (placed snapshot2 = placed snapshot1
          /\ changes snapshot2 = changes snapshot1) as [H2 Hc2].
  { destruct (has_bits _ _); [|injection Hbuf as <-; by split].
    split; [apply placed_updateBuffer in Hbuf; congruence|].
    apply kept_updateBuffer in Hbuf.
    rewrite <- Hc0. exact (f_equal (fun x => fst (snd x)) Hbuf). }
  clear Hbuf H0 Hc0.
  lazymatch goal with
  | |- @mbind _ _ _ _ ?f (Some ?x) = _ -> _ =>
    change (@mbind _ _ _ _ f (Some x)) with (f x)
  end.
  cbv beta. do 3 name_let.
  intros [= <-].
  assert (placed snapshot = placed s
          /\ changes snapshot = changesAfter rq parent) as [H3 Hc3].
  { subst snapshot. rewrite <- Hc, <- Hc2, <- Hp, <- H2, Hfu. cbn [orb].
    by destruct (any (changes snapshot2) {[Content]}). }
  assert (snapshot3 = snapshot) as ->.
  { subst snapshot3. by rewrite Hfu, Hc3, Hhg. }
  split.
  - transitivity (geometryMembers snapshot4);
      [exact (f_equal fst (placed_updateDerived snapshot4 args rq parent))|].
    transitivity (geometryMembers snapshot); [|exact (f_equal fst H3)].
    subst snapshot4. rewrite Hfu. cbn [orb].
    destruct (any (changes snapshot) {[Hierarchy; Geometry; Input]});
      [|done].
    cbv zeta. apply geometry_updateInput.
  - intros Hin.
    transitivity (inputMembers snapshot4);
      [exact (f_equal snd (placed_updateDerived snapshot4 args rq parent))|].
    transitivity (inputMembers snapshot); [|exact (f_equal snd H3)].
    subst snapshot4. rewrite Hfu, Hc3. cbn [orb].
    change ({[Hierarchy; Geometry; Input]} : gset Changes)
      with ({[Hierarchy; Geometry]} ∪ {[Input]} : gset Changes).
    by rewrite any_union, Hhg, Hin.
Qed.

End incremental.

(** ** The flags of the input configuration *)

Section input_flags.
Context {FO : FloatOps} {GO : GeometryOps} {HO : HierarchyOps}
        {PO : PayloadOps} {SO : SnapshotOps}.

Lemma keeps_flags_refl s : keeps_flags s s.
Proof. split; [done|]. unfold inputFlagsAdded. set_solver. Qed.

Lemma keeps_flags_trans s1 s2 s3 :
  keeps_flags s1 s2 -> keeps_flags s2 s3 -> keeps_flags s1 s3.
Proof.
  intros (Ht1 & Hl1 & Hu1) (Ht2 & Hl2 & Hu2).
  split; [congruence|]. unfold inputFlagsAdded in *. set_solver.
Qed.

(** A step that leaves the configuration. *)
Lemma keeps_flags_same s s' :
  trustMembers s' = trustMembers s -> inputFlags s' = inputFlags s ->
  keeps_flags s s'.
Proof.
  intros Ht Hf. split; [done|]. rewrite Hf. unfold inputFlagsAdded.
  set_solver.
Qed.

(** A step that adds one flag. *)
Lemma keeps_flags_add flag s :
  flag ∈ inputFlagsAdded -> keeps_flags s (add_inputConfig flag s).
Proof.
  intros Hflag. split; [done|].
  unfold inputFlags. rewrite add_inputConfig_inputConfig. set_solver.
Qed.

Lemma fillInputFrameInfo_inputConfig info t s :
  inputConfig (fillInputFrameInfo info t s) = inputConfig info.
Proof.
  unfold fillInputFrameInfo.
  by destruct (rect_isValid (getInputBounds s)).
Qed.

Lemma keeps_flags_inFrame d s : keeps_flags s (inFrame d s).
Proof.
  apply keeps_flags_same; [done|].
  unfold inputFlags, inFrame. cbn [inputInfo set_inputInfo].
  apply fillInputFrameInfo_inputConfig.
Qed.

Lemma keeps_flags_inNotTouchable noValidDisplay s :
  keeps_flags s (inNotTouchable noValidDisplay s).
Proof.
  unfold inNotTouchable. destruct noValidDisplay;
    [apply keeps_flags_add; unfold inputFlagsAdded; set_solver
    |apply keeps_flags_refl].
Qed.

Lemma keeps_flags_inVisible rq s : keeps_flags s (inVisible rq s).
Proof.
  split; [done|]. unfold inputFlags, inVisible, setInputConfig.
  cbn [inputInfo on_inputInfo set_inputInfo inputConfig set_inputConfig].
  unfold inputFlagsAdded.
  destruct (negb _); cbn; set_solver.
Qed.

Lemma keeps_flags_handleDropInputMode s parent :
  keeps_flags s (handleDropInputMode s parent).
Proof.
  unfold handleDropInputMode. cbv zeta.
  repeat match goal with
         | |- context [if ?c then _ else _] => destruct c
         end;
    repeat first
      [ apply keeps_flags_refl
      | eapply keeps_flags_trans;
        [|apply keeps_flags_add; unfold inputFlagsAdded; set_solver] ].
Qed.

Lemma keeps_flags_resolveDropInput s rq parent :
  keeps_flags s (resolveDropInput s rq parent).
Proof.
  unfold resolveDropInput. cbv zeta.
  eapply keeps_flags_trans; [|apply keeps_flags_handleDropInputMode].
  by apply keeps_flags_same.
Qed.

Lemma keeps_flags_inSecure d s : keeps_flags s (inSecure d s).
Proof.
  unfold inSecure. destruct (negb _ && _);
    [apply keeps_flags_add; unfold inputFlagsAdded; set_solver
    |apply keeps_flags_refl].
Qed.

Lemma keeps_flags_applyTouchCrop c d s : keeps_flags s (applyTouchCrop c d s).
Proof.
  apply keeps_flags_same; unfold applyTouchCrop;
    destruct (replaceTouchableRegionWithCrop _); try done; by destruct c.
Qed.

Lemma keeps_flags_inTrusted s : keeps_flags s (inTrusted s).
Proof.
  unfold inTrusted. destruct (isTrustedOverlay s);
    [apply keeps_flags_add; unfold inputFlagsAdded; set_solver
    |apply keeps_flags_refl].
Qed.

Lemma keeps_flags_applyCloneCrop g d path s :
  keeps_flags s (applyCloneCrop g d path s).
Proof.
  unfold applyCloneCrop. destruct (isClone path); [|apply keeps_flags_refl].
  cbv zeta. eapply keeps_flags_trans;
    [apply (keeps_flags_add CLONE); unfold inputFlagsAdded; set_solver|].
  apply keeps_flags_same; by destruct (g _).
Qed.

Lemma keeps_flags_beforeTouchCrop s rq parent d noValidDisplay :
  keeps_flags (inNotTouchable noValidDisplay (inFrame d (inDisplayId s)))
    (resolveDropInput
       (inOcclusion parent
          (inAlpha
             (inVisible rq
                (inNotTouchable noValidDisplay (inFrame d (inDisplayId s))))))
       rq parent).
Proof.
  eapply keeps_flags_trans; [|apply keeps_flags_resolveDropInput].
  eapply keeps_flags_trans; [apply keeps_flags_inVisible|].
  by apply keeps_flags_same.
Qed.

Lemma keeps_flags_trust a b :
  keeps_flags a b ->
  isSecure b = isSecure a /\ isTrustedOverlay b = isTrustedOverlay a.
Proof.
  intros (Ht & _). split; [exact (f_equal fst Ht) | exact (f_equal snd Ht)].
Qed.

Lemma keeps_flags_stay a b f :
  keeps_flags a b -> f <> NOT_VISIBLE -> f ∈ inputFlags a -> f ∈ inputFlags b.
Proof. intros (_ & Hl & _) Hf Ha. apply Hl. set_solver. Qed.

Lemma inNotTouchable_marks s :
  NOT_TOUCHABLE ∈ inputFlags (inNotTouchable true s).
Proof.
  unfold inNotTouchable, inputFlags. rewrite add_inputConfig_inputConfig.
  set_solver.
Qed.

Lemma inSecure_marks d s :
  di_isSecure d = false -> isSecure s = true ->
  DROP_INPUT ∈ inputFlags (inSecure d s).
Proof.
  intros Hd Hs. unfold inSecure, inputFlags. rewrite Hd, Hs. cbn [negb andb].
  rewrite add_inputConfig_inputConfig. set_solver.
Qed.

Lemma inTrusted_marks s :
  isTrustedOverlay s = true -> TRUSTED_OVERLAY ∈ inputFlags (inTrusted s).
Proof.
  intros Hs. unfold inTrusted, inputFlags. rewrite Hs.
  rewrite add_inputConfig_inputConfig. set_solver.
Qed.

Lemma applyCloneCrop_marks g d path s :
  isClone path = true -> CLONE ∈ inputFlags (applyCloneCrop g d path s).
Proof.
  intros Hclone.
  assert (inputFlags (applyCloneCrop g d path s)
          = inputFlags (add_inputConfig CLONE s)) as ->.
  { unfold applyCloneCrop. rewrite Hclone. cbv zeta.
    by destruct (g (mirrorRootIds_back path)). }
  unfold inputFlags. rewrite add_inputConfig_inputConfig. set_solver.
Qed.

(** X13. The flags [updateInput] leaves in the input configuration. For a
    layer without input info the configuration is exactly
    NO_INPUT_CHANNEL. For a layer with input info no flag that was set is
    cleared but NOT_VISIBLE, so NO_INPUT_CHANNEL and DROP_INPUT of an
    earlier update stay, and only NOT_TOUCHABLE, NOT_VISIBLE, DROP_INPUT,
    DROP_INPUT_IF_OBSCURED, TRUSTED_OVERLAY and CLONE are added. Without a
    valid display the result has NOT_TOUCHABLE; a secure snapshot on a
    display that is not secure has DROP_INPUT; a trusted overlay has
    TRUSTED_OVERLAY; a clone has CLONE, whether or not its root
    resolves. *)
Theorem updateInput_flags gs s rq parent d noValidDisplay path :
  let s' := updateInput gs s rq parent d noValidDisplay path in
  (rq_hasInputInfo rq = false -> inputFlags s' = {[NO_INPUT_CHANNEL]})
  /\ (rq_hasInputInfo rq = true ->
      (forall f, f <> NOT_VISIBLE -> f ∈ inputFlags s -> f ∈ inputFlags s')
      /\ inputFlags s' ⊆ inputFlags s ∪ inputFlagsAdded
      /\ (noValidDisplay = true -> NOT_TOUCHABLE ∈ inputFlags s')
      /\ (di_isSecure d = false -> isSecure s = true ->
          DROP_INPUT ∈ inputFlags s')
      /\ (isTrustedOverlay s = true -> TRUSTED_OVERLAY ∈ inputFlags s')
      /\ (isClone path = true -> CLONE ∈ inputFlags s')).
Proof.
  cbv zeta. split.
  { intros Hno. unfold updateInput. by rewrite Hno. }
  intros Hinput. rewrite updateInput_steps by done. cbv zeta.
  unfold beforeTouchCrop.
  set (s1 := inNotTouchable noValidDisplay (inFrame d (inDisplayId s))).
  set (s2 := resolveDropInput _ rq parent).
  set (s3 := inSecure d s2).
  set (s4 := applyTouchCrop _ d s3).
  set (s5 := inTrusted s4).
  set (s6 := applyCloneCrop _ d path s5).
  assert (keeps_flags s s1) as H1.
  { eapply keeps_flags_trans; [|apply keeps_flags_inNotTouchable].
    eapply keeps_flags_trans; [|apply keeps_flags_inFrame].
    by apply keeps_flags_same. }
  assert (keeps_flags s1 s2) as H2 by apply keeps_flags_beforeTouchCrop.
  assert (keeps_flags s2 s3) as H3 by apply keeps_flags_inSecure.
  assert (keeps_flags s3 s4) as H4 by apply keeps_flags_applyTouchCrop.
  assert (keeps_flags s4 s5) as H5 by apply keeps_flags_inTrusted.
  assert (keeps_flags s5 s6) as H6 by apply keeps_flags_applyCloneCrop.
  pose proof (keeps_flags_trans _ _ _ H5 H6) as H46.
  pose proof (keeps_flags_trans _ _ _ H4 H46) as H36.
  pose proof (keeps_flags_trans _ _ _ H3 H36) as H26.
  pose proof (keeps_flags_trans _ _ _ H2 H26) as H16.
  pose proof (keeps_flags_trans _ _ _ H1 H16) as H06.
  pose proof keeps_flags_stay as Hstay.
  split; [intros f; apply Hstay, H06|].
  split; [apply H06|].
  assert (noValidDisplay = true -> NOT_TOUCHABLE ∈ inputFlags s1) as Hm1.
  { intros ->. apply inNotTouchable_marks. }
  assert (di_isSecure d = false -> isSecure s = true ->
          DROP_INPUT ∈ inputFlags s3) as Hm3.
  { intros Hd Hs. apply inSecure_marks; [done|].
    destruct (keeps_flags_trust _ _ (keeps_flags_trans _ _ _ H1 H2))
      as [-> _]. done. }
  assert (isTrustedOverlay s = true -> TRUSTED_OVERLAY ∈ inputFlags s5)
    as Hm5.
  { intros Ht. apply inTrusted_marks.
    destruct (keeps_flags_trust _ _
                (keeps_flags_trans _ _ _ H1
                   (keeps_flags_trans _ _ _ H2
                      (keeps_flags_trans _ _ _ H3 H4)))) as [_ ->]. done. }
  assert (isClone path = true -> CLONE ∈ inputFlags s6) as Hm6.
  { intros Hclone. by apply applyCloneCrop_marks. }
  clearbody s1 s2 s3 s4 s5 s6.
  split; [|split; [|split]].
  - intros Hn. apply (Hstay s1 s6); [done|done|by apply Hm1].
  - intros Hd Hs. apply (Hstay s3 s6); [done|done|by apply Hm3].
  - intros Ht. apply (Hstay s5 s6); [done|done|by apply Hm5].
  - done.
Qed.

End input_flags.

(** ** Construction, pruning and shadows *)

Section construction.
Context {FO : FloatOps} {GO : GeometryOps} {HO : HierarchyOps}
        {PO : PayloadOps} {SO : SnapshotOps}.

Lemma LayerSnapshotBuilder_new_wf :
  builder_wf LayerSnapshotBuilder_new /\ indexed LayerSnapshotBuilder_new.
Proof.
  split; [split; [|split]|].
  - apply NoDup_nil_2.
  - intros p. cbn. rewrite lookup_empty. split.
    + by intros ?%elem_of_nil.
    + by intros [? ?].
  - intros k p. cbn. rewrite !lookup_empty. split; [done|].
    by intros (? & ? & _).
  - intros i p s. cbn. by rewrite lookup_nil.
Qed.

(** X14. The constructor taking the arguments of an update runs one forced
    full pass on an empty builder. With a z-order traversal that visits no
    path twice and layers that carry buffer data where the pixel format is
    read, it returns a builder whose array, objects and index agree, whose
    root snapshot has the bounds of the registered displays and no change
    flags, and, when no layer is listed as destroyed, whose snapshots store
    their positions with the visible ones in front. *)
Theorem LayerSnapshotBuilder_of_args_returns args :
  (forall layer id, path (LayerSnapshot_new layer id) = id) ->
  visits_fresh [] (root_traverseInZOrder args) ->
  Forall buffer_ok (args_layers args) ->
  exists b,
    LayerSnapshotBuilder_of_args args = Some b
    /\ builder_wf b
    /\ geomLayerBounds (mRootSnapshot b) = getMaxDisplayBounds (displays args)
    /\ (getDestroyedLayers (layerLifecycleManager args) = [] ->
        indexed b /\ exists z, visible_prefix z b).
Proof.
  intros new_path Hfresh Hok. unfold LayerSnapshotBuilder_of_args. cbv zeta.
  set (args' := mkArgs _ _ _ true _ _ _ _).
  destruct LayerSnapshotBuilder_new_wf as [Hwf Hix].
  destruct (updateSnapshots_returns_aux new_path args' LayerSnapshotBuilder_new
              Hwf Hix Hfresh Hok) as (b & Hrun & Hafter).
  exists b. split; [done|].
  split; [by eapply updateSnapshots_wf|].
  split; [by rewrite (updateSnapshots_root_bounds _ _ _ Hrun)|].
  intros Hnone. destruct (Hafter Hnone) as [Hix' Hpre].
  split; [done|]. by apply Hpre.
Qed.

(** X15. The walk does not go below a node that, after its own update, is
    hidden by policy and has neither a Visibility nor a Hierarchy change:
    whatever children the node has, the builder is the one the walk leaves
    for the node without children, so the snapshots of the descendants are
    as they were. *)
Theorem walk_skips_hidden_subtree args layer children traversalPath parent
    b b1 sp s :
  updateSnapshotsInHierarchy args (mkLayerHierarchy layer []) traversalPath
    parent b = Some b1 ->
  getSnapshot b1 traversalPath = Some sp ->
  heap b1 !! sp = Some s ->
  isHiddenByPolicy s = true ->
  any (changes s) {[Visibility; Hierarchy]} = false ->
  updateSnapshotsInHierarchy args (mkLayerHierarchy layer children)
    traversalPath parent b = Some b1.
Proof.
  simpl.
  destruct (getOrCreateSnapshot_spec b traversalPath layer) as (Hfind & _).
  destruct (getOrCreateSnapshot b traversalPath layer) as [sp0 b0].
  cbn [fst snd] in Hfind.
  destruct (deref b0 parent) as [parentV|]; [|done]. simpl.
  destruct (heap b0 !! sp0) as [snapshot|]; [|done]. simpl.
  match goal with
  | |- (@mbind _ _ _ _ _ ?u) = Some _ -> _ =>
    destruct u as [snapshot'|]; [|done]
  end.
  simpl. intros Hb1 Hsp Hs Hhidden Hchanges.
  assert (b1 = store sp0 snapshot' b0) as ->.
  { by destruct (isHiddenByPolicy snapshot' && _); injection Hb1 as <-. }
  change (getSnapshot (store sp0 snapshot' b0) traversalPath)
    with (getSnapshot b0 traversalPath) in Hsp.
  assert (sp = sp0) as -> by congruence.
  rewrite heap_store_eq in Hs. injection Hs as ->.
  by rewrite Hhidden, Hchanges.
Qed.


Lemma updateSnapshots_root args b b' :
  updateSnapshots args b = Some b' ->
  mRootSnapshot b' = rootAfter args (mRootSnapshot b).
Proof.
  unfold updateSnapshots.
  set (I := fun b0 : LayerSnapshotBuilder =>
              set_changes ∅ (mRootSnapshot b0)
              = rootAfter args (mRootSnapshot b)).
  assert (Hstore : forall b0 p v, I b0 -> I (store p v b0)) by done.
  assert (Hset : forall b0 l, I b0 -> I (set_mSnapshots l b0)) by done.
  assert (Hcreate : forall b0 id layer,
            I b0 -> I (snd (getOrCreateSnapshot b0 id layer))).
  { intros b0 id layer Hb0. unfold I. by rewrite getOrCreateSnapshot_root. }
  match goal with
  | |- (@mbind _ _ _ _ _ (foldl _ (Some ?b0) _)) = _ -> _ =>
    assert (I b0) as Hb0
  end.
  { unfold I, rootAfter.
    destruct (forceUpdate args), (displayChanges args); reflexivity. }
  step_bind.
  match goal with
  | E : foldl _ _ _ = Some ?b1 |- _ =>
    assert (I b1) as Hb1
  end.
  { revert E. apply (foldl_option_keeps I); [|by intros ? [= <-]].
    intros a [[childLayer grandChildren] variant] a' Ha.
    by apply (updateSnapshotsInHierarchy_keeps I Hcreate Hstore). }
  step_bind.
  match goal with
  | E : sortSnapshotsByZ _ _ = Some ?b2 |- _ =>
    assert (I b2) as Hb2 by
      exact (sortSnapshotsByZ_keeps I Hstore Hset _ _ _ Hb1 E)
  end.
  destruct (getDestroyedLayers (layerLifecycleManager args)).
  - intros [= <-]. exact Hb2.
  - intros Hd. apply destroySnapshots_root in Hd. rewrite Hd. exact Hb2.
Qed.


End construction.

(** ** Inherited state *)

Section inheritance.
Context {FO : FloatOps} {GO : GeometryOps} {HO : HierarchyOps}
        {PO : PayloadOps} {SO : SnapshotOps}.

#[local] Abbreviation inh := inheritedState.

Lemma inh_updateInherited s rq parent :
  inh (updateInherited s rq parent) = inheritedFrom rq parent.
Proof.
  unfold updateInherited, inheritedFrom.
  by destruct (colorTransformIsIdentity parent).
Qed.

Lemma inh_updateComposition s rq : inh (updateComposition s rq) = inh s.
Proof. reflexivity. Qed.

Lemma inh_updateBuffer s rq rot s' :
  updateBuffer s rq rot = Some s' -> inh s' = inh s.
Proof.
  unfold updateBuffer.
  destruct (if is_BT2020_ITU_PQ _ && _ then _ else _) as [hdr|]; [|done].
  cbn. by intros [= <-].
Qed.

Lemma inh_updateContent s rq : inh (updateContent s rq) = inh s.
Proof. reflexivity. Qed.

Lemma inh_updateLayerBounds s rq parent rot :
  inh (updateLayerBounds s rq parent rot) = inh s.
Proof. unfold updateLayerBounds. cbn. by split_ifs. Qed.

Lemma inh_updateRoundedCorner s rq parent :
  inh (updateRoundedCorner s rq parent) = inh s.
Proof.
  unfold updateRoundedCorner. cbv zeta.
  repeat match goal with
         | |- context [if ?c then set_roundedCorner ?a ?b else ?d] =>
           destruct c
         end; reflexivity.
Qed.

Lemma inh_handleDropInputMode s parent :
  inh (handleDropInputMode s parent) = inh s.
Proof. unfold handleDropInputMode. by split_ifs. Qed.

Lemma inh_updateInput gs s rq parent d noValidDisplay path :
  inh (updateInput gs s rq parent d noValidDisplay path) = inh s.
Proof.
  unfold updateInput. cbv zeta.
  destruct (negb (rq_hasInputInfo rq)); [reflexivity|].
  assert (forall g x, inh (applyCloneCrop g d path x) = inh x) as ->.
  { intros g x. unfold applyCloneCrop.
    destruct (isClone path); [|done]. by destruct (g _). }
  assert (forall x, inh (inTrusted x) = inh x) as ->.
  { intros x. unfold inTrusted. by destruct (isTrustedOverlay x). }
  assert (forall c x, inh (applyTouchCrop c d x) = inh x) as ->.
  { intros c x. unfold applyTouchCrop.
    destruct (replaceTouchableRegionWithCrop _); [done|]. by destruct c. }
  assert (forall x, inh (inSecure d x) = inh x) as ->.
  { intros x. unfold inSecure. by destruct (negb _ && _). }
  unfold resolveDropInput. rewrite inh_handleDropInputMode. cbn.
  unfold inNotTouchable. by destruct noValidDisplay.
Qed.

Lemma inh_updateShadows s rq g : inh (updateShadows s rq g) = inh s.
Proof. unfold updateShadows. cbn. by split_ifs. Qed.

Lemma inh_updateDerived s args rq parent :
  inh (updateDerived s args rq parent) = inh s.
Proof.
  unfold updateDerived. cbn.
  destruct (includeMetadata args); cbn; apply inh_updateShadows.
Qed.

(** X18. The state a snapshot inherits from its parent, after
    [updateSnapshot] on a node that is not hidden by policy. When the update
    is forced or the node has a Visibility, Created or AffectsChildren
    change, its own or handed down, the alpha is the product of the
    parent's alpha and the layer's, the secure and the trusted flag are the
    parent's or the layer's, the layer stack is the parent's for a layer
    with a parent and the requested one otherwise, and stretch effect and
    colour transform are combined with the parent's; no later block
    writes them. Without such a change the inherited state is left as it
    was. *)
Theorem updateSnapshot_inherits gs s args rq parent path s' :
  isHiddenByPolicyFromParent parent || rq_isHiddenByPolicy rq = false ->
  updateSnapshot gs s args rq parent path = Some s' ->
  inheritedState s'
  = if forceUpdate args
       || any (changesAfter rq parent) {[Visibility; Created]}
       || any (changesAfter rq parent) {[AffectsChildren]}
    then inheritedFrom rq parent
    else inheritedState s.
Proof.
  intros Hshown.
  cbv delta [updateSnapshot]. cbv beta.
  do 4 name_let.
  assert (inh snapshot1 = inh s) as Hp by reflexivity.
  assert (changes snapshot1 = changesAfter rq parent) as Hc by reflexivity.
  assert (isHiddenByPolicyFromParent snapshot1 = false) as ->
    by exact Hshown.
  clearbody snapshot1. clear snapshot0 snapshot parentChanges.
  do 4 name_let.
  lazymatch goal with
  | fu := (_ || any _ _) : bool |- _ => rename fu into forced
  end.
  assert (forced = forceUpdate args
                   || any (changesAfter rq parent) {[Visibility; Created]})
    as Hfu by (subst forced; by rewrite Hc).
  clearbody forced.
  rewrite <- Hfu, <- Hc, <- Hp.
  assert (inh snapshot0
          = if forced || any (changes snapshot1) {[AffectsChildren]}
            then inheritedFrom rq parent else inh snapshot1) as H0.
  { subst snapshot0 snapshot.
    destruct (forced || any (changes snapshot1) {[AffectsChildren]}),
             (forced || negb (none_set (rq_changes rq)));
      by rewrite ?inh_updateComposition, ?inh_updateInherited. }
  rewrite <- H0.
  clearbody snapshot0. clear snapshot H0.
  destruct (if _ || has_bits _ _ then _ else _)
    as [snapshot2|] eqn:Hbuf; [|done].
  assert (inh snapshot2 = inh snapshot0) as H2.
  { destruct (_ || has_bits _ _);
      [by apply inh_updateBuffer in Hbuf | by injection Hbuf as <-]. }
  clear Hbuf.
  lazymatch goal with
  | |- @mbind _ _ _ _ ?f (Some ?x) = _ -> _ =>
    change (@mbind _ _ _ _ f (Some x)) with (f x)
  end.
  cbv beta. do 3 name_let.
  intros [= <-]. rewrite inh_updateDerived, <- H2.
  subst snapshot4 snapshot3 snapshot.
  repeat match goal with
         | |- context [if ?c then _ else _] => destruct c
         end;
    cbv zeta;
    by rewrite ?inh_updateInput, ?inh_updateRoundedCorner,
         ?inh_updateLayerBounds, ?inh_updateContent.
Qed.


End inheritance.

(* ------------------------------------------------------------------ *)
(** * Concrete runs *)

Module Examples.
Import Reference.
#[local] Existing Instances Q_FloatOps Affine_GeometryOps Path_HierarchyOps
  Plain_PayloadOps Plain_SnapshotOps.

Lemma default_of_Some {A} (o : option A) (d : A) :
  bool_decide (is_Some o) = true -> o = Some (default d o).
Proof. intros H. apply bool_decide_eq_true_1 in H as [x ->]. reflexivity. Qed.

Lemma built0_run : update args0 LayerSnapshotBuilder_new = Some built0.
Proof. apply default_of_Some. vm_compute. reflexivity. Qed.

Lemma builtC_run : update argsC LayerSnapshotBuilder_new = Some builtC.
Proof. apply default_of_Some. vm_compute. reflexivity. Qed.

(** C1, the failing input. Scene 1 after its first update, then a commit in
    which only the content of B changed. The fast path recomputes B against
    the root snapshot: B is no longer hidden by policy and becomes visible,
    although its parent A is hidden. The forced walk on the same input keeps
    B hidden and invisible. *)
Theorem fast_path_differs_from_forced_walk :
  flagsAt (Some built0) pathB = Some (true, false)
  /\ fst <$> tryFastUpdate (args1 false) built0 = Some true
  /\ flagsAt (update (args1 false) built0) pathB = Some (false, true)
  /\ flagsAt (update (args1 true) built0) pathB = Some (true, false).
Proof. vm_compute. done. Qed.

(** Two displays, 1080x1920 and 2560x1440: after the forced first update the
    root bounds are built from 2560 and 1920. *)
Lemma root_bounds_recomputed_witness :
  ((forceUpdate args0 = true
    /\ update args0 LayerSnapshotBuilder_new = Some built0)
   \/ (forceUpdate args0 || displayChanges args0 = true
       /\ updateSnapshots args0 LayerSnapshotBuilder_new = Some built0))
  /\ Forall (fun kv => getWidth kEmptySize <= logicalWidth (snd kv)
                       /\ getHeight kEmptySize <= logicalHeight (snd kv))
            (displays args0)
  /\ exists W H,
       geomLayerBounds (mRootSnapshot built0) = bounds_of_size W H
       /\ is_max_over logicalWidth (displays args0) W
       /\ is_max_over logicalHeight (displays args0) H.
Proof.
  assert (Hrun : (forceUpdate args0 = true
             /\ update args0 LayerSnapshotBuilder_new = Some built0)
            \/ (forceUpdate args0 || displayChanges args0 = true
                /\ updateSnapshots args0 LayerSnapshotBuilder_new
                   = Some built0)).
  { left. split; [reflexivity | exact built0_run]. }
  assert (Hsizes : Forall (fun kv =>
                     getWidth kEmptySize <= logicalWidth (snd kv)
                     /\ getHeight kEmptySize <= logicalHeight (snd kv))
                    (displays args0)).
  { repeat constructor; simpl; lia. }
  split; [exact Hrun|]. split; [exact Hsizes|].
  exact (root_bounds_recomputed args0 LayerSnapshotBuilder_new built0
           Hrun Hsizes).
Defined.

Example root_bounds_two_displays :
  geomLayerBounds (mRootSnapshot built0)
  = mkFloatRect (-25600)%Q (-19200)%Q 25600%Q 19200%Q.
Proof. vm_compute. reflexivity. Qed.

Example root_bounds_no_display :
  getMaxDisplayBounds [] = mkFloatRect (-50000)%Q (-50000)%Q 50000%Q 50000%Q.
Proof. vm_compute. reflexivity. Qed.

(** C10, the failing input. Scene 1 after its first update, whose root bounds
    were built from the phone and the monitor; then a commit that is not
    forced and changes no layer, in which the monitor is gone and the
    displays are flagged as changed. [tryFastUpdate] reads neither the flag
    nor the displays: it reports the update as done, and the root snapshot
    keeps the bounds of the monitor. The bounds of the displays now
    registered are those of the phone, and [updateSnapshots], which tests
    [args.displayChanges] besides [args.forceUpdate], sets them on the same
    input. *)
Theorem display_change_skipped_by_fast_path :
  forceUpdate argsUnplugged = false
  /\ displayChanges argsUnplugged = true
  /\ fst <$> tryFastUpdate argsUnplugged built0 = Some true
  /\ rootBounds (update argsUnplugged built0)
     = Some (mkFloatRect (-25600)%Q (-19200)%Q 25600%Q 19200%Q)
  /\ getMaxDisplayBounds (displays argsUnplugged)
     = mkFloatRect (-10800)%Q (-19200)%Q 10800%Q 19200%Q
  /\ rootBounds (updateSnapshots argsUnplugged built0)
     = Some (mkFloatRect (-10800)%Q (-19200)%Q 10800%Q 19200%Q).
Proof. vm_compute. done. Qed.

(** Within the range of the conversion: a translation by (10.5, -0.7) is
    rounded toward zero to (11, 0); the rectangle at the right edge of
    [int32_t] overflows and is dropped, the other one is moved. *)
Example safe_transform_in_range :
  in_int32 (rounded_offset (t_tx (mkAffine 1 1 (21 # 2) (-7 # 10)))) = true
  /\ transformTouchableRegionSafely (mkAffine 1 1 (21 # 2) (-7 # 10))
       [mkRect 2147483600 0 2147483640 10; mkRect 0 0 100 100]
     = [mkRect 11 0 111 100].
Proof. vm_compute. done. Qed.

(** C4, the failing input. A transform that moves by 3e9 along x, applied
    to the rectangles (0, 0, 100, 100) and (-1e9, 0, -1e9 + 100, 100). The
    rounded translation is 3000000000: added to the first rectangle it
    overflows [int32_t], added to the second it gives
    (2000000000, 0, 2000000100, 100), so the safe transform of the
    specification drops the first and keeps the second. The function
    converts the translation to [int32_t] before the checked additions, and
    3000000000 is outside the range of that conversion: with the converted
    value, [INT32_MIN] here, the additions to the first rectangle do not
    overflow and it is kept at (-2147483648, 0, -2147483548, 100), while the
    second is dropped. *)
Theorem safe_transform_converts_unchecked :
  rounded_offset (t_tx farRight) = 3000000000
  /\ rect_overflows (rounded_offset (t_tx farRight))
       (rounded_offset (t_ty farRight)) (mkRect 0 0 100 100) = true
  /\ safe_transform_spec farRight twoRects
     = [mkRect 2000000000 0 2000000100 100]
  /\ round_offset (t_tx farRight) = int32_min
  /\ transformTouchableRegionSafely farRight twoRects
     = [mkRect (-2147483648) 0 (-2147483548) 100].
Proof. vm_compute. done. Qed.

(** C2, counterexample: the parent is moved by (10, 0), the node, which has
    no buffer, by (5, 5). The layer-to-screen transform of the node is the
    absolute translation (15, 5), not its local transform (5, 5). *)
Lemma input_transform_is_not_local :
  hasBufferOrSidebandStream snapshotD = false
  /\ localTransform snapshotD = mkAffine 1 1 5 5
  /\ getInputTransform snapshotD = mkAffine 1 1 15 5
  /\ layerToDisplay affine_id snapshotD
     <> t_mul affine_id (localTransform snapshotD).
Proof. vm_compute. repeat split; try done. Qed.


(** C5, counterexample: in scene 2 the traversal visits the container C
    before its child V. C is not hidden by policy, so the visitor goes on
    below it, but its visible flag is clear: the visitor consumes no index
    for it, V receives index 0, and C ends behind it at index 1, marked not
    visible. *)
Lemma policy_visible_without_index :
  root_traverseInZOrder argsC = ZVisit pathC (ZVisit pathV ZDone ZDone) ZDone
  /\ orderAt builtC pathC = Some (false, false, 1%nat)
  /\ orderAt builtC pathV = Some (false, true, 0%nat)
  /\ (getSnapshot builtC pathV, getSnapshot builtC pathC)
     = (mSnapshots builtC !! 0%nat, mSnapshots builtC !! 1%nat)
  /\ (fun r => (fst r, fst (snd r)))
       <$> sortVisitor pathC (0%nat, builtC) = Some (true, 0%nat).
Proof. vm_compute. done. Qed.

Lemma built0_wf : store_wf built0.
Proof.
  split.
  - apply (bool_decide_eq_true_1 (NoDup (mSnapshots built0))).
    vm_compute. reflexivity.
  - apply (bool_decide_eq_true_1
             (Forall (fun p => is_Some (heap built0 !! p))
                     (mSnapshots built0))).
    vm_compute. reflexivity.
Defined.

Lemma builtC_wf : store_wf builtC.
Proof.
  split.
  - apply (bool_decide_eq_true_1 (NoDup (mSnapshots builtC))).
    vm_compute. reflexivity.
  - apply (bool_decide_eq_true_1
             (Forall (fun p => is_Some (heap builtC !! p))
                     (mSnapshots builtC))).
    vm_compute. reflexivity.
Defined.

(** The snapshot of V in the store of scene 2. *)
Lemma builtC_V :
  getSnapshot builtC pathV = Some 1%nat
  /\ heap builtC !! 1%nat
     = Some (default (blank pathV) (heap builtC !! 1%nat)).
Proof.
  split; [vm_compute; reflexivity|].
  apply default_of_Some. vm_compute. reflexivity.
Qed.

(** C5, witness. On the store of scene 1 an unforced pass without hierarchy
    or visibility changes returns the store as it is, and a forced pass,
    whose traversal assigns no index because A and B are hidden, marks both
    slots not visible with their positions as indices. On the store of
    scene 2 the visitor, with index 1 next, moves the visible snapshot of V
    from slot 0 to slot 1 and the snapshot of C the other way. *)
Lemma z_order_pass_witness :
  store_wf built0
  /\ sortSnapshotsByZ (args1 false) built0 = Some built0
  /\ (exists b',
        sortSnapshotsByZ (args1 true) built0 = Some b'
        /\ forall i p, (0 <= i)%nat -> mSnapshots b' !! i = Some p ->
            exists s, heap b' !! p = Some s
                      /\ globalZ s = i /\ isVisible s = false)
  /\ store_wf builtC
  /\ exists b',
       sortVisitor pathV (1%nat, builtC) = Some (true, (2%nat, b'))
       /\ mSnapshots b' = [0%nat; 1%nat]
       /\ globalZ <$> heap b' !! 1%nat = Some 1%nat
       /\ globalZ <$> heap b' !! 0%nat = Some 0%nat.
Proof.
  split; [exact built0_wf|].
  destruct (z_order_pass_assigns_visible (args1 true) built0 built0_wf)
    as (_ & _ & _ & Hrun).
  split.
  { apply (proj1 (z_order_pass_assigns_visible (args1 false) built0
                    built0_wf)); reflexivity. }
  split.
  { destruct (Hrun 0%nat built0) as (b' & Hsort & _ & Hmarked & _);
      [reflexivity | reflexivity|].
    exists b'. split; [exact Hsort | exact Hmarked]. }
  split; [exact builtC_wf|].
  destruct (z_order_pass_assigns_visible argsC builtC builtC_wf)
    as (_ & _ & Hvisit & _).
  destruct builtC_V as [HpV HsV].
  specialize (Hvisit pathV 1%nat 1%nat _ HpV HsV).
  assert (Hv : visited (default (blank pathV) (heap builtC !! 1%nat)) = true)
    by (vm_compute; reflexivity).
  assert (Hvis : isVisible (default (blank pathV) (heap builtC !! 1%nat))
                 = true) by (vm_compute; reflexivity).
  rewrite Hv, Hvis in Hvisit.
  destruct (Hvisit 0%nat) as (b' & Hstep & Hms & HzV & HzC & _);
    [vm_compute; reflexivity | vm_compute; reflexivity|].
  exists b'. split; [exact Hstep|]. split; [|split].
  - rewrite Hms. vm_compute. reflexivity.
  - exact HzV.
  - exact HzC.
Defined.

(** C7, witness: B under a parent hidden by policy. *)
Lemma hidden_node_witness :
  isHiddenByPolicyFromParent hiddenParent || rq_isHiddenByPolicy layerB0
  = true
  /\ updateSnapshot noSnapshot (blank pathB) args0 layerB0 hiddenParent pathB
     = Some (hiddenUpdate (blank pathB) layerB0 hiddenParent)
  /\ isVisible (hiddenUpdate (blank pathB) layerB0 hiddenParent) = false.
Proof.
  assert (Hhidden : isHiddenByPolicyFromParent hiddenParent
                    || rq_isHiddenByPolicy layerB0 = true) by reflexivity.
  split; [exact Hhidden|].
  destruct (proj2 (hidden_node_keeps_other_fields noSnapshot (blank pathB)
                     args0 layerB0 hiddenParent pathB) Hhidden)
    as (Hrun & Hvisible & _).
  split; [exact Hrun | exact Hvisible].
Defined.

(** C8, witness: a requested transform with a zero scale along x. *)
Lemma invalid_transform_witness :
  isTransformValid
    (t_mul (geomLayerTransform movedParent) (rq_getTransform layerE 0))
  = false
  /\ invalidTransform (updateLayerBounds (blank pathB) layerE movedParent 0)
     = true
  /\ geomLayerTransform (updateLayerBounds (blank pathB) layerE movedParent 0)
     = t_identity.
Proof.
  assert (Hinvalid :
            isTransformValid
              (t_mul (geomLayerTransform movedParent)
                 (rq_getTransform layerE 0)) = false) by reflexivity.
  split; [exact Hinvalid|].
  destruct (invalid_transform_reset_to_identity (blank pathB) layerE
              movedParent 0 Hinvalid) as (Hflag & Hid & _).
  split; [exact Hflag | exact Hid].
Defined.

(** C9, witness: scene 5. The occurrence of layer 4 is a clone below the
    mirror root 7 and names the touch-crop target 99. In the builder of
    scene 1 the ids 1 and 2 resolve, 99 and 7 do not. The touchable region
    of the occurrence after [updateInput] is the one of the frame
    computation, its rectangle (0, 0, 40, 40) moved by (15, 5): nothing was
    intersected with it, and the occurrence is tagged as a clone. *)
Lemma dangling_cross_references_witness :
  rq_hasInputInfo layerF = true
  /\ rq_touchCropId layerF = 99
  /\ isClone pathF = true
  /\ mirrorRootIds_back pathF = 7
  /\ (forall cur, is_Some (resolve built0 nextPtr cur 1))
  /\ (forall cur, resolve built0 nextPtr cur (rq_touchCropId layerF) = None)
  /\ (isClone pathF = true ->
      forall cur, resolve built0 nextPtr cur (mirrorRootIds_back pathF) = None)
  /\ touchableRegion
       (inputInfo (updateInput (resolve built0 nextPtr) snapshotF layerF
                     movedParent phone false pathF))
     = touchableRegion
         (fillInputFrameInfo (inputInfo (inDisplayId snapshotF))
            (di_transform phone) (inDisplayId snapshotF))
  /\ touchableRegion
       (fillInputFrameInfo (inputInfo (inDisplayId snapshotF))
          (di_transform phone) (inDisplayId snapshotF))
     = [mkRect 15 5 55 45].
Proof.
  assert (Hinput : rq_hasInputInfo layerF = true) by reflexivity.
  assert (Hnext : nextPtr = 2%nat) by (vm_compute; reflexivity).
  assert (Hlive : forall cur, is_Some (resolve built0 nextPtr cur 1)).
  { intros cur. unfold resolve.
    assert (getSnapshotById built0 1 = Some 0%nat) as ->
      by (vm_compute; reflexivity).
    rewrite Hnext. simpl.
    apply (bool_decide_eq_true_1 (is_Some (heap built0 !! 0%nat))).
    vm_compute. reflexivity. }
  assert (Hcrop : forall cur,
            resolve built0 nextPtr cur (rq_touchCropId layerF) = None).
  { intros cur. unfold resolve.
    assert (getSnapshotById built0 (rq_touchCropId layerF) = None) as ->
      by (vm_compute; reflexivity).
    reflexivity. }
  assert (Hroot : isClone pathF = true ->
                  forall cur,
                    resolve built0 nextPtr cur (mirrorRootIds_back pathF)
                    = None).
  { intros _ cur. unfold resolve.
    assert (getSnapshotById built0 (mirrorRootIds_back pathF) = None) as ->
      by (vm_compute; reflexivity).
    reflexivity. }
  split; [exact Hinput|]. split; [reflexivity|]. split; [reflexivity|].
  split; [reflexivity|]. split; [exact Hlive|]. split; [exact Hcrop|].
  split; [exact Hroot|].
  split; [|vm_compute; reflexivity].
  exact (proj2 (proj2 (dangling_cross_references_absent
                         (resolve built0 nextPtr) snapshotF layerF
                         movedParent phone false pathF
                         Hinput Hcrop Hroot))).
Defined.

(** The constructor of the reference snapshots stores the path. *)
Lemma blank_path :
  forall (layer : RequestedLayerState) (id : TraversalPath),
    path (LayerSnapshot_new layer id) = id.
Proof. reflexivity. Defined.

Lemma zorderAB_fresh : visits_fresh [] zorderAB.
Proof.
  repeat split;
    apply (bool_decide_eq_true_1 _); vm_compute; reflexivity.
Defined.

Lemma scene1_buffers : Forall buffer_ok (args_layers args0).
Proof. repeat constructor; intros H; vm_compute in H; discriminate H. Defined.

Lemma new_builder_wf : builder_wf LayerSnapshotBuilder_new.
Proof. exact (proj1 LayerSnapshotBuilder_new_wf). Defined.

Lemma new_builder_indexed : indexed LayerSnapshotBuilder_new.
Proof. exact (proj2 LayerSnapshotBuilder_new_wf). Defined.

Lemma update_forced (args : Args) (b : LayerSnapshotBuilder) :
  forceUpdate args = true -> update args b = updateSnapshots args b.
Proof. intros Hf. unfold update, tryFastUpdate. by rewrite Hf. Defined.

Lemma built0_forced :
  updateSnapshots args0 LayerSnapshotBuilder_new = Some built0.
Proof. rewrite <- (update_forced args0 _ eq_refl). exact built0_run. Defined.

Lemma builtC_forced :
  updateSnapshots argsC LayerSnapshotBuilder_new = Some builtC.
Proof. rewrite <- (update_forced argsC _ eq_refl). exact builtC_run. Defined.

Lemma built0_builder_wf : builder_wf built0.
Proof.
  exact (update_wf blank_path args0 _ _ new_builder_wf built0_run).
Defined.

Lemma builtC_builder_wf : builder_wf builtC.
Proof.
  exact (update_wf blank_path argsC _ _ new_builder_wf builtC_run).
Defined.

Lemma built0_indexed : indexed built0.
Proof.
  destruct (updateSnapshots_returns_aux blank_path args0
              LayerSnapshotBuilder_new new_builder_wf new_builder_indexed
              zorderAB_fresh scene1_buffers) as (b & Hrun & Hix).
  pose proof (eq_trans (eq_sym Hrun) built0_forced) as Heq.
  apply (inj Some) in Heq. subst b.
  exact (proj1 (Hix eq_refl)).
Defined.

Lemma builtC_indexed : indexed builtC.
Proof.
  assert (visits_fresh [] (root_traverseInZOrder argsC)) as Hfresh.
  { repeat split;
      apply (bool_decide_eq_true_1 _); vm_compute; reflexivity. }
  assert (Forall buffer_ok (args_layers argsC)) as Hok.
  { repeat constructor; intros H; vm_compute in H; discriminate H. }
  destruct (updateSnapshots_returns_aux blank_path argsC
              LayerSnapshotBuilder_new new_builder_wf new_builder_indexed
              Hfresh Hok) as (b & Hrun & Hix).
  pose proof (eq_trans (eq_sym Hrun) builtC_forced) as Heq.
  apply (inj Some) in Heq. subst b.
  exact (proj1 (Hix eq_refl)).
Defined.

(** X1, witness: the first snapshot of an empty builder. *)
Lemma getOrCreateSnapshot_lookup_witness :
  getSnapshot LayerSnapshotBuilder_new pathA = None
  /\ getSnapshot
       (snd (getOrCreateSnapshot LayerSnapshotBuilder_new pathA layerA0))
       pathA
     = Some (fst (getOrCreateSnapshot LayerSnapshotBuilder_new pathA layerA0))
  /\ mSnapshots
       (snd (getOrCreateSnapshot LayerSnapshotBuilder_new pathA layerA0))
     = mSnapshots LayerSnapshotBuilder_new
       ++ [fst (getOrCreateSnapshot LayerSnapshotBuilder_new pathA layerA0)].
Proof.
  assert (Hnone : getSnapshot LayerSnapshotBuilder_new pathA = None)
    by reflexivity.
  destruct (getOrCreateSnapshot_lookup blank_path LayerSnapshotBuilder_new
              pathA layerA0) as (Hfind & _ & _ & _ & Hnew & _).
  split; [exact Hnone|]. split; [exact Hfind|].
  exact (proj1 (proj2 (Hnew Hnone))).
Defined.

Lemma walked0_run :
  updateSnapshotsInHierarchy args0 hierarchyA pathA RootRef
    LayerSnapshotBuilder_new = Some walked0.
Proof. apply default_of_Some. vm_compute. reflexivity. Defined.

(** X2, witness: the walk over scene 1 from an empty builder. *)
Lemma walk_keeps_the_store_witness :
  builder_wf LayerSnapshotBuilder_new
  /\ builder_wf walked0 /\ indexed walked0
  /\ is_Some (getSnapshot walked0 pathA).
Proof.
  destruct (walk_keeps_the_store blank_path args0 hierarchyA pathA RootRef
              _ _ new_builder_wf walked0_run) as (Hwf & Hix & _ & Hreg).
  split; [exact new_builder_wf|]. split; [exact Hwf|].
  split; [exact (Hix new_builder_indexed) | exact Hreg].
Defined.

Lemma hierarchyA_buffers : Forall buffer_ok (hierarchy_layers hierarchyA).
Proof. repeat constructor; intros H; vm_compute in H; discriminate H. Defined.

(** X3, witness: the walk over scene 1 from an empty builder returns. *)
Lemma walk_returns_witness :
  builder_wf LayerSnapshotBuilder_new
  /\ exists b',
       updateSnapshotsInHierarchy args0 hierarchyA pathA RootRef
         LayerSnapshotBuilder_new = Some b'
       /\ builder_wf b'.
Proof.
  split; [exact new_builder_wf|].
  destruct (walk_returns blank_path args0 hierarchyA pathA RootRef
              LayerSnapshotBuilder_new new_builder_wf
              (ex_intro _ _ eq_refl) hierarchyA_buffers)
    as (b' & Hrun & Hwf & _).
  exists b'. split; [exact Hrun | exact Hwf].
Defined.

(** X4, witness: a forced z-order pass on the builder of scene 1. *)
Lemma sortSnapshotsByZ_returns_witness :
  builder_wf built0 /\ indexed built0
  /\ exists b',
       sortSnapshotsByZ args0 built0 = Some b'
       /\ indexed b' /\ exists z, visible_prefix z b'.
Proof.
  split; [exact built0_builder_wf|]. split; [exact built0_indexed|].
  destruct (sortSnapshotsByZ_returns args0 built0 built0_builder_wf
              built0_indexed zorderAB_fresh)
    as (b' & Hrun & _ & Hix & _ & Hpre).
  exists b'. split; [exact Hrun|]. split; [exact Hix|].
  exact (Hpre eq_refl).
Defined.

(** X5, witness: layer V of scene 2 is destroyed. *)
Lemma eviction_removes_destroyed_witness :
  builder_wf builtC
  /\ exists b',
       destroySnapshots goneV (length (mSnapshots builtC)) 0 builtC = Some b'
       /\ builder_wf b'
       /\ forall k p,
            getSnapshot b' k = Some p <->
            getSnapshot builtC k = Some p /\ path_id k ∉ goneV.
Proof.
  split; [exact builtC_builder_wf|].
  destruct (eviction_removes_destroyed goneV builtC builtC_builder_wf)
    as (b' & Hrun & Hwf & _ & _ & Hindex & _).
  exists b'. split; [exact Hrun|]. split; [exact Hwf | exact Hindex].
Defined.

Lemma evictedC_run :
  destroySnapshots goneV (length (mSnapshots builtC)) 0 builtC
  = Some evictedC.
Proof. apply default_of_Some. vm_compute. reflexivity. Defined.

Lemma at_ptr_live (b : LayerSnapshotBuilder) (p : ptr) :
  bool_decide (is_Some (heap b !! p)) = true ->
  heap b !! p = Some (at_ptr b p).
Proof. apply default_of_Some. Defined.

(** X6, witness: in scene 2 the snapshot of V is in front of the one of C.
    When V is evicted, the snapshot of C is moved to slot 0 and keeps the
    stored index 1. *)
Lemma eviction_leaves_stale_index_witness :
  last (mSnapshots builtC) = Some 0%nat
  /\ (path_id (path (at_ptr builtC 0%nat)) ∉ goneV)
  /\ path_id (path (at_ptr builtC 1%nat)) ∈ goneV
  /\ getSnapshot evictedC (path (at_ptr builtC 0%nat)) = Some 0%nat
  /\ mSnapshots evictedC !! globalZ (at_ptr builtC 0%nat) = None.
Proof.
  assert (Hlast : last (mSnapshots builtC) = Some 0%nat)
    by (vm_compute; reflexivity).
  assert (Hlives : path_id (path (at_ptr builtC 0%nat)) ∉ goneV)
    by (apply (bool_decide_eq_true_1 _); vm_compute; reflexivity).
  assert (Hdead : path_id (path (at_ptr builtC 1%nat)) ∈ goneV)
    by (apply (bool_decide_eq_true_1 _); vm_compute; reflexivity).
  assert (H0 : heap builtC !! 0%nat = Some (at_ptr builtC 0%nat))
    by (apply at_ptr_live; vm_compute; reflexivity).
  assert (H1 : heap builtC !! 1%nat = Some (at_ptr builtC 1%nat))
    by (apply at_ptr_live; vm_compute; reflexivity).
  destruct (eviction_leaves_stale_index goneV builtC evictedC 0%nat
              (at_ptr builtC 0%nat) 1%nat (at_ptr builtC 1%nat)
              builtC_builder_wf builtC_indexed evictedC_run Hlast H0 Hlives
              H1 Hdead) as (Hget & _ & Hnone & _).
  split; [exact Hlast|]. split; [exact Hlives|]. split; [exact Hdead|].
  split; [exact Hget | exact Hnone].
Defined.

(** X7, witness: a commit of scene 1 without changes. The displays changed
    and layer B is listed as destroyed, but the update only clears the
    flags. *)
Lemma update_without_changes_witness :
  displayChanges argsIdle = true
  /\ getDestroyedLayers (layerLifecycleManager argsIdle) = [layerB1]
  /\ update argsIdle built0
     = Some (mkLayerSnapshotBuilder (mRootSnapshot built0)
               (mSnapshots built0) (mIdToSnapshot built0)
               (clearDirty <$> heap built0)).
Proof.
  split; [reflexivity|]. split; [reflexivity|].
  exact (update_without_changes argsIdle built0 eq_refl eq_refl
           built0_builder_wf).
Defined.

Lemma built1_run : update (args1 false) built0 = Some built1.
Proof. apply default_of_Some. vm_compute. reflexivity. Defined.

Lemma scene1_A_unchanged :
  forall layer,
    layer ∈ getLayers (layerLifecycleManager (args1 false)) ->
    rq_id layer = path_id (path (at_ptr built0 0%nat)) ->
    test (rq_changes layer) Content = false.
Proof.
  intros layer Hin Hid.
  apply elem_of_cons in Hin as [->|Hin]; [reflexivity|].
  apply list_elem_of_singleton in Hin as ->.
  vm_compute in Hid. discriminate Hid.
Defined.

(** X8, witness: the content-only commit of scene 1. The snapshot of A,
    whose layer did not change, only has its flags cleared. *)
Lemma update_content_only_witness :
  getGlobalChanges (layerLifecycleManager (args1 false)) = {[Content]}
  /\ rewrites built0 built1
  /\ heap built1 !! 0%nat = Some (clearDirty (at_ptr built0 0%nat)).
Proof.
  split; [reflexivity|].
  destruct (update_content_only (args1 false) built0 built1 eq_refl eq_refl
              built0_builder_wf built1_run) as [Hrw Hclear].
  split; [exact Hrw|].
  apply Hclear; [|exact scene1_A_unchanged].
  apply at_ptr_live. vm_compute. reflexivity.
Defined.

(** X9, witness: the first update of scene 1. *)
Lemma update_keeps_the_store_witness :
  builder_wf LayerSnapshotBuilder_new /\ builder_wf built0.
Proof.
  split; [exact new_builder_wf|].
  exact (proj1 (update_keeps_the_store blank_path args0
                  LayerSnapshotBuilder_new built0 new_builder_wf
                  built0_run)).
Defined.

(** X10, witness: the full pass over scene 1 from an empty builder. *)
Lemma updateSnapshots_returns_witness :
  exists b',
    updateSnapshots args0 LayerSnapshotBuilder_new = Some b'
    /\ builder_wf b' /\ indexed b' /\ exists z, visible_prefix z b'.
Proof.
  destruct (updateSnapshots_returns blank_path args0 LayerSnapshotBuilder_new
              new_builder_wf new_builder_indexed zorderAB_fresh
              scene1_buffers) as (b' & Hrun & Hwf & Hafter).
  exists b'. split; [exact Hrun|]. split; [exact Hwf|].
  split; [exact (proj1 (Hafter eq_refl))|].
  exact (proj2 (Hafter eq_refl) eq_refl).
Defined.

Lemma updatedB_run (args : Args) (rq : RequestedLayerState) :
  bool_decide
    (is_Some
       (updateSnapshot noSnapshot (blank pathB) args rq (blank pathA) pathB))
  = true ->
  updateSnapshot noSnapshot (blank pathB) args rq (blank pathA) pathB
  = Some (updatedB args rq).
Proof. apply default_of_Some. Defined.

(** X11, witness: layer B of scene 1 updated under a parent that is not
    hidden. *)
Lemma updateSnapshot_settles_witness :
  identityMembers (updatedB args0 layerB0) = (pathB, 0%nat)
  /\ changes (updatedB args0 layerB0) = changesAfter layerB0 (blank pathA)
  /\ contentDirty (updatedB args0 layerB0) = true.
Proof.
  assert (Hrun : updateSnapshot noSnapshot (blank pathB) args0 layerB0
                   (blank pathA) pathB = Some (updatedB args0 layerB0))
    by (apply updatedB_run; vm_compute; reflexivity).
  destruct (updateSnapshot_settles noSnapshot (blank pathB) args0 layerB0
              (blank pathA) pathB _ Hrun) as (Hid & _ & Hch & Hdirty & _).
  split; [exact Hid|]. split; [exact Hch | exact Hdirty].
Defined.

(** X12, witness: the content-only change of layer B leaves the geometry
    and the input state of its snapshot. *)
Lemma updateSnapshot_incremental_witness :
  forceUpdate (args1 false) = false
  /\ changesAfter layerB1 (blank pathA) = {[Content]}
  /\ geometryMembers (updatedB (args1 false) layerB1)
     = geometryMembers (blank pathB)
  /\ inputMembers (updatedB (args1 false) layerB1)
     = inputMembers (blank pathB).
Proof.
  assert (Hrun : updateSnapshot noSnapshot (blank pathB) (args1 false)
                   layerB1 (blank pathA) pathB
                 = Some (updatedB (args1 false) layerB1))
    by (apply updatedB_run; vm_compute; reflexivity).
  assert (Hvc : any (changesAfter layerB1 (blank pathA))
                  {[Visibility; Created]} = false)
    by (vm_compute; reflexivity).
  assert (Hhg : any (changesAfter layerB1 (blank pathA))
                  {[Hierarchy; Geometry]} = false)
    by (vm_compute; reflexivity).
  assert (Hin : any (changesAfter layerB1 (blank pathA)) {[Input]} = false)
    by (vm_compute; reflexivity).
  destruct (updateSnapshot_incremental noSnapshot (blank pathB) (args1 false)
              layerB1 (blank pathA) pathB _ eq_refl Hvc Hhg Hrun)
    as [Hgeom Hinput].
  split; [reflexivity|]. split.
  { apply (bool_decide_eq_true_1 _). vm_compute. reflexivity. }
  split; [exact Hgeom | exact (Hinput Hin)].
Defined.

(** X13, witness: layer D has input info, layer B has none. *)
Lemma updateInput_flags_witness :
  rq_hasInputInfo layerD = true
  /\ inputFlags
       (updateInput noSnapshot snapshotD layerD movedParent phone true pathB)
     ⊆ inputFlags snapshotD ∪ inputFlagsAdded
  /\ NOT_TOUCHABLE
     ∈ inputFlags
         (updateInput noSnapshot snapshotD layerD movedParent phone true
            pathB)
  /\ rq_hasInputInfo layerB0 = false
  /\ inputFlags
       (updateInput noSnapshot snapshotD layerB0 movedParent phone true
          pathB)
     = {[NO_INPUT_CHANNEL]}.
Proof.
  destruct (updateInput_flags noSnapshot snapshotD layerD movedParent phone
              true pathB) as [_ Hwith].
  destruct (Hwith eq_refl) as (_ & Hadded & Hnt & _).
  destruct (updateInput_flags noSnapshot snapshotD layerB0 movedParent phone
              true pathB) as [Hwithout _].
  split; [reflexivity|]. split; [exact Hadded|].
  split; [exact (Hnt eq_refl)|]. split; [reflexivity|].
  exact (Hwithout eq_refl).
Defined.

(** X14, witness: the builder constructed from the first commit of
    scene 1. *)
Lemma LayerSnapshotBuilder_of_args_returns_witness :
  exists b,
    LayerSnapshotBuilder_of_args args0 = Some b
    /\ builder_wf b /\ indexed b.
Proof.
  destruct (LayerSnapshotBuilder_of_args_returns args0 blank_path
              zorderAB_fresh scene1_buffers) as (b & Hrun & Hwf & _ & Hafter).
  exists b. split; [exact Hrun|]. split; [exact Hwf|].
  exact (proj1 (Hafter eq_refl)).
Defined.

Lemma prunedA_run :
  updateSnapshotsInHierarchy (args1 false) (mkLayerHierarchy layerA1 [])
    pathA RootRef built0 = Some prunedA.
Proof. apply default_of_Some. vm_compute. reflexivity. Defined.

(** X15, witness: in the second commit of scene 1 the node A is hidden by
    policy and unchanged, and the walk does not go on to B. *)
Lemma walk_skips_hidden_subtree_witness :
  isHiddenByPolicy (at_ptr prunedA 0%nat) = true
  /\ any (changes (at_ptr prunedA 0%nat)) {[Visibility; Hierarchy]} = false
  /\ updateSnapshotsInHierarchy (args1 false)
       (mkLayerHierarchy layerA1 [(mkLayerHierarchy layerB1 [], Attached)])
       pathA RootRef built0 = Some prunedA.
Proof.
  assert (Hsp : getSnapshot prunedA pathA = Some 0%nat)
    by (vm_compute; reflexivity).
  assert (Hs : heap prunedA !! 0%nat = Some (at_ptr prunedA 0%nat))
    by (apply at_ptr_live; vm_compute; reflexivity).
  assert (Hhidden : isHiddenByPolicy (at_ptr prunedA 0%nat) = true)
    by (vm_compute; reflexivity).
  assert (Hquiet : any (changes (at_ptr prunedA 0%nat))
                     {[Visibility; Hierarchy]} = false)
    by (vm_compute; reflexivity).
  split; [exact Hhidden|]. split; [exact Hquiet|].
  exact (walk_skips_hidden_subtree (args1 false) layerA1
           [(mkLayerHierarchy layerB1 [], Attached)] pathA RootRef built0
           prunedA 0%nat (at_ptr prunedA 0%nat) prunedA_run Hsp Hs Hhidden
           Hquiet).
Defined.


(** X18, witness: layer B of scene 1 in the forced first update. *)
Lemma updateSnapshot_inherits_witness :
  isHiddenByPolicyFromParent (blank pathA) || rq_isHiddenByPolicy layerB0
  = false
  /\ inheritedState (updatedB args0 layerB0)
     = inheritedFrom layerB0 (blank pathA).
Proof.
  assert (Hshown : isHiddenByPolicyFromParent (blank pathA)
                   || rq_isHiddenByPolicy layerB0 = false) by reflexivity.
  assert (Hrun : updateSnapshot noSnapshot (blank pathB) args0 layerB0
                   (blank pathA) pathB = Some (updatedB args0 layerB0))
    by (apply updatedB_run; vm_compute; reflexivity).
  split; [exact Hshown|].
  exact (updateSnapshot_inherits noSnapshot (blank pathB) args0 layerB0
           (blank pathA) pathB _ Hshown Hrun).
Defined.


End Examples.
